(** * A shallow embedding of the CHIP-8 interpreter of [chip8.c]

    The machine state is the [struct CHIP8] of the source, the integer
    fields are modelled as [Z] with the wrap-around of [uint8_t] and
    [uint16_t] written out at every assignment, and the arrays are lists
    read and written by index.  Calls into curses ([clear], [mvaddch],
    [refresh]) only write to the terminal and calls to the clock only pace
    the loop; neither feeds back into the machine state and both are left
    out.  The two inputs of the interpreter, [getch()] and [rand()], are
    arguments of the functions that consume them.  One ghost field is added
    to the state: the log of the indices used on the memory image. *)

From Stdlib Require Import ZArith Bool Lia String Ascii.
From stdpp Require Import base tactics option list numbers.

Local Open Scope Z_scope.

(** ** Constants of the source *)

Definition STACK_SIZE : Z := 5.
Definition MEMORY_SIZE : Z := 4096.
Definition NOKEY : Z := 255.
Definition QUIT : Z := 254.

(** [ERR] is the value curses' [getch] returns when no input is waiting
    (the terminal is in [nodelay] mode); curses defines it as -1. *)
Definition ERR : Z := -1.

(** ** Fixed-width integers *)

Definition u8 (z : Z) : Z := z mod 256.
Definition u16 (z : Z) : Z := z mod 65536.

(** ** C arrays as lists

    An index outside the array is undefined behaviour in C.  The model
    reads a default there and ignores the write; the access log below is
    what shows that the interpreter never gets there on the memory image. *)

Definition aget {T : Type} (d : T) (l : list T) (k : Z) : T :=
  if 0 <=? k then default d (l !! Z.to_nat k) else d.

Definition aset {T : Type} (l : list T) (k : Z) (x : T) : list T :=
  if 0 <=? k then <[Z.to_nat k := x]> l else l.

(** ** The machine state *)

Record CHIP8 : Type := mkCHIP8 {
  mem : list Z;                 (* uint8_t mem[MEMORY_SIZE] *)
  stack : list Z;               (* uint16_t stack[STACK_SIZE] *)
  pc : Z;                       (* uint16_t *)
  sp : Z;                       (* uint16_t *)
  i : Z;                        (* uint16_t *)
  delay : Z;                    (* uint8_t *)
  sound : Z;                    (* uint8_t *)
  v : list Z;                   (* uint8_t v[16] *)
  dirty : bool;
  display : list (list bool);   (* bool display[32][64] *)
  inspertick : Z;               (* int *)
  keymap : string;              (* char * *)
  accessed : list Z             (* ghost: indices used on [mem], oldest first *)
}.

Definition with_mem (x : list Z) (vm : CHIP8) : CHIP8 :=
  mkCHIP8 x (stack vm) (pc vm) (sp vm) (i vm) (delay vm) (sound vm) (v vm)
          (dirty vm) (display vm) (inspertick vm) (keymap vm) (accessed vm).
Definition with_stack (x : list Z) (vm : CHIP8) : CHIP8 :=
  mkCHIP8 (mem vm) x (pc vm) (sp vm) (i vm) (delay vm) (sound vm) (v vm)
          (dirty vm) (display vm) (inspertick vm) (keymap vm) (accessed vm).
Definition with_pc (x : Z) (vm : CHIP8) : CHIP8 :=
  mkCHIP8 (mem vm) (stack vm) (u16 x) (sp vm) (i vm) (delay vm) (sound vm) (v vm)
          (dirty vm) (display vm) (inspertick vm) (keymap vm) (accessed vm).
Definition with_sp (x : Z) (vm : CHIP8) : CHIP8 :=
  mkCHIP8 (mem vm) (stack vm) (pc vm) (u16 x) (i vm) (delay vm) (sound vm) (v vm)
          (dirty vm) (display vm) (inspertick vm) (keymap vm) (accessed vm).
Definition with_i (x : Z) (vm : CHIP8) : CHIP8 :=
  mkCHIP8 (mem vm) (stack vm) (pc vm) (sp vm) (u16 x) (delay vm) (sound vm) (v vm)
          (dirty vm) (display vm) (inspertick vm) (keymap vm) (accessed vm).
Definition with_delay (x : Z) (vm : CHIP8) : CHIP8 :=
  mkCHIP8 (mem vm) (stack vm) (pc vm) (sp vm) (i vm) (u8 x) (sound vm) (v vm)
          (dirty vm) (display vm) (inspertick vm) (keymap vm) (accessed vm).
Definition with_sound (x : Z) (vm : CHIP8) : CHIP8 :=
  mkCHIP8 (mem vm) (stack vm) (pc vm) (sp vm) (i vm) (delay vm) (u8 x) (v vm)
          (dirty vm) (display vm) (inspertick vm) (keymap vm) (accessed vm).
Definition with_v (x : list Z) (vm : CHIP8) : CHIP8 :=
  mkCHIP8 (mem vm) (stack vm) (pc vm) (sp vm) (i vm) (delay vm) (sound vm) x
          (dirty vm) (display vm) (inspertick vm) (keymap vm) (accessed vm).
Definition with_dirty (x : bool) (vm : CHIP8) : CHIP8 :=
  mkCHIP8 (mem vm) (stack vm) (pc vm) (sp vm) (i vm) (delay vm) (sound vm) (v vm)
          x (display vm) (inspertick vm) (keymap vm) (accessed vm).
Definition with_display (x : list (list bool)) (vm : CHIP8) : CHIP8 :=
  mkCHIP8 (mem vm) (stack vm) (pc vm) (sp vm) (i vm) (delay vm) (sound vm) (v vm)
          (dirty vm) x (inspertick vm) (keymap vm) (accessed vm).
Definition with_accessed (x : list Z) (vm : CHIP8) : CHIP8 :=
  mkCHIP8 (mem vm) (stack vm) (pc vm) (sp vm) (i vm) (delay vm) (sound vm) (v vm)
          (dirty vm) (display vm) (inspertick vm) (keymap vm) x.

(** [vm->v[x]] and [vm->v[x] = val]; the stored value is converted to
    [uint8_t]. *)
Definition V (vm : CHIP8) (x : Z) : Z := aget 0 (v vm) x.
Definition setV (x val : Z) (vm : CHIP8) : CHIP8 :=
  with_v (aset (v vm) x (u8 val)) vm.

(** [vm->mem[a]] and [vm->mem[a] = val], each leaving its index in the
    access log. *)
Definition mem_load (vm : CHIP8) (a : Z) : Z * CHIP8 :=
  (aget 0 (mem vm) a, with_accessed (accessed vm ++ [a]) vm).
Definition mem_store (a val : Z) (vm : CHIP8) : CHIP8 :=
  with_accessed (accessed vm ++ [a]) (with_mem (aset (mem vm) a (u8 val)) vm).

(** [vm->display[row][col]] and its assignment. *)
Definition getpx (d : list (list bool)) (row col : Z) : bool :=
  aget false (aget [] d row) col.
Definition putpx (row col : Z) (b : bool) (d : list (list bool)) : list (list bool) :=
  aset d row (aset (aget [] d row) col b).

(** ** Outcome of an operation that may call [die]

    [die] ends the process; [Die] carries its message, less the newline. *)

Inductive outcome (T : Type) : Type :=
  | Ok (a : T)
  | Die (msg : string).
Arguments Ok {T} a.
Arguments Die {T} msg.

Definition obind {T U : Type} (o : outcome T) (f : T -> outcome U) : outcome U :=
  match o with
  | Ok a => f a
  | Die m => Die m
  end.

(** ** [for] loops over a [uint8_t] counter

    [for (k = k0; cond; k++) body], the counter wrapping as a [uint8_t].
    Every such loop of the source has a condition that fails after at most
    16 passes; each caller gives its loop one pass more than it can make,
    and [for_u8_fuel_enough] shows that more would change nothing. *)

Fixpoint for_u8 {S : Type} (fuel : nat) (cond : Z -> S -> bool)
    (body : Z -> S -> S) (k : Z) (s : S) : S :=
  match fuel with
  | O => s
  | Datatypes.S fuel' =>
      if cond k s then for_u8 fuel' cond body (u8 (k + 1)) (body k s) else s
  end.

(** ** Screen *)

Definition cls (vm : CHIP8) : CHIP8 :=
  with_dirty true (with_display (replicate 32 (replicate 64 false)) vm).

Definition refreshscreen (vm : CHIP8) : CHIP8 :=
  if dirty vm then with_dirty false vm else vm.

Definition isbitset (n b : Z) : bool :=
  negb (Z.land (Z.shiftl b n) 0x80 =? 0).

Definition setpixel (vm : CHIP8) (row col : Z) : CHIP8 :=
  let vm :=
    if getpx (display vm) row col then
      let vm := setV 0xF 1 vm in
      with_display (putpx row col false (display vm)) vm
    else
      with_display (putpx row col true (display vm)) vm in
  with_dirty true vm.

Definition draw_x (vm : CHIP8) (inst : Z) : Z :=
  u8 (V vm (Z.shiftr (Z.land inst 0x0F00) 8) mod 64).
Definition draw_y (vm : CHIP8) (inst : Z) : Z :=
  u8 (V vm (Z.shiftr (Z.land inst 0x00F0) 4) mod 32).
Definition draw_n (inst : Z) : Z := u8 (Z.land inst 0x000F).

(** The body of the row loop of [draw].  [setpixel] takes [y + row] and
    [x + col] as [uint8_t]; the loop conditions keep them below 32 and 64. *)
Definition draw_row (x y row : Z) (vm : CHIP8) : CHIP8 :=
  let '(b, vm) := mem_load vm (i vm + row) in
  for_u8 9 (fun col _ => (col <? 8) && (x + col <? 64))
         (fun col vm => if isbitset col b then setpixel vm (y + row) (x + col) else vm)
         0 vm.

Definition draw (vm : CHIP8) (inst : Z) : CHIP8 :=
  let x := draw_x vm inst in
  let y := draw_y vm inst in
  let n := draw_n inst in
  let vm := setV 0xF 0 vm in
  for_u8 17 (fun row vm => (row <? n) && (y + row <? 32) && (i vm + row <? MEMORY_SIZE))
         (draw_row x y) 0 vm.

(** ** Subroutines *)

Definition call (vm : CHIP8) (addr : Z) : outcome CHIP8 :=
  if sp vm >=? STACK_SIZE then Die "stack overflow"
  else
    let vm := with_sp (sp vm + 1) (with_stack (aset (stack vm) (sp vm) (pc vm)) vm) in
    Ok (with_pc addr vm).

Definition rts (vm : CHIP8) : outcome CHIP8 :=
  if sp vm =? 0 then Die "stack underflow"
  else
    let vm := with_sp (sp vm - 1) vm in
    Ok (with_pc (aget 0 (stack vm) (sp vm)) vm).

(** ** Instruction fetch *)

Definition fetch (vm : CHIP8) : Z * CHIP8 :=
  let '(i1, vm) := mem_load vm (pc vm mod MEMORY_SIZE) in
  let vm := with_pc (pc vm + 1) vm in
  let '(i2, vm) := mem_load vm (pc vm mod MEMORY_SIZE) in
  let vm := with_pc (pc vm + 1) vm in
  (u16 (Z.shiftl i1 8 + i2), vm).

(** ** Keyboard *)

(** [tolower] in the C locale. *)
Definition tolower (c : Z) : Z :=
  if (65 <=? c) && (c <=? 90) then c + 32 else c.

(** [strchr s c - s]: the offset of the first [char] of [s] equal to
    [(char)c], the terminating NUL included; [None] for a null pointer. *)
Fixpoint strchr (s : string) (c : Z) : option Z :=
  match s with
  | EmptyString => if c mod 256 =? 0 then Some 0 else None
  | String a s' =>
      if Z.of_nat (nat_of_ascii a) =? c mod 256 then Some 0
      else option_map Z.succ (strchr s' c)
  end.

(** [getkeyboard], [c] being what [getch()] returned. *)
Definition getkeyboard (vm : CHIP8) (c : Z) : Z :=
  if c =? 0x1b then QUIT
  else if negb (c =? ERR) then
    match strchr (keymap vm) (tolower c) with
    | Some o => u8 o
    | None => NOKEY
    end
  else NOKEY.

(** ** Memory transfer instructions *)

Definition bcd (vm : CHIP8) (vx : Z) : CHIP8 :=
  let vm := mem_store ((i vm + 0) mod MEMORY_SIZE) (vx / 100) vm in
  let vx := u8 (vx mod 100) in
  let vm := mem_store ((i vm + 1) mod MEMORY_SIZE) (vx / 10) vm in
  let vx := u8 (vx mod 10) in
  mem_store ((i vm + 2) mod MEMORY_SIZE) (vx / 1) vm.

Definition regdmp (vm : CHIP8) (vx : Z) : CHIP8 :=
  for_u8 17 (fun k _ => k <=? vx)
         (fun k vm => mem_store ((i vm + k) mod MEMORY_SIZE) (V vm k) vm)
         0 vm.

Definition regld (vm : CHIP8) (vx : Z) : CHIP8 :=
  for_u8 17 (fun k _ => k <=? vx)
         (fun k vm =>
            let '(b, vm) := mem_load vm ((i vm + k) mod MEMORY_SIZE) in
            setV k b vm)
         0 vm.

(** ** Decoding macros *)

Module Op.
Definition A (inst : Z) : Z := Z.land (Z.shiftr inst 12) 0x0F.
Definition B (inst : Z) : Z := Z.land inst 0x0FF.
Definition D (inst : Z) : Z := Z.land inst 0x0F.
Definition X (inst : Z) : Z := Z.land (Z.shiftr inst 8) 0x0F.
Definition Y (inst : Z) : Z := Z.land (Z.shiftr inst 4) 0x0F.
Definition VAL (inst : Z) : Z := Z.land inst 0x0FFF.
Definition LH (inst : Z) : Z := Z.land inst 0x00FF.
End Op.

(** ** One pass of the instruction loop, after the fetch

    [rnd] is what [rand()] returns if the instruction calls it, [pressed]
    and [keyreg] are the locals of [run]; the result carries the new
    [keyreg].  The tests are in the order of the source. *)

Definition exec (rnd pressed inst keyreg : Z) (vm : CHIP8) : outcome (Z * CHIP8) :=
  let A := Op.A inst in
  let B := Op.B inst in
  let D := Op.D inst in
  let X := Op.X inst in
  let Y := Op.Y inst in
  let VAL := Op.VAL inst in
  let LH := Op.LH inst in
  let ok (vm : CHIP8) : outcome (Z * CHIP8) := Ok (keyreg, vm) in
  if inst =? 0x00E0 then ok (cls vm)
  else if inst =? 0x00EE then obind (rts vm) ok
  else if A =? 0x1 then ok (with_pc VAL vm)
  else if A =? 0x2 then obind (call vm VAL) ok
  else if A =? 0x3 then ok (with_pc (pc vm + bool_to_Z (V vm X =? LH) * 2) vm)
  else if A =? 0x4 then ok (with_pc (pc vm + bool_to_Z (negb (V vm X =? LH)) * 2) vm)
  else if (A =? 0x5) && (D =? 0x00) then
    ok (with_pc (pc vm + bool_to_Z (V vm X =? V vm Y) * 2) vm)
  else if A =? 0x6 then ok (setV X LH vm)
  else if A =? 0x7 then ok (setV X (V vm X + LH) vm)
  else if (A =? 0x8) && (D =? 0x00) then ok (setV X (V vm Y) vm)
  else if (A =? 0x8) && (D =? 0x01) then ok (setV X (Z.lor (V vm X) (V vm Y)) vm)
  else if (A =? 0x8) && (D =? 0x02) then ok (setV X (Z.land (V vm X) (V vm Y)) vm)
  else if (A =? 0x8) && (D =? 0x03) then ok (setV X (Z.lxor (V vm X) (V vm Y)) vm)
  else if (A =? 0x8) && (D =? 0x04) then
    let vm := setV X (V vm X + V vm Y) vm in
    ok (setV 0xF (bool_to_Z (V vm X + V vm Y >? 0xFF)) vm)
  else if (A =? 0x8) && (D =? 0x05) then
    let vm := setV X (V vm X - V vm Y) vm in
    ok (setV 0xF (bool_to_Z (V vm X >? V vm Y)) vm)
  else if (A =? 0x8) && (D =? 0x06) then
    let vm := setV 0xF (Z.land (V vm X) 1) vm in
    ok (setV X (Z.shiftr (V vm X) 1) vm)
  else if (A =? 0x8) && (D =? 0x07) then ok (setV X (V vm Y - V vm X) vm)
  else if (A =? 0x8) && (D =? 0x0E) then
    let vm := setV 0xF (bool_to_Z (isbitset 0 (V vm X))) vm in
    ok (setV X (Z.shiftl (V vm X) 1) vm)
  else if (A =? 0x9) && (D =? 0x00) then
    ok (with_pc (pc vm + bool_to_Z (negb (V vm X =? V vm Y)) * 2) vm)
  else if A =? 0xA then ok (with_i VAL vm)
  else if A =? 0xB then ok (with_pc (VAL + V vm 0) vm)
  else if A =? 0xC then ok (setV X (Z.land (rnd mod 255) LH) vm)
  else if A =? 0xD then ok (draw vm inst)
  else if (A =? 0xE) && (B =? 0x9E) then
    ok (with_pc (pc vm + bool_to_Z (V vm X =? pressed) * 2) vm)
  else if (A =? 0xE) && (B =? 0xA1) then
    ok (with_pc (pc vm + bool_to_Z (negb (V vm X =? pressed)) * 2) vm)
  else if (A =? 0xF) && (B =? 0x07) then ok (setV X (delay vm) vm)
  else if (A =? 0xF) && (B =? 0x0A) then Ok (u8 X, with_pc (pc vm - 2) vm)
  else if (A =? 0xF) && (B =? 0x15) then ok (with_delay (V vm X) vm)
  else if (A =? 0xF) && (B =? 0x18) then ok (with_sound (V vm X) vm)
  else if (A =? 0xF) && (B =? 0x1E) then
    let vm := with_i (i vm + V vm X) vm in
    ok (setV 0xF (bool_to_Z (V vm X + i vm >? 0xFFF)) vm)
  else if (A =? 0xF) && (B =? 0x29) then ok (with_i (V vm X * 5) vm)
  else if (A =? 0xF) && (B =? 0x33) then ok (bcd vm (V vm X))
  else if (A =? 0xF) && (B =? 0x55) then ok (regdmp vm X)
  else if (A =? 0xF) && (B =? 0x65) then ok (regld vm X)
  else Die "invalid instruction".

(** One fetch-execute cycle: the body of the [for] loop of [run]. *)
Definition cycle (rnd pressed keyreg : Z) (vm : CHIP8) : outcome (Z * CHIP8) :=
  let '(inst, vm) := fetch vm in
  exec rnd pressed inst keyreg vm.

(** [for (int i = 0; i < vm->inspertick; i++)]: [n] passes are left, [k]
    have been made, [rnd k] is what [rand()] would return in pass [k]. *)
Fixpoint batch (n : nat) (rnd : nat -> Z) (k : nat) (pressed keyreg : Z)
    (vm : CHIP8) : outcome (Z * CHIP8) :=
  match n with
  | O => Ok (keyreg, vm)
  | S n' =>
      obind (cycle (rnd k) pressed keyreg vm)
            (fun st => batch n' rnd (S k) pressed (fst st) (snd st))
  end.

(** ** The tick loop of [run] *)

(** The locals of [run] that live across ticks, with the machine. *)
Record RUN : Type := mkRUN {
  keyreg : Z;     (* uint8_t *)
  pressed : Z;    (* uint8_t *)
  vm : CHIP8
}.

(** What the outside world supplies to one tick. *)
Record INPUT : Type := mkINPUT {
  getch : Z;
  rand : nat -> Z
}.

(** The head of the loop body: poll, and deliver an awaited key. *)
Definition poll (c : Z) (r : RUN) : RUN :=
  let pressed := getkeyboard (vm r) c in
  if (keyreg r <? 16) && negb (pressed =? NOKEY) then
    let m := setV (keyreg r) pressed (vm r) in
    mkRUN 17 pressed (with_pc (pc m + 2) m)
  else mkRUN (keyreg r) pressed (vm r).

(** The countdown of the two timers. *)
Definition timers (m : CHIP8) : CHIP8 :=
  let m := if negb (delay m =? 0) then with_delay (delay m - 1) m else m in
  if negb (sound m =? 0) then with_sound (sound m - 1) m else m.

(** One pass of the [while] loop. *)
Definition tick (inp : INPUT) (r : RUN) : outcome RUN :=
  let r := poll (getch inp) r in
  obind (batch (Z.to_nat (inspertick (vm r))) (rand inp) 0 (pressed r) (keyreg r) (vm r))
        (fun st => Ok (mkRUN (fst st) (pressed r) (refreshscreen (timers (snd st))))).

(** [run] on the inputs of finitely many ticks: the state in which the
    loop has left, or in which it asks for the next input. *)
Fixpoint run_from (inps : list INPUT) (r : RUN) : outcome RUN :=
  if pressed r =? QUIT then Ok r
  else
    match inps with
    | [] => Ok r
    | inp :: inps' => obind (tick inp r) (run_from inps')
    end.

Definition run (inps : list INPUT) (m : CHIP8) : outcome RUN :=
  run_from inps (mkRUN 17 NOKEY m).

(** ** Start-up, as [main] sets the machine up *)

Definition font : list Z :=
  [ 0xF0; 0x90; 0x90; 0x90; 0xF0;
    0x20; 0x60; 0x20; 0x20; 0x70;
    0xF0; 0x10; 0xF0; 0x80; 0xF0;
    0xF0; 0x10; 0xF0; 0x10; 0xF0;
    0x90; 0x90; 0xF0; 0x10; 0x10;
    0xF0; 0x80; 0xF0; 0x10; 0xF0;
    0xF0; 0x80; 0xF0; 0x90; 0xF0;
    0xF0; 0x10; 0x20; 0x40; 0x40;
    0xF0; 0x90; 0xF0; 0x90; 0xF0;
    0xF0; 0x90; 0xF0; 0x10; 0xF0;
    0xF0; 0x90; 0xF0; 0x90; 0x90;
    0xE0; 0x90; 0xE0; 0x90; 0xE0;
    0xF0; 0x80; 0x80; 0x80; 0xF0;
    0xE0; 0x90; 0x90; 0x90; 0xE0;
    0xF0; 0x80; 0xF0; 0x80; 0xF0;
    0xF0; 0x80; 0xF0; 0x80; 0x80 ].

(** [memcpy(buf + addr, src, length src)] *)
Fixpoint memcpy (buf : list Z) (addr : Z) (src : list Z) : list Z :=
  match src with
  | [] => buf
  | b :: src' => memcpy (aset buf addr b) (addr + 1) src'
  end.

Definition loadfonts (buf : list Z) (addr : Z) : outcome (list Z) :=
  if addr >=? MEMORY_SIZE - Z.of_nat (length font) then Die "could not load fonts"
  else Ok (memcpy buf addr font).

(** [loadrom], [rom] being the bytes of the file: at most
    [MEMORY_SIZE - addr] of them are read. *)
Definition loadrom (rom : list Z) (buf : list Z) (addr : Z) : list Z :=
  memcpy buf addr (take (Z.to_nat (MEMORY_SIZE - addr)) rom).

(** The machine [main] hands to [run]: zero-initialised but for the three
    designated fields, fonts at 0, the ROM at [addr]. *)
Definition boot (addr ipt : Z) (km : string) (rom : list Z) : outcome CHIP8 :=
  obind (loadfonts (replicate (Z.to_nat MEMORY_SIZE) 0) 0)
        (fun m =>
           Ok (mkCHIP8 (loadrom rom m addr) (replicate (Z.to_nat STACK_SIZE) 0)
                       addr 0 0 0 0 (replicate 16 0) false
                       (replicate 32 (replicate 64 false)) ipt km [])).

Definition default_keymap : string := "x123qweasdzc4rfv".

(** ** Well-formed machines

    The shape the C types give the state: array lengths, and every integer
    within the range of its type.  [sp] is further kept within the stack. *)

Definition in_u8 (z : Z) : bool := (0 <=? z) && (z <? 256).
Definition in_u16 (z : Z) : bool := (0 <=? z) && (z <? 65536).

Definition wf_display (d : list (list bool)) : bool :=
  (length d =? 32)%nat && forallb (fun r => (length r =? 64)%nat) d.

Definition wfb (m : CHIP8) : bool :=
  (Z.of_nat (length (mem m)) =? MEMORY_SIZE) && forallb in_u8 (mem m) &&
  (Z.of_nat (length (stack m)) =? STACK_SIZE) && forallb in_u16 (stack m) &&
  in_u16 (pc m) && (0 <=? sp m) && (sp m <=? STACK_SIZE) && in_u16 (i m) &&
  in_u8 (delay m) && in_u8 (sound m) &&
  (length (v m) =? 16)%nat && forallb in_u8 (v m) &&
  wf_display (display m).

Definition wf (m : CHIP8) : Prop := wfb m = true.

(** The facts [wf] packs. *)
Record wf_facts (m : CHIP8) : Prop := {
  wf_mem_len : length (mem m) = 4096%nat;
  wf_mem : Forall (fun b => 0 <= b < 256) (mem m);
  wf_stack_len : length (stack m) = 5%nat;
  wf_stack : Forall (fun a => 0 <= a < 65536) (stack m);
  wf_pc : 0 <= pc m < 65536;
  wf_sp : 0 <= sp m <= 5;
  wf_i : 0 <= i m < 65536;
  wf_delay : 0 <= delay m < 256;
  wf_sound : 0 <= sound m < 256;
  wf_v_len : length (v m) = 16%nat;
  wf_v : Forall (fun b => 0 <= b < 256) (v m);
  wf_disp_len : length (display m) = 32%nat;
  wf_disp : Forall (fun r => length r = 64%nat) (display m)
}.

(** The return addresses the stack holds, oldest first. *)
Definition frames (m : CHIP8) : list Z := take (Z.to_nat (sp m)) (stack m).

(** ** The six conditional skips and the condition each one tests *)


(** ** Programs of the scenarios *)

(** [ld V0,0xFF; ld V1,0x01; add V0,V1] *)
Definition rom_add : list Z := [0x60; 0xFF; 0x61; 0x01; 0x80; 0x14].

(** [ld V0,0x00; ld V1,0x01; sub V0,V1] *)
Definition rom_sub : list Z := [0x60; 0x00; 0x61; 0x01; 0x80; 0x15].

(** [ld I,0xFF0; ld V0,0x08; add I,V0] *)
Definition rom_addi : list Z := [0xAF; 0xF0; 0x60; 0x08; 0xF0; 0x1E].

(** [ld V0,K; jp 0x202] *)
Definition rom_wait : list Z := [0xF0; 0x0A; 0x12; 0x02].

(** ** What [draw] does to the screen, cell by cell *)

(** Bit [c], counted from the most significant, of the sprite byte of
    row [r] as [draw] reads it. *)
Definition sprite_bit (m : CHIP8) (r c : Z) : bool :=
  isbitset c (aget 0 (mem m) (i m + r)).

(** Cell ([R], [C]) of the screen is under a set bit of a sprite row that
    [draw] gets to: the row is one of the [n], lies on the screen and its
    byte lies in memory; the column is one of the 8 and lies on the
    screen. *)
Definition covers (m : CHIP8) (inst R C : Z) : bool :=
  let r := R - draw_y m inst in
  let c := C - draw_x m inst in
  bool_decide (0 <= r < draw_n inst /\ R < 32 /\ i m + r < MEMORY_SIZE /\
               0 <= c < 8 /\ C < 64)
  && sprite_bit m r c.

(** Some cell that [draw] toggles is lit. *)
Definition collides (m : CHIP8) (inst : Z) : bool :=
  existsb (fun R =>
             existsb (fun C => covers m inst R C && getpx (display m) R C) (seqZ 0 64))
          (seqZ 0 32).

(** The number of sprite rows [draw] gets to. *)
Definition draw_rows (m : CHIP8) (inst : Z) : Z :=
  Z.min (draw_n inst) (Z.min (32 - draw_y m inst) (MEMORY_SIZE - i m)).

(** *** The sprite as the specification words it

    All [height] bytes are read, each address taken modulo the memory
    size as the specification has it for every address; only the screen
    clips. *)
Definition sprite_bit_spec (m : CHIP8) (r c : Z) : bool :=
  isbitset c (aget 0 (mem m) ((i m + r) mod MEMORY_SIZE)).

Definition covers_spec (m : CHIP8) (inst R C : Z) : bool :=
  let r := R - draw_y m inst in
  let c := C - draw_x m inst in
  bool_decide (0 <= r < draw_n inst /\ R < 32 /\ 0 <= c < 8 /\ C < 64)
  && sprite_bit_spec m r c.

(** ** Waiting for a key *)

(** The instruction at [pc] is [Fx0A]; [wait_reg] is its x. *)
Definition at_wait (m : CHIP8) : Prop :=
  Op.A (fst (fetch m)) = 0xF /\ Op.B (fst (fetch m)) = 0x0A.

Definition wait_reg (m : CHIP8) : Z := Op.X (fst (fetch m)).

(** [m'] is [m] but for the timers, the dirty flag and the access log. *)
Definition same_program (m m' : CHIP8) : Prop :=
  mem m' = mem m /\ stack m' = stack m /\ pc m' = pc m /\ sp m' = sp m /\
  i m' = i m /\ v m' = v m /\ display m' = display m /\
  inspertick m' = inspertick m /\ keymap m' = keymap m.

(** The loop is parked on an [Fx0A] it has executed: [pc] is back on the
    instruction and [keyreg] names its register. *)
Definition pending (r : RUN) : Prop :=
  0 <= pc (vm r) < 65536 /\ length (v (vm r)) = 16%nat /\
  at_wait (vm r) /\ keyreg r = wait_reg (vm r).

(** ** Machines of the examples *)

(** Zeroed registers, empty stack, blank screen, the default settings of
    [main], over a given memory. *)
Definition blank (memory : list Z) (start : Z) : CHIP8 :=
  mkCHIP8 memory (replicate 5 0) start 0 0 0 0 (replicate 16 0)
          false (replicate 32 (replicate 64 false)) 11 default_keymap [].

(** Memory 0xFF throughout and [I] on its last byte; [drw V0,V1,2] on
    it. *)
Definition vm_edge : CHIP8 := with_i 4095 (blank (replicate 4096 0xFF) 0x200).
Definition inst_edge : Z := 0xD012.

(** About to fetch from the last two bytes of memory. *)
Definition vm_top : CHIP8 := blank (replicate 4096 0x60) 4094.

(** [se V0,0x00] at 0x200, V0 being 0. *)
Definition vm_skip : CHIP8 :=
  blank (replicate 512 0 ++ [0x30; 0x00] ++ replicate 3582 0) 0x200.

(** [sknp V0] at 0x200, V0 being 255. *)
Definition vm_sknp : CHIP8 :=
  setV 0 255 (blank (replicate 512 0 ++ [0xE0; 0xA1] ++ replicate 3582 0) 0x200).

(** [ld V0,K] at 0x200 followed by [jp 0x202], parked on the former. *)
Definition run_wait : RUN :=
  mkRUN 0 NOKEY (blank (replicate 512 0 ++ rom_wait ++ replicate 3580 0) 0x200).

(** A tick in which [getch] has nothing, and one in which it has the
    character [1], key 1 of the default keymap; [rand] is not called. *)
Definition no_key : INPUT := mkINPUT ERR (fun _ => 0).
Definition key_1 : INPUT := mkINPUT 49 (fun _ => 0).

(** ** Relations used to state what [draw] leaves alone *)

(** The screen has its 32 rows of 64 cells. *)
Definition disp_ok (d : list (list bool)) : Prop :=
  length d = 32%nat /\ Forall (fun r => length r = 64%nat) d.

(** [m'] is [m] but for the screen, the dirty flag, VF and the access
    log. *)
Definition screen_only (m m' : CHIP8) : Prop :=
  mem m' = mem m /\ stack m' = stack m /\ pc m' = pc m /\ sp m' = sp m /\
  i m' = i m /\ delay m' = delay m /\ sound m' = sound m /\
  inspertick m' = inspertick m /\ keymap m' = keymap m /\
  length (v m') = length (v m) /\ forall k, k <> 0xF -> V m' k = V m k.

(** A flag that goes from [f] to [f']: raised to 1 if [P], left alone if
    not. *)
Definition flag_rel (P : Prop) (f f' : Z) : Prop :=
  (P /\ f' = 1) \/ (~ P /\ f' = f).

(** ** Memory safety *)

(** An index that lies within [mem]. *)
Definition in_bounds (a : Z) : Prop := 0 <= a < MEMORY_SIZE.

(** From [m] to [m'] the access log has only grown, by indices within
    [mem]. *)
Definition appends_in_bounds (m m' : CHIP8) : Prop :=
  exists new, accessed m' = accessed m ++ new /\ Forall in_bounds new.

(** ** Pacing: [tsdiff] and [sleeptonexttick]

    A [struct timespec] is a pair of [long]s; the arithmetic on them is
    modelled on [Z], division truncating as in C. *)

Definition TICKS_PER_SECOND : Z := 60.
Definition NANOS_PER_SECOND : Z := 1000000000.
Definition NANOS_PER_TICK : Z := Z.quot NANOS_PER_SECOND 60.

Record timespec : Type := mktimespec {
  tv_sec : Z;
  tv_nsec : Z
}.

Definition tsdiff (end_ start : timespec) : Z :=
  (tv_sec end_ - tv_sec start) +
  Z.quot (tv_nsec end_ - tv_nsec start) NANOS_PER_SECOND.

(** The [while (nanosleep(&rqtp, &rmtp) != 0)] loop: the requests it makes.
    [answers] are the outcomes of the successive calls, [None] for a call
    that returns 0 and [Some rmtp] for one that does not and leaves [rmtp]
    behind. *)
Fixpoint nanosleep_loop (answers : list (option timespec)) (rqtp : timespec) :
    list timespec :=
  rqtp ::
  match answers with
  | Some rmtp :: answers' => nanosleep_loop answers' rmtp
  | _ => []
  end.

(** [sleeptonexttick]: the requests made to [nanosleep]. *)
Definition sleeptonexttick (start end_ : timespec)
    (answers : list (option timespec)) : list timespec :=
  let nanos := NANOS_PER_TICK - tsdiff end_ start in
  if nanos >? 0 then
    nanosleep_loop answers
      (mktimespec (Z.quot nanos NANOS_PER_SECOND) (Z.rem nanos NANOS_PER_SECOND))
  else [].

(** A time as [clock_gettime] gives it. *)
Definition normalized (t : timespec) : Prop :=
  0 <= tv_sec t /\ 0 <= tv_nsec t < NANOS_PER_SECOND.

(** ** [main]: options, start-up, run

    [getopt] and [atoi] are library calls; what they return is the input
    here. *)

Definition with_inspertick (x : Z) (vm : CHIP8) : CHIP8 :=
  mkCHIP8 (mem vm) (stack vm) (pc vm) (sp vm) (i vm) (delay vm) (sound vm) (v vm)
          (dirty vm) (display vm) x (keymap vm) (accessed vm).
Definition with_keymap (x : string) (vm : CHIP8) : CHIP8 :=
  mkCHIP8 (mem vm) (stack vm) (pc vm) (sp vm) (i vm) (delay vm) (sound vm) (v vm)
          (dirty vm) (display vm) (inspertick vm) x (accessed vm).

(** One option as [getopt] reports it: [-a], [-r] and [-s] with the [int]
    that [atoi] makes of the argument, [-k] with the argument itself, and
    anything else, [-h] included. *)
Inductive OPT : Type :=
  | OptA (n : Z)
  | OptK (optarg : string)
  | OptR (n : Z)
  | OptS (n : Z)
  | OptOther.

(** What [fopen] and [fread] make of the ROM file. *)
Inductive ROMFILE : Type :=
  | CannotOpen
  | ReadError
  | Bytes (rom : list Z).

Definition USAGE : string := "usage: chip8 [-a ADDR] [-k KEYMAP] [-r SEED] [-s SPEED] ROM".

(** [CHIP8 vm = {.pc = 512, .inspertick = 11, .keymap = ...}], the rest
    zero. *)
Definition vm_init : CHIP8 :=
  mkCHIP8 (replicate (Z.to_nat MEMORY_SIZE) 0) (replicate (Z.to_nat STACK_SIZE) 0)
          512 0 0 0 0 (replicate 16 0) false (replicate 32 (replicate 64 false))
          11 "x123qweasdzc4rfv" [].

(** One pass of the [switch] in the option loop, on [addr] and [vm]. *)
Definition option_case (o : OPT) (st : Z * CHIP8) : outcome (Z * CHIP8) :=
  let '(addr, vm) := st in
  match o with
  | OptA n =>
      let vm := with_pc n vm in
      let addr := pc vm in
      if (addr <? 0) || (addr >=? MEMORY_SIZE) then Die "invalid load address"
      else Ok (addr, vm)
  | OptK optarg =>
      if negb (Z.of_nat (String.length optarg) =? 16) then Die "invalid keymap"
      else Ok (addr, with_keymap optarg vm)
  | OptR _ => Ok (addr, vm)
  | OptS n =>
      let vm := with_inspertick n vm in
      if inspertick vm <=? 0 then Die "invalid instructions per tick"
      else Ok (addr, vm)
  | OptOther => Die USAGE
  end.

Fixpoint option_loop (opts : list OPT) (st : Z * CHIP8) : outcome (Z * CHIP8) :=
  match opts with
  | [] => Ok st
  | o :: opts' => obind (option_case o st) (option_loop opts')
  end.

(** [loadrom] with the file: the buffer after the read. *)
Definition loadrom_file (f : ROMFILE) (buf : list Z) (addr : Z) : outcome (list Z) :=
  match f with
  | CannotOpen => Die "could not open rom"
  | ReadError => Die "could not read rom"
  | Bytes rom => Ok (loadrom rom buf addr)
  end.

(** [main] up to the call of [run]: [nargs] is what is left of [argc]
    after the options, [screen] whether [initscr] succeeds. *)
Definition setup (opts : list OPT) (nargs : Z) (screen : bool) (f : ROMFILE) :
    outcome CHIP8 :=
  obind (option_loop opts (pc vm_init, vm_init)) (fun st =>
  let '(addr, vm) := st in
  if negb (nargs =? 1) then Die USAGE
  else if negb screen then Die "could not open screen"
  else
    obind (loadfonts (mem vm) 0) (fun buf =>
    obind (loadrom_file f buf addr) (fun buf =>
    Ok (with_mem buf vm)))).

Definition main (opts : list OPT) (nargs : Z) (screen : bool) (f : ROMFILE)
    (inps : list INPUT) : outcome RUN :=
  obind (setup opts nargs screen f) (run inps).

(** ** Ticks without the test for [QUIT] *)

Fixpoint ticks (inps : list INPUT) (r : RUN) : outcome RUN :=
  match inps with
  | [] => Ok r
  | inp :: inps' => obind (tick inp r) (ticks inps')
  end.

(** ** Which instructions write what *)

Definition writes_mem (inst : Z) : bool :=
  (Op.A inst =? 0xF) && ((Op.B inst =? 0x33) || (Op.B inst =? 0x55)).
Definition writes_i (inst : Z) : bool :=
  (Op.A inst =? 0xA) || ((Op.A inst =? 0xF) && ((Op.B inst =? 0x1E) || (Op.B inst =? 0x29))).
Definition writes_screen (inst : Z) : bool :=
  (inst =? 0x00E0) || (Op.A inst =? 0xD).
Definition writes_stack (inst : Z) : bool :=
  (inst =? 0x00EE) || (Op.A inst =? 0x2).
Definition writes_timers (inst : Z) : bool :=
  (Op.A inst =? 0xF) && ((Op.B inst =? 0x15) || (Op.B inst =? 0x18)).

(** Registers an instruction may write: Vx, VF, and V0..Vx for [Fx65]. *)
Definition writes_vx (inst : Z) : bool :=
  (Op.A inst =? 0x6) || (Op.A inst =? 0x7) || (Op.A inst =? 0x8) || (Op.A inst =? 0xC) ||
  ((Op.A inst =? 0xF) && (Op.B inst =? 0x07)).
Definition writes_vf (inst : Z) : bool :=
  (Op.A inst =? 0xD) ||
  ((Op.A inst =? 0x8) &&
   ((Op.D inst =? 0x4) || (Op.D inst =? 0x5) || (Op.D inst =? 0x6) || (Op.D inst =? 0xE))) ||
  ((Op.A inst =? 0xF) && (Op.B inst =? 0x1E)).
Definition loads_v (inst : Z) : bool :=
  (Op.A inst =? 0xF) && (Op.B inst =? 0x65).
Definition writes_v (inst r : Z) : bool :=
  ((r =? Op.X inst) && writes_vx inst) || ((r =? 0xF) && writes_vf inst) ||
  (loads_v inst && (r <=? Op.X inst)).

(** ** The instruction set

    The bit patterns the chain of tests in [run] has a branch for. *)
Definition implemented (inst : Z) : bool :=
  match Op.A inst with
  | 0x0 => (inst =? 0x00E0) || (inst =? 0x00EE)
  | 0x5 | 0x9 => Op.D inst =? 0
  | 0x8 => (Op.D inst <=? 7) || (Op.D inst =? 0xE)
  | 0xE => (Op.B inst =? 0x9E) || (Op.B inst =? 0xA1)
  | 0xF => existsb (Z.eqb (Op.B inst)) [0x07; 0x0A; 0x15; 0x18; 0x1E; 0x29; 0x33; 0x55; 0x65]
  | _ => true
  end.

(** ** Positions in the keymap *)

(** [j] is the first position of [s] that holds the character [b]. *)
Definition first_at (s : string) (b : Z) (j : nat) : Prop :=
  (exists a, String.get j s = Some a /\ Z.of_nat (nat_of_ascii a) = b) /\
  forall j' a, (j' < j)%nat -> String.get j' s = Some a ->
               Z.of_nat (nat_of_ascii a) <> b.

(** No position of [s] holds [b]. *)
Definition absent (s : string) (b : Z) : Prop :=
  forall j a, String.get j s = Some a -> Z.of_nat (nat_of_ascii a) <> b.

(** ** The dirty flag *)

(** From [m] to [m'] either the screen and the flag are as they were, or
    the flag is up. *)
Definition repaint_due (m m' : CHIP8) : Prop :=
  (display m' = display m /\ dirty m' = dirty m) \/ dirty m' = true.

(** ** What the option loop maintains *)

(** [m] is [m0] but for [pc], [inspertick] and [keymap]. *)
Definition untouched (m0 m : CHIP8) : Prop :=
  mem m = mem m0 /\ stack m = stack m0 /\ sp m = sp m0 /\ i m = i m0 /\
  delay m = delay m0 /\ sound m = sound m0 /\ v m = v m0 /\ dirty m = dirty m0 /\
  display m = display m0 /\ accessed m = accessed m0.

(** [addr] is [pc], within memory; the settings are valid. *)
Definition configured (st : Z * CHIP8) : Prop :=
  fst st = pc (snd st) /\ 0 <= pc (snd st) < MEMORY_SIZE /\
  0 < inspertick (snd st) /\ String.length (keymap (snd st)) = 16%nat /\
  untouched vm_init (snd st).

(** ** Further machines and inputs of the examples *)

(** [call 0x204] at 0x200 and [ret] at 0x204. *)
Definition vm_call : CHIP8 :=
  blank (replicate 512 0 ++ [0x22; 0x04; 0x00; 0x00; 0x00; 0xEE] ++ replicate 3578 0) 0x200.

(** [cls] at 0x200 followed by [jp 0x202]. *)
Definition vm_cls : CHIP8 :=
  blank (replicate 512 0 ++ [0x00; 0xE0; 0x12; 0x02] ++ replicate 3580 0) 0x200.

(** [run_wait] with the delay timer at 3. *)
Definition run_wait_timed : RUN := mkRUN 0 NOKEY (with_delay 3 (vm run_wait)).

(** A tick in which [getch] has the escape character. *)
Definition esc_key : INPUT := mkINPUT 0x1b (fun _ => 0).

(** A tick that begins at 5.999 s and whose work ends at 6.001 s. *)
Definition ts_start : timespec := mktimespec 5 999000000.
Definition ts_end : timespec := mktimespec 6 1000000.

(** * Properties *)

(** ** Arrays *)

Lemma aget_aset_eq {T : Type} (d : T) (l : list T) (k : Z) (x : T) :
  0 <= k < Z.of_nat (length l) -> aget d (aset l k x) k = x.
Proof.
  intros Hk. unfold aget, aset.
  destruct (Z.leb_spec 0 k); [|lia].
  rewrite list_lookup_insert_eq by lia. done.
Qed.

Lemma aget_aset_ne {T : Type} (d : T) (l : list T) (k k' : Z) (x : T) :
  k <> k' -> aget d (aset l k x) k' = aget d l k'.
Proof.
  intros Hne. unfold aget, aset.
  destruct (Z.leb_spec 0 k'); [|done].
  destruct (Z.leb_spec 0 k); [|done].
  rewrite list_lookup_insert_ne by lia. done.
Qed.

Lemma length_aset {T : Type} (l : list T) (k : Z) (x : T) :
  length (aset l k x) = length l.
Proof. unfold aset. destruct (0 <=? k); [apply length_insert|done]. Qed.

Lemma u8_range (z : Z) : 0 <= u8 z < 256.
Proof. unfold u8. apply Z.mod_pos_bound. lia. Qed.

Lemma u16_range (z : Z) : 0 <= u16 z < 65536.
Proof. unfold u16. apply Z.mod_pos_bound. lia. Qed.

Lemma u8_small (z : Z) : 0 <= z < 256 -> u8 z = z.
Proof. apply Z.mod_small. Qed.

Lemma u16_small (z : Z) : 0 <= z < 65536 -> u16 z = z.
Proof. apply Z.mod_small. Qed.

(** ** Registers *)

Lemma V_setV_eq (m : CHIP8) (x val : Z) :
  0 <= x < Z.of_nat (length (v m)) -> V (setV x val m) x = u8 val.
Proof. intros Hx. unfold V, setV. simpl. by apply aget_aset_eq. Qed.

Lemma V_setV_ne (m : CHIP8) (x x' val : Z) :
  x <> x' -> V (setV x val m) x' = V m x'.
Proof. intros Hx. unfold V, setV. simpl. by apply aget_aset_ne. Qed.

Lemma length_v_setV (m : CHIP8) (x val : Z) :
  length (v (setV x val m)) = length (v m).
Proof. unfold setV. simpl. apply length_aset. Qed.

(** ** Decoding *)

Lemma op_A_nonzero (inst : Z) :
  Op.A inst <> 0 -> (inst =? 0x00E0) = false /\ (inst =? 0x00EE) = false.
Proof.
  intros HA. split; apply Z.eqb_neq; intros ->; apply HA; reflexivity.
Qed.

Ltac not_cls_rts inst HA :=
  let E1 := fresh "E" in
  let E2 := fresh "E" in
  destruct (op_A_nonzero inst) as [E1 E2];
  [rewrite HA; discriminate|]; rewrite E1, E2; clear E1 E2.

(** ** Arithmetic with a flag: what the code computes *)

Section Flags.
Variables (rnd pressed inst keyreg : Z) (m : CHIP8).

Lemma exec_add :
  Op.A inst = 8 -> Op.D inst = 4 ->
  exec rnd pressed inst keyreg m =
    Ok (keyreg,
        let m1 := setV (Op.X inst) (V m (Op.X inst) + V m (Op.Y inst)) m in
        setV 0xF (bool_to_Z (V m1 (Op.X inst) + V m1 (Op.Y inst) >? 0xFF)) m1).
Proof.
  intros HA HD. unfold exec.
  not_cls_rts inst HA.
  rewrite HA, HD. reflexivity.
Qed.

Lemma exec_sub :
  Op.A inst = 8 -> Op.D inst = 5 ->
  exec rnd pressed inst keyreg m =
    Ok (keyreg,
        let m1 := setV (Op.X inst) (V m (Op.X inst) - V m (Op.Y inst)) m in
        setV 0xF (bool_to_Z (V m1 (Op.X inst) >? V m1 (Op.Y inst))) m1).
Proof.
  intros HA HD. unfold exec.
  not_cls_rts inst HA.
  rewrite HA, HD. reflexivity.
Qed.

Lemma exec_addi :
  Op.A inst = 0xF -> Op.B inst = 0x1E ->
  exec rnd pressed inst keyreg m =
    Ok (keyreg,
        let m1 := with_i (i m + V m (Op.X inst)) m in
        setV 0xF (bool_to_Z (V m1 (Op.X inst) + i m1 >? 0xFFF)) m1).
Proof.
  intros HA HB. unfold exec.
  not_cls_rts inst HA.
  rewrite HA, HB. reflexivity.
Qed.

(** With three distinct registers in play the flag of [add Vx,Vy] is
    taken from the sum already reduced modulo 256, added to Vy once
    more. *)
Lemma add_flag_computed (m' : CHIP8) :
  Op.A inst = 8 -> Op.D inst = 4 ->
  length (v m) = 16%nat -> (Op.X inst) <> (Op.Y inst) -> (Op.X inst) <> 0xF ->
  exec rnd pressed inst keyreg m = Ok (keyreg, m') ->
  V m' (Op.X inst) = (V m (Op.X inst) + V m (Op.Y inst)) mod 256 /\
  V m' 0xF = bool_to_Z ((V m (Op.X inst) + V m (Op.Y inst)) mod 256 + V m (Op.Y inst) >? 0xFF).
Proof.
  intros HA HD Hlen Hxy Hxf. rewrite exec_add by done.
  intros [= <-]. cbv zeta.
  assert (0 <= (Op.X inst) < 16) as HX.
  { unfold Op.X. change 0x0F with (Z.ones 4).
    rewrite Z.land_ones by lia. pose proof (Z.mod_pos_bound (inst ≫ 8) (2 ^ 4)). lia. }
  rewrite (V_setV_ne _ 0xF (Op.X inst)) by done.
  rewrite V_setV_eq by (rewrite Hlen; lia).
  rewrite V_setV_eq by (rewrite length_v_setV, Hlen; lia).
  rewrite V_setV_ne by done.
  split; [done|]. unfold u8 at 1. apply Z.mod_small.
  destruct (_ >? _); simpl; lia.
Qed.

(** Likewise the flag of [sub Vx,Vy] compares the difference, not the
    minuend, with Vy. *)
Lemma sub_flag_computed (m' : CHIP8) :
  Op.A inst = 8 -> Op.D inst = 5 ->
  length (v m) = 16%nat -> (Op.X inst) <> (Op.Y inst) -> (Op.X inst) <> 0xF ->
  exec rnd pressed inst keyreg m = Ok (keyreg, m') ->
  V m' (Op.X inst) = (V m (Op.X inst) - V m (Op.Y inst)) mod 256 /\
  V m' 0xF = bool_to_Z ((V m (Op.X inst) - V m (Op.Y inst)) mod 256 >? V m (Op.Y inst)).
Proof.
  intros HA HD Hlen Hxy Hxf. rewrite exec_sub by done.
  intros [= <-]. cbv zeta.
  assert (0 <= (Op.X inst) < 16) as HX.
  { unfold Op.X. change 0x0F with (Z.ones 4).
    rewrite Z.land_ones by lia. pose proof (Z.mod_pos_bound (inst ≫ 8) (2 ^ 4)). lia. }
  rewrite (V_setV_ne _ 0xF (Op.X inst)) by done.
  rewrite V_setV_eq by (rewrite Hlen; lia).
  rewrite V_setV_eq by (rewrite length_v_setV, Hlen; lia).
  rewrite V_setV_ne by done.
  split; [done|]. unfold u8 at 1. apply Z.mod_small.
  destruct (_ >? _); simpl; lia.
Qed.

(** [add I,Vx] does leave [I + Vx] modulo 2^16 in [I]; its flag is taken
    from Vx added to the new [I]. *)
Lemma addi_computed (m' : CHIP8) :
  Op.A inst = 0xF -> Op.B inst = 0x1E ->
  length (v m) = 16%nat -> (Op.X inst) <> 0xF ->
  exec rnd pressed inst keyreg m = Ok (keyreg, m') ->
  i m' = (i m + V m (Op.X inst)) mod 65536 /\
  V m' 0xF = bool_to_Z (V m (Op.X inst) + (i m + V m (Op.X inst)) mod 65536 >? 0xFFF).
Proof.
  intros HA HB Hlen Hxf. rewrite exec_addi by done.
  intros [= <-]. cbv zeta. split; [done|].
  rewrite V_setV_eq by (simpl; rewrite Hlen; lia).
  unfold u8. apply Z.mod_small.
  destruct (_ >? _); simpl; lia.
Qed.
End Flags.

(** C1.  The scenario of the claim, run on the code: after [ld V0,0xFF],
    [ld V1,0x01], [add V0,V1] the sum 0x00 is in V0 as claimed, but VF is 0
    where the claim has 1: the flag is computed after V0 was overwritten. *)
Theorem add_scenario_carry_lost :
  exists m0 m,
    boot 0x200 11 default_keymap rom_add = Ok m0 /\
    batch 3 (fun _ => 0) 0 NOKEY 17 m0 = Ok (17, m) /\
    V m 0 = 0x00 /\ V m 0xF = 0.
Proof.
  eexists _, _. split; [vm_compute; reflexivity|].
  split; [vm_compute; reflexivity|]. split; reflexivity.
Qed.

(** C2.  After [ld V0,0], [ld V1,1], [sub V0,V1] the difference 255 is in
    V0 as claimed, but VF is 1 where the claim has 0: the comparison is made
    after V0 was overwritten, 255 against 1. *)
Theorem sub_scenario_flag_set :
  exists m0 m,
    boot 0x200 11 default_keymap rom_sub = Ok m0 /\
    batch 3 (fun _ => 0) 0 NOKEY 17 m0 = Ok (17, m) /\
    V m 0 = 255 /\ V m 0xF = 1.
Proof.
  eexists _, _. split; [vm_compute; reflexivity|].
  split; [vm_compute; reflexivity|]. split; reflexivity.
Qed.

(** C3.  After [ld I,0xFF0], [ld V0,8], [add I,V0] the index register is
    0xFF8, which does not exceed 0xFFF, and yet VF is 1: the flag is taken
    from V0 added to the new [I]. *)
Theorem addi_scenario_flag_set :
  exists m0 m,
    boot 0x200 11 default_keymap rom_addi = Ok m0 /\
    batch 3 (fun _ => 0) 0 NOKEY 17 m0 = Ok (17, m) /\
    i m = 0xFF8 /\ V m 0xF = 1.
Proof.
  eexists _, _. split; [vm_compute; reflexivity|].
  split; [vm_compute; reflexivity|]. split; reflexivity.
Qed.

(** ** Well-formedness unpacked *)

Lemma in_u8_spec (z : Z) : in_u8 z = true <-> 0 <= z < 256.
Proof. unfold in_u8. rewrite andb_true_iff, Z.leb_le, Z.ltb_lt. done. Qed.

Lemma in_u16_spec (z : Z) : in_u16 z = true <-> 0 <= z < 65536.
Proof. unfold in_u16. rewrite andb_true_iff, Z.leb_le, Z.ltb_lt. done. Qed.

Lemma forallb_Forall {T : Type} (f : T -> bool) (P : T -> Prop) (l : list T) :
  (forall x, f x = true <-> P x) -> forallb f l = true <-> Forall P l.
Proof.
  intros Hf. induction l as [|x l IH]; simpl.
  - split; [constructor|done].
  - rewrite andb_true_iff, Forall_cons_iff, IH, Hf. done.
Qed.

Lemma wf_iff (m : CHIP8) : wf m <-> wf_facts m.
Proof.
  unfold wf, wfb, wf_display, MEMORY_SIZE, STACK_SIZE.
  rewrite !andb_true_iff, !in_u8_spec, !in_u16_spec, !Z.leb_le, !Z.eqb_eq, !Nat.eqb_eq.
  rewrite !(forallb_Forall _ _ _ in_u8_spec), (forallb_Forall _ _ _ in_u16_spec).
  rewrite (forallb_Forall _ (fun r => length r = 64%nat)) by (intros; apply Nat.eqb_eq).
  split.
  - intros H. decompose [and] H. constructor; (done || lia).
  - intros []. repeat split; (done || lia).
Qed.

Lemma op_X_range (inst : Z) : 0 <= Op.X inst < 16.
Proof.
  unfold Op.X. change 0x0F with (Z.ones 4). rewrite Z.land_ones by lia.
  apply Z.mod_pos_bound. lia.
Qed.

Lemma op_VAL_range (inst : Z) : 0 <= Op.VAL inst < 4096.
Proof.
  unfold Op.VAL. change 0x0FFF with (Z.ones 12). rewrite Z.land_ones by lia.
  apply Z.mod_pos_bound. lia.
Qed.

(** ** The call stack *)

Lemma length_frames (m : CHIP8) : wf m -> Z.of_nat (length (frames m)) = sp m.
Proof.
  intros [] %wf_iff. unfold frames. rewrite length_take. lia.
Qed.

Lemma exec_rts (rnd pressed keyreg : Z) (m : CHIP8) :
  exec rnd pressed 0x00EE keyreg m = obind (rts m) (fun m' => Ok (keyreg, m')).
Proof. reflexivity. Qed.

Lemma exec_call (rnd pressed inst keyreg : Z) (m : CHIP8) :
  Op.A inst = 2 ->
  exec rnd pressed inst keyreg m =
    obind (call m (Op.VAL inst)) (fun m' => Ok (keyreg, m')).
Proof.
  intros HA. unfold exec. not_cls_rts inst HA. rewrite HA. reflexivity.
Qed.

(** C6.  The stack holds at most [STACK_SIZE] = 5 return addresses.  On a
    well-formed machine [00EE] with no address on the stack dies with
    "stack underflow" and [2nnn] with five dies with "stack overflow";
    otherwise [00EE] takes the youngest address off the stack into [pc],
    and [2nnn] puts [pc] on the stack and continues at nnn, leaving
    registers, index, memory and screen alone. *)
Theorem stack_discipline (rnd pressed keyreg : Z) (m : CHIP8) :
  wf m ->
  STACK_SIZE = 5 /\
  (length (frames m) <= 5)%nat /\
  (frames m = [] -> exec rnd pressed 0x00EE keyreg m = Die "stack underflow") /\
  (forall fs a, frames m = fs ++ [a] ->
     exists m', exec rnd pressed 0x00EE keyreg m = Ok (keyreg, m') /\
                frames m' = fs /\ pc m' = a /\
                v m' = v m /\ i m' = i m /\ mem m' = mem m /\ display m' = display m) /\
  (forall inst, Op.A inst = 2 ->
     (length (frames m) = 5%nat ->
        exec rnd pressed inst keyreg m = Die "stack overflow") /\
     ((length (frames m) < 5)%nat ->
        exists m', exec rnd pressed inst keyreg m = Ok (keyreg, m') /\
                   frames m' = frames m ++ [pc m] /\ pc m' = Op.VAL inst /\
                   v m' = v m /\ i m' = i m /\ mem m' = mem m /\ display m' = display m)).
Proof.
  intros Hwf. pose proof (length_frames m Hwf) as Hlen.
  apply wf_iff in Hwf as [].
  split; [done|]. split; [lia|]. split; [|split].
  - intros Hnil. rewrite Hnil in Hlen. rewrite exec_rts. unfold rts.
    simpl in Hlen. rewrite <- Hlen. reflexivity.
  - intros fs a Hfs. rewrite Hfs, length_app in Hlen. simpl in Hlen.
    rewrite exec_rts. unfold rts.
    destruct (Z.eqb_spec (sp m) 0) as [E|_]; [lia|]. simpl.
    eexists. split; [reflexivity|].
    assert (u16 (sp m - 1) = Z.of_nat (length fs)) as Hsp by (rewrite u16_small; lia).
    unfold frames in *. simpl. rewrite Hsp, Nat2Z.id.
    assert (stack m !! length fs = Some a) as Hlook.
    { assert (take (Z.to_nat (sp m)) (stack m) !! length fs = Some a) as H
        by (rewrite Hfs; apply list_lookup_middle; done).
      apply lookup_take_Some in H. tauto. }
    split; [|split; [|done]].
    + replace (length fs) with (length fs `min` Z.to_nat (sp m))%nat by lia.
      rewrite <- take_take, Hfs. by rewrite take_app_length.
    + unfold aget. destruct (Z.leb_spec 0 (Z.of_nat (length fs))); [|lia].
      rewrite Nat2Z.id, Hlook. simpl. apply u16_small.
      eapply (Forall_lookup_1 _ _ _ _ wf_stack0 Hlook).
  - intros inst HA. rewrite exec_call by done. unfold call, STACK_SIZE. split.
    + intros H5. destruct (Z.geb_spec (sp m) 5); [reflexivity|lia].
    + intros H5. destruct (Z.geb_spec (sp m) 5); [lia|]. simpl.
      eexists. split; [reflexivity|]. simpl. split; [|split; [|done]].
      * unfold frames. simpl. rewrite u16_small by lia.
        unfold aset. destruct (Z.leb_spec 0 (sp m)); [|lia].
        replace (Z.to_nat (sp m + 1)) with (S (Z.to_nat (sp m))) by lia.
        rewrite (take_S_r _ _ (pc m)) by (apply list_lookup_insert_eq; lia).
        by rewrite take_insert_ge.
      * apply u16_small. pose proof (op_VAL_range inst). lia.
Qed.

Lemma stack_discipline_witness :
  wf vm_top /\ exec 0 NOKEY 0x00EE 17 vm_top = Die "stack underflow".
Proof.
  assert (wf vm_top) as Hwf by (vm_compute; reflexivity).
  split; [exact Hwf|].
  destruct (stack_discipline 0 NOKEY 17 vm_top Hwf) as (_ & _ & H & _).
  apply H. reflexivity.
Defined.

(** ** Conditional skips *)

Lemma fetch_pc (m : CHIP8) : pc (snd (fetch m)) = (pc m + 2) mod 65536.
Proof.
  unfold fetch; simpl. unfold u16.
  rewrite Zplus_mod_idemp_l. f_equal. lia.
Qed.





(** ** The keyboard sentinels *)




(** ** Waiting for a key *)

Lemma same_program_refl (m : CHIP8) : same_program m m.
Proof. repeat split. Qed.

Lemma same_program_trans (m1 m2 m3 : CHIP8) :
  same_program m1 m2 -> same_program m2 m3 -> same_program m1 m3.
Proof.
  unfold same_program. intros H1 H2.
  decompose [and] H1. decompose [and] H2. repeat split; congruence.
Qed.

Lemma same_program_fetch (m m' : CHIP8) :
  same_program m m' -> fst (fetch m') = fst (fetch m).
Proof.
  intros (Hm & _ & Hp & _). unfold fetch, mem_load.
  cbn [fst snd pc mem with_pc with_accessed]. by rewrite Hm, Hp.
Qed.

Lemma same_program_getkeyboard (m m' : CHIP8) (c : Z) :
  same_program m m' -> getkeyboard m' c = getkeyboard m c.
Proof.
  intros (_ & _ & _ & _ & _ & _ & _ & _ & Hk). unfold getkeyboard. by rewrite Hk.
Qed.

Lemma same_program_timers (m : CHIP8) : same_program m (refreshscreen (timers m)).
Proof.
  unfold refreshscreen, timers.
  repeat match goal with |- context [if ?c then _ else _] => destruct c end;
    repeat split.
Qed.

Lemma exec_wait (rnd pressed inst keyreg : Z) (m : CHIP8) :
  Op.A inst = 0xF -> Op.B inst = 0x0A ->
  exec rnd pressed inst keyreg m = Ok (u8 (Op.X inst), with_pc (pc m - 2) m).
Proof.
  intros HA HB. unfold exec. not_cls_rts inst HA. rewrite HA, HB. reflexivity.
Qed.

(** One cycle on [Fx0A] puts x in [keyreg] and [pc] back on the
    instruction. *)
Lemma cycle_wait (rnd pressed keyreg : Z) (m : CHIP8) :
  at_wait m -> 0 <= pc m < 65536 ->
  exists m', cycle rnd pressed keyreg m = Ok (wait_reg m, m') /\ same_program m m'.
Proof.
  intros [HA HB] Hpc. unfold cycle, wait_reg.
  pose proof (fetch_pc m) as Hf.
  destruct (fetch m) as [inst m1] eqn:E. simpl in *.
  rewrite exec_wait by done.
  rewrite (u8_small (Op.X inst)) by (pose proof (op_X_range inst); lia).
  eexists. split; [reflexivity|].
  assert (u16 (pc m1 - 2) = pc m) as Hback.
  { rewrite Hf. unfold u16. rewrite Zminus_mod_idemp_l.
    replace (pc m + 2 - 2) with (pc m) by lia. by apply Z.mod_small. }
  assert (m1 = snd (fetch m)) as Hm1 by (by rewrite E).
  unfold same_program. cbn [mem stack pc sp i v display inspertick keymap with_pc].
  rewrite Hback. subst m1. repeat split.
Qed.

Lemma batch_wait (n : nat) (rnd : nat -> Z) (k : nat) (pressed keyreg : Z) (m : CHIP8) :
  at_wait m -> 0 <= pc m < 65536 -> keyreg = wait_reg m ->
  exists m', batch n rnd k pressed keyreg m = Ok (wait_reg m, m') /\ same_program m m'.
Proof.
  revert k keyreg m. induction n as [|n IH]; intros k keyreg m Hw Hpc Hk; simpl.
  - subst. eexists. split; [reflexivity|apply same_program_refl].
  - destruct (cycle_wait (rnd k) pressed keyreg m Hw Hpc) as (m1 & -> & Hs1). simpl.
    pose proof (same_program_fetch _ _ Hs1) as Hf.
    assert (pc m1 = pc m) as Hpc1 by (unfold same_program in Hs1; tauto).
    destruct (IH (S k) (wait_reg m) m1) as (m2 & H2 & Hs2).
    + unfold at_wait. by rewrite Hf.
    + lia.
    + unfold wait_reg. by rewrite Hf.
    + exists m2. split; [|by eapply same_program_trans].
      rewrite H2. unfold wait_reg. by rewrite Hf.
Qed.

(** A tick whose poll finds no key leaves a parked loop parked. *)
Lemma tick_wait (inp : INPUT) (r : RUN) :
  pending r -> getkeyboard (vm r) (getch inp) = NOKEY ->
  exists r', tick inp r = Ok r' /\ pending r' /\ same_program (vm r) (vm r') /\
             pressed r' = NOKEY.
Proof.
  intros (Hpc & Hlen & Hw & Hk) Hkey. unfold tick, poll. rewrite Hkey.
  rewrite Z.eqb_refl, andb_false_r. simpl.
  destruct (batch_wait (Z.to_nat (inspertick (vm r))) (rand inp) 0 NOKEY (keyreg r) (vm r))
    as (m' & -> & Hs); try done.
  cbn [obind fst snd vm keyreg pressed]. eexists. split; [reflexivity|].
  cbn [vm keyreg pressed].
  assert (same_program (vm r) (refreshscreen (timers m'))) as Hs'
    by (eapply same_program_trans; [exact Hs|apply same_program_timers]).
  pose proof (same_program_fetch _ _ Hs') as Hf.
  split; [|done].
  unfold pending, at_wait, wait_reg. cbn [vm keyreg]. rewrite Hf.
  destruct Hw. destruct Hs' as (_ & _ & -> & _ & _ & -> & _).
  repeat split; try done; lia.
Qed.






(** The scenario end to end: three ticks without a key leave [pc] on the
    [ld V0,K] at 0x200; the tick that polls key 1 ends with 1 in V0 and
    [pc] on the [jp 0x202] behind it. *)
Example wait_scenario :
  exists m0 r3 r4,
    boot 0x200 11 default_keymap rom_wait = Ok m0 /\
    run [no_key; no_key; no_key] m0 = Ok r3 /\ pc (vm r3) = 0x200 /\ keyreg r3 = 0 /\
    run [no_key; no_key; no_key; key_1] m0 = Ok r4 /\
    V (vm r4) 0 = 1 /\ pc (vm r4) = 0x202 /\ keyreg r4 = 17.
Proof.
  eexists _, _, _. split; [vm_compute; reflexivity|].
  split; [vm_compute; reflexivity|]. split; [reflexivity|]. split; [reflexivity|].
  split; [vm_compute; reflexivity|]. repeat split.
Qed.

(** ** The screen *)

Lemma aget_aset {T : Type} (d : T) (l : list T) (k k' : Z) (x : T) :
  aget d (aset l k x) k' =
    if bool_decide (k = k' /\ 0 <= k < Z.of_nat (length l)) then x else aget d l k'.
Proof.
  case_bool_decide as H.
  - destruct H as [<- H]. by apply aget_aset_eq.
  - destruct (decide (k = k')) as [<-|Hne]; [|by apply aget_aset_ne].
    unfold aget, aset. destruct (Z.leb_spec 0 k); [|done].
    rewrite list_insert_ge by lia. done.
Qed.

Lemma aget_length {T : Type} (d : T) (l : list T) (k : Z) (P : T -> Prop) :
  Forall P l -> 0 <= k < Z.of_nat (length l) -> P (aget d l k).
Proof.
  intros Hall Hk. unfold aget. destruct (Z.leb_spec 0 k); [|lia].
  destruct (lookup_lt_is_Some_2 l (Z.to_nat k)) as [x Hx]; [lia|].
  rewrite Hx. simpl. eapply Forall_lookup_1; eauto.
Qed.

Lemma getpx_putpx (d : list (list bool)) (row col : Z) (b : bool) (R C : Z) :
  disp_ok d -> 0 <= row < 32 -> 0 <= col < 64 ->
  getpx (putpx row col b d) R C =
    if bool_decide (R = row /\ C = col) then b else getpx d R C.
Proof.
  intros [Hlen Hrows] Hr Hc. unfold getpx, putpx.
  pose proof (aget_length [] d row _ Hrows ltac:(lia)) as Hrow. simpl in Hrow.
  rewrite aget_aset. case_bool_decide as H1.
  - destruct H1 as [<- _]. rewrite aget_aset, Hrow.
    repeat case_bool_decide; try done; exfalso; lia.
  - case_bool_decide; [exfalso; lia|done].
Qed.

Lemma disp_ok_putpx (d : list (list bool)) (row col : Z) (b : bool) :
  disp_ok d -> 0 <= row < 32 -> disp_ok (putpx row col b d).
Proof.
  intros [Hlen Hrows] Hr. unfold putpx. split; [by rewrite length_aset|].
  pose proof (aget_length [] d row _ Hrows ltac:(lia)) as Hrow. simpl in Hrow.
  unfold aset at 1. destruct (0 <=? row); [|done].
  apply Forall_insert; [done|]. by rewrite length_aset.
Qed.

Lemma screen_only_refl (m : CHIP8) : screen_only m m.
Proof. repeat split. Qed.

Lemma screen_only_trans (m1 m2 m3 : CHIP8) :
  screen_only m1 m2 -> screen_only m2 m3 -> screen_only m1 m3.
Proof.
  intros (A1 & A2 & A3 & A4 & A5 & A6 & A7 & A8 & A9 & A10 & A11)
         (B1 & B2 & B3 & B4 & B5 & B6 & B7 & B8 & B9 & B10 & B11).
  repeat split; try congruence. intros k Hk. rewrite B11, A11; done.
Qed.

Lemma setpixel_spec (m : CHIP8) (row col : Z) :
  disp_ok (display m) -> length (v m) = 16%nat -> 0 <= row < 32 -> 0 <= col < 64 ->
  let m' := setpixel m row col in
  (forall R C, getpx (display m') R C =
     xorb (getpx (display m) R C) (bool_decide (R = row /\ C = col))) /\
  flag_rel (getpx (display m) row col = true) (V m 0xF) (V m' 0xF) /\
  disp_ok (display m') /\ screen_only m m' /\ accessed m' = accessed m.
Proof.
  intros Hd Hlen Hr Hc m'. subst m'. unfold setpixel.
  destruct (getpx (display m) row col) eqn:Epx.
  - cbn [display with_dirty with_display setV with_v].
    split; [|split; [|split; [|split]]].
    + intros R C. rewrite getpx_putpx by done.
      case_bool_decide as H; [destruct H as [-> ->]; by rewrite Epx|by rewrite xorb_false_r].
    + left. split; [done|]. change (V (with_dirty ?a (with_display ?b ?m)) ?x) with (V m x).
      rewrite V_setV_eq by lia. done.
    + by apply disp_ok_putpx.
    + repeat split; [apply length_aset|].
      intros k Hk. by apply aget_aset_ne.
    + done.
  - cbn [display with_dirty with_display].
    split; [|split; [|split; [|split]]].
    + intros R C. rewrite getpx_putpx by done.
      case_bool_decide as H; [destruct H as [-> ->]; by rewrite Epx|by rewrite xorb_false_r].
    + right. split; [done|]. done.
    + by apply disp_ok_putpx.
    + repeat split.
    + done.
Qed.


Lemma flag_rel_false (P : Prop) (f : Z) : ~ P -> flag_rel P f f.
Proof. intros H. by right. Qed.

Lemma flag_rel_step (P1 P2 P : Prop) (f f1 f' : Z) :
  flag_rel P1 f f1 -> flag_rel P2 f1 f' ->
  (P1 -> P) -> (P2 -> P) -> (P -> P1 \/ P2) ->
  flag_rel P f f'.
Proof.
  intros [[H1 E1]|[H1 E1]] [[H2 E2]|[H2 E2]] I1 I2 I; unfold flag_rel; subst.
  - left. auto.
  - left. auto.
  - left. auto.
  - right. split; [|done]. intros HP. destruct (I HP); auto.
Qed.

Section Cols.
Variables (b x yr : Z).
Hypothesis Hx : 0 <= x.
Hypothesis Hyr : 0 <= yr < 32.


Lemma draw_cols_spec (fuel : nat) : forall (col : Z) (m : CHIP8),
  0 <= col <= 8 -> 8 - col <= Z.of_nat fuel ->
  disp_ok (display m) -> length (v m) = 16%nat ->
  let m' := for_u8 fuel (fun col _ => (col <? 8) && (x + col <? 64))
              (fun col vm => if isbitset col b then setpixel vm yr (x + col) else vm)
              col m in
  (forall R C, getpx (display m') R C =
     xorb (getpx (display m) R C)
          (bool_decide (R = yr /\ col <= C - x < 8 /\ C < 64) && isbitset (C - x) b)) /\
  flag_rel (exists c, col <= c < 8 /\ x + c < 64 /\ isbitset c b = true /\
                      getpx (display m) yr (x + c) = true)
           (V m 0xF) (V m' 0xF) /\
  disp_ok (display m') /\ screen_only m m' /\ accessed m' = accessed m.
Proof.
  set (condC := fun (col : Z) (_ : CHIP8) => (col <? 8) && (x + col <? 64)).
  set (bodyC := fun (col : Z) (vm : CHIP8) =>
                  if isbitset col b then setpixel vm yr (x + col) else vm).
  assert (forall col m, ~ (col < 8 /\ x + col < 64) -> 0 <= col ->
    (forall R C, getpx (display m) R C =
       xorb (getpx (display m) R C)
            (bool_decide (R = yr /\ col <= C - x < 8 /\ C < 64) && isbitset (C - x) b)) /\
    flag_rel (exists c, col <= c < 8 /\ x + c < 64 /\ isbitset c b = true /\
                        getpx (display m) yr (x + c) = true)
             (V m 0xF) (V m 0xF)) as Hstop.
  { intros col m Hno Hcol. split.
    - intros R C. case_bool_decide; [exfalso; lia|]. by rewrite xorb_false_r.
    - apply flag_rel_false. intros (c & ? & ? & _). lia. }
  induction fuel as [|fuel IH]; intros col m Hcol Hfuel Hd Hlen m'; subst m'.
  - simpl. destruct (Hstop col m) as [H1 H2]; [lia|lia|].
    split; [done|]. split; [done|]. split; [done|]. split; [apply screen_only_refl|done].
  - cbn [for_u8]. destruct (condC col m) eqn:Ec.
    + subst condC. simpl in Ec. apply andb_true_iff in Ec as [Ec1 Ec2].
      apply Z.ltb_lt in Ec1, Ec2.
      rewrite (u8_small (col + 1)) by lia.
      assert (let m1 := bodyC col m in
        (forall R C, getpx (display m1) R C =
           xorb (getpx (display m) R C)
                (bool_decide (R = yr /\ C = x + col) && isbitset col b)) /\
        flag_rel (isbitset col b = true /\ getpx (display m) yr (x + col) = true)
                 (V m 0xF) (V m1 0xF) /\
        disp_ok (display m1) /\ screen_only m m1 /\ accessed m1 = accessed m)
        as (Hpx1 & Hf1 & Hd1 & Hs1 & Ha1).
      { subst bodyC. cbv beta zeta. destruct (isbitset col b) eqn:Eb.
        - destruct (setpixel_spec m yr (x + col)) as (A & B & C & D & E);
            [done|done|lia|lia|].
          split; [|split; [|done]].
          + intros R C'. rewrite A. by rewrite andb_true_r.
          + destruct B as [[B1 B2]|[B1 B2]]; [left|right]; split; tauto.
        - split; [|split; [|split; [done|split; [apply screen_only_refl|done]]]].
          + intros R C. by rewrite andb_false_r, xorb_false_r.
          + apply flag_rel_false. intros [? _]. done. }
      destruct (IH (col + 1) (bodyC col m)) as (Hpx & Hf & Hd' & Hs & Ha);
        [lia|lia|done|destruct Hs1 as (_&_&_&_&_&_&_&_&_&->&_); done|].
      split; [|split; [|split; [done|split; [by eapply screen_only_trans|congruence]]]].
      * intros R C. rewrite Hpx, Hpx1.
        destruct (getpx (display m) R C);
          repeat case_bool_decide; simpl;
          try (exfalso; lia);
          try (replace (C - x) with col by lia);
          destruct (isbitset _ b); try done.
        all: try (destruct (isbitset _ b); done).
      * eapply flag_rel_step; [exact Hf1|exact Hf|..].
        -- intros [H1 H2]. exists col. repeat split; (done || lia).
        -- intros (c & Hc & Hc64 & Hbit & Hlit). exists c.
           rewrite Hpx1 in Hlit.
           case_bool_decide as Hk; [exfalso; lia|].
           rewrite andb_false_l, xorb_false_r in Hlit.
           repeat split; (done || lia).
        -- intros (c & Hc & Hc64 & Hbit & Hlit).
           destruct (decide (c = col)) as [->|Hne]; [by left|].
           right. exists c. rewrite Hpx1.
           case_bool_decide as Hk; [exfalso; lia|].
           rewrite andb_false_l, xorb_false_r.
           repeat split; (done || lia).
    + subst condC. simpl in Ec. apply andb_false_iff in Ec.
      destruct (Hstop col m) as [H1 H2]; [|lia|].
      { rewrite !Z.ltb_ge in Ec. lia. }
      split; [done|]. split; [done|]. split; [done|]. split; [apply screen_only_refl|done].
Qed.
End Cols.

Lemma draw_row_spec (x y row : Z) (m : CHIP8) :
  0 <= x -> 0 <= y + row < 32 -> disp_ok (display m) -> length (v m) = 16%nat ->
  let m' := draw_row x y row m in
  let b := aget 0 (mem m) (i m + row) in
  (forall R C, getpx (display m') R C =
     xorb (getpx (display m) R C)
          (bool_decide (R = y + row /\ 0 <= C - x < 8 /\ C < 64) && isbitset (C - x) b)) /\
  flag_rel (exists c, 0 <= c < 8 /\ x + c < 64 /\ isbitset c b = true /\
                      getpx (display m) (y + row) (x + c) = true)
           (V m 0xF) (V m' 0xF) /\
  disp_ok (display m') /\ screen_only m m' /\ accessed m' = accessed m ++ [i m + row].
Proof.
  intros Hx Hy Hd Hlen. unfold draw_row, mem_load. cbv zeta.
  set (m0 := with_accessed (accessed m ++ [i m + row]) m).
  destruct (draw_cols_spec (aget 0 (mem m) (i m + row)) x (y + row) Hx Hy 9 0 m0)
    as (A & B & C & D & E); [lia|lia|done|done|].
  split; [exact A|]. split; [exact B|]. split; [exact C|]. split; [exact D|exact E].
Qed.

Section Rows.
Variables (x y n : Z).
Hypothesis Hx : 0 <= x.
Hypothesis Hy : 0 <= y.


Lemma draw_rows_spec (fuel : nat) : forall (row : Z) (m : CHIP8),
  let rows := Z.min n (Z.min (32 - y) (MEMORY_SIZE - i m)) in
  0 <= row -> rows - row <= Z.of_nat fuel ->
  disp_ok (display m) -> length (v m) = 16%nat ->
  let m' := for_u8 fuel
              (fun row vm => (row <? n) && (y + row <? 32) && (i vm + row <? MEMORY_SIZE))
              (draw_row x y) row m in
  (forall R C, getpx (display m') R C =
     xorb (getpx (display m) R C)
          (bool_decide (row <= R - y < rows /\ 0 <= C - x < 8 /\ C < 64)
           && isbitset (C - x) (aget 0 (mem m) (i m + (R - y))))) /\
  flag_rel (exists r c, row <= r < rows /\ 0 <= c < 8 /\ x + c < 64 /\
              isbitset c (aget 0 (mem m) (i m + r)) = true /\
              getpx (display m) (y + r) (x + c) = true)
           (V m 0xF) (V m' 0xF) /\
  disp_ok (display m') /\ screen_only m m' /\
  accessed m' = accessed m ++ map (fun r => i m + r) (seqZ row (rows - row)).
Proof.
  set (condR := fun (row : Z) (vm : CHIP8) =>
                  (row <? n) && (y + row <? 32) && (i vm + row <? MEMORY_SIZE)).
  induction fuel as [|fuel IH]; intros row m rows Hrow Hfuel Hd Hlen m'; subst m'.
  - simpl. rewrite seqZ_nil by lia. rewrite app_nil_r.
    split; [|split; [|split; [done|split; [apply screen_only_refl|done]]]].
    + intros R C. case_bool_decide; [exfalso; lia|]. by rewrite xorb_false_r.
    + apply flag_rel_false. intros (r & c & ? & _). lia.
  - cbn [for_u8]. destruct (condR row m) eqn:Ec.
    + subst condR. simpl in Ec. rewrite !andb_true_iff, !Z.ltb_lt in Ec.
      destruct Ec as [[Ec1 Ec2] Ec3].
      rewrite (u8_small (row + 1)) by lia.
      destruct (draw_row_spec x y row m) as (Hpx1 & Hf1 & Hd1 & Hs1 & Ha1);
        [done|lia|done|done|].
      set (m1 := draw_row x y row m) in *.
      assert (i m1 = i m /\ mem m1 = mem m /\ length (v m1) = 16%nat) as (Ei & Em & El).
      { destruct Hs1 as (E1 & _ & _ & _ & E2 & _ & _ & _ & _ & E3 & _).
        rewrite E3. done. }
      destruct (IH (row + 1) m1) as (Hpx & Hf & Hd' & Hs & Ha);
        [lia|rewrite Ei; fold rows; lia|done|done|].
      rewrite Ei, Em in *. fold rows in Hpx, Hf, Ha.
      split; [|split; [|split; [done|split; [by eapply screen_only_trans|]]]].
      * intros R C. rewrite Hpx, Hpx1.
        destruct (getpx (display m) R C);
          repeat case_bool_decide; simpl;
          try (exfalso; lia);
          try (replace (R - y) with row by lia);
          repeat match goal with
                 | |- context [isbitset ?a ?b] => destruct (isbitset a b)
                 end; done.
      * eapply flag_rel_step; [exact Hf1|exact Hf|..].
        -- intros (c & Hc & Hc64 & Hbit & Hlit). exists row, c.
           repeat split; (done || lia).
        -- intros (r & c & Hr & Hc & Hc64 & Hbit & Hlit). exists r, c.
           rewrite Hpx1 in Hlit.
           case_bool_decide as Hk; [exfalso; lia|].
           rewrite andb_false_l, xorb_false_r in Hlit.
           repeat split; (done || lia).
        -- intros (r & c & Hr & Hc & Hc64 & Hbit & Hlit).
           destruct (decide (r = row)) as [->|Hne].
           ++ left. exists c. repeat split; (done || lia).
           ++ right. exists r, c. rewrite Hpx1.
              case_bool_decide as Hk; [exfalso; lia|].
              rewrite andb_false_l, xorb_false_r.
              repeat split; (done || lia).
      * rewrite Ha, Ha1, <- app_assoc. f_equal.
        rewrite (seqZ_cons row) by lia.
        replace (Z.succ row) with (row + 1) by lia.
        replace (Z.pred (rows - row)) with (rows - (row + 1)) by lia. done.
    + subst condR. simpl in Ec. rewrite !andb_false_iff, !Z.ltb_ge in Ec.
      rewrite seqZ_nil by lia. rewrite app_nil_r.
      split; [|split; [|split; [done|split; [apply screen_only_refl|done]]]].
      * intros R C. case_bool_decide; [exfalso; lia|]. by rewrite xorb_false_r.
      * apply flag_rel_false. intros (r & c & ? & _). lia.
Qed.
End Rows.

Lemma draw_x_range (m : CHIP8) (inst : Z) : 0 <= draw_x m inst < 256.
Proof. apply u8_range. Qed.
Lemma draw_y_range (m : CHIP8) (inst : Z) : 0 <= draw_y m inst < 256.
Proof. apply u8_range. Qed.
Lemma draw_n_range (inst : Z) : 0 <= draw_n inst < 16.
Proof.
  unfold draw_n. change 0x000F with (Z.ones 4). rewrite Z.land_ones by lia.
  pose proof (Z.mod_pos_bound inst (2 ^ 4) ltac:(lia)). rewrite u8_small; lia.
Qed.

Lemma covers_true (m : CHIP8) (inst R C : Z) :
  covers m inst R C = true <->
  (0 <= R - draw_y m inst < draw_n inst /\ R < 32 /\
   i m + (R - draw_y m inst) < MEMORY_SIZE /\
   0 <= C - draw_x m inst < 8 /\ C < 64) /\
  sprite_bit m (R - draw_y m inst) (C - draw_x m inst) = true.
Proof. unfold covers. by rewrite andb_true_iff, bool_decide_eq_true. Qed.

Lemma collides_true (m : CHIP8) (inst : Z) :
  collides m inst = true <->
  exists R C, covers m inst R C = true /\ getpx (display m) R C = true.
Proof.
  unfold collides. rewrite existsb_exists. split.
  - intros (R & _ & H). apply existsb_exists in H as (C & _ & H).
    apply andb_true_iff in H. eauto.
  - intros (R & C & Hc & Hl).
    pose proof (draw_x_range m inst). pose proof (draw_y_range m inst).
    pose proof Hc as Hc'. apply covers_true in Hc' as [Hr _].
    exists R. split; [apply list_elem_of_In, elem_of_seqZ; lia|].
    apply existsb_exists. exists C. split; [apply list_elem_of_In, elem_of_seqZ; lia|].
    by rewrite Hc, Hl.
Qed.

Lemma draw_spec (m : CHIP8) (inst : Z) :
  disp_ok (display m) -> length (v m) = 16%nat ->
  let m' := draw m inst in
  (forall R C, getpx (display m') R C = xorb (getpx (display m) R C) (covers m inst R C)) /\
  V m' 0xF = bool_to_Z (collides m inst) /\
  disp_ok (display m') /\ screen_only m m' /\
  accessed m' = accessed m ++ map (fun r => i m + r) (seqZ 0 (draw_rows m inst)).
Proof.
  intros Hd Hlen m'. subst m'. unfold draw.
  pose proof (draw_x_range m inst) as Hx. pose proof (draw_y_range m inst) as Hy.
  pose proof (draw_n_range inst) as Hn.
  set (x := draw_x m inst) in *. set (y := draw_y m inst) in *. set (n := draw_n inst) in *.
  set (m0 := setV 0xF 0 m).
  assert (screen_only m m0) as Hs0.
  { subst m0. repeat split; [apply length_aset|]. intros k Hk. by apply V_setV_ne. }
  destruct (draw_rows_spec x y n ltac:(lia) ltac:(lia) 17 0 m0)
    as (Hpx & Hf & Hd' & Hs & Ha);
    [lia|subst m0; cbn [i setV with_v]; lia|done|subst m0; by rewrite length_v_setV|].
  change (i m0) with (i m) in *. change (mem m0) with (mem m) in *.
  change (display m0) with (display m) in *. change (accessed m0) with (accessed m) in *.
  assert (V m0 0xF = 0) as Hf0 by (subst m0; rewrite V_setV_eq by lia; done).
  rewrite Hf0 in Hf.
  split; [|split; [|split; [done|split; [by eapply screen_only_trans|]]]].
  - intros R C. rewrite Hpx. f_equal. unfold covers, sprite_bit. fold x y n. f_equal.
    apply bool_decide_ext. lia.
  - destruct (collides m inst) eqn:Ecol.
    + apply collides_true in Ecol as (R & C & Hc & Hl).
      apply covers_true in Hc as [Hr Hb]. fold x y n in Hr, Hb.
      destruct Hf as [[_ ->]|[Hno _]]; [done|]. exfalso. apply Hno.
      exists (R - y), (C - x). unfold sprite_bit in Hb.
      replace (y + (R - y)) with R by lia. replace (x + (C - x)) with C by lia.
      repeat split; (done || lia).
    + destruct Hf as [[(r & c & Hr & Hc & Hc64 & Hb & Hl) _]|[_ ->]]; [|done].
      exfalso. assert (collides m inst = true) as Hcon; [|congruence].
      apply collides_true. exists (y + r), (x + c). split; [|done].
      apply covers_true. fold x y n. unfold sprite_bit.
      replace (y + r - y) with r by lia. replace (x + c - x) with c by lia.
      split; [lia|done].
  - rewrite Ha, Z.sub_0_r. reflexivity.
Qed.

Lemma disp_ext (d d' : list (list bool)) :
  disp_ok d -> disp_ok d' ->
  (forall R C, 0 <= R < 32 -> 0 <= C < 64 -> getpx d R C = getpx d' R C) ->
  d = d'.
Proof.
  intros [Hl Hr] [Hl' Hr'] Hpx. apply list_eq. intros r.
  destruct (decide (r < 32)%nat) as [Hlt|Hge].
  - destruct (lookup_lt_is_Some_2 d r) as [row Hrow]; [lia|].
    destruct (lookup_lt_is_Some_2 d' r) as [row' Hrow']; [lia|].
    rewrite Hrow, Hrow'. f_equal.
    pose proof (Forall_lookup_1 _ _ _ _ Hr Hrow) as Hlen. simpl in Hlen.
    pose proof (Forall_lookup_1 _ _ _ _ Hr' Hrow') as Hlen'. simpl in Hlen'.
    apply list_eq. intros c.
    destruct (decide (c < 64)%nat) as [Hc|Hc].
    + destruct (lookup_lt_is_Some_2 row c) as [b Hb]; [lia|].
      destruct (lookup_lt_is_Some_2 row' c) as [b' Hb']; [lia|].
      rewrite Hb, Hb'. f_equal.
      specialize (Hpx (Z.of_nat r) (Z.of_nat c) ltac:(lia) ltac:(lia)).
      unfold getpx, aget in Hpx.
      destruct (Z.leb_spec 0 (Z.of_nat r)); [|lia].
      destruct (Z.leb_spec 0 (Z.of_nat c)); [|lia].
      rewrite !Nat2Z.id, Hrow, Hrow' in Hpx. simpl in Hpx.
      by rewrite Hb, Hb' in Hpx.
    + rewrite !lookup_ge_None_2 by lia. done.
  - rewrite !lookup_ge_None_2 by lia. done.
Qed.

(** ** The loops never stop for want of fuel

    Each [for_u8] of the model leaves through its condition: giving it more
    passes changes nothing. *)

Lemma for_u8_fuel_enough {S : Type} (cond : Z -> S -> bool) (body : Z -> S -> S)
    (bound : Z) :
  bound <= 255 ->
  (forall k s, bound <= k -> cond k s = false) ->
  forall (fuel extra : nat) (k : Z) (s : S),
    0 <= k -> bound - k <= Z.of_nat fuel ->
    for_u8 (fuel + extra) cond body k s = for_u8 fuel cond body k s.
Proof.
  intros Hb Hstop. induction fuel as [|fuel IH]; intros extra k s Hk Hfuel.
  - simpl. destruct extra; simpl; [done|]. by rewrite Hstop by lia.
  - simpl. destruct (cond k s) eqn:E; [|done].
    assert (k < bound) as Hlt.
    { destruct (Z.lt_ge_cases k bound) as [|Hge]; [done|].
      rewrite Hstop in E by done. discriminate. }
    rewrite u8_small by lia. apply IH; lia.
Qed.

Lemma draw_cols_fuel (b x yr : Z) (extra : nat) (m : CHIP8) :
  for_u8 (9 + extra) (fun col _ => (col <? 8) && (x + col <? 64))
         (fun col vm => if isbitset col b then setpixel vm yr (x + col) else vm) 0 m =
  for_u8 9 (fun col _ => (col <? 8) && (x + col <? 64))
         (fun col vm => if isbitset col b then setpixel vm yr (x + col) else vm) 0 m.
Proof.
  apply (for_u8_fuel_enough _ _ 8); [lia| |lia|lia].
  intros k s Hk. destruct (Z.ltb_spec k 8); [lia|done].
Qed.

Lemma draw_rows_fuel (x y inst : Z) (extra : nat) (m : CHIP8) :
  for_u8 (17 + extra)
         (fun row vm => (row <? draw_n inst) && (y + row <? 32) && (i vm + row <? MEMORY_SIZE))
         (draw_row x y) 0 m =
  for_u8 17
         (fun row vm => (row <? draw_n inst) && (y + row <? 32) && (i vm + row <? MEMORY_SIZE))
         (draw_row x y) 0 m.
Proof.
  pose proof (draw_n_range inst) as Hn.
  apply (for_u8_fuel_enough _ _ (draw_n inst)); [lia| |lia|lia].
  intros k s Hk. destruct (Z.ltb_spec k (draw_n inst)); [lia|done].
Qed.

Lemma transfer_fuel {S : Type} (body : Z -> S -> S) (vx : Z) (extra : nat) (s : S) :
  0 <= vx < 16 ->
  for_u8 (17 + extra) (fun k _ => k <=? vx) body 0 s =
  for_u8 17 (fun k _ => k <=? vx) body 0 s.
Proof.
  intros Hvx. apply (for_u8_fuel_enough _ _ (vx + 1)); [lia| |lia|lia].
  intros k s' Hk. destruct (Z.leb_spec k vx); [lia|done].
Qed.

(** ** Drawing a sprite *)

Lemma wf_disp_ok (m : CHIP8) : wf m -> disp_ok (display m) /\ length (v m) = 16%nat.
Proof. intros [] %wf_iff. by repeat split. Qed.

(** Where the sprite lies within memory, [draw] gets to the very cells the
    specification names. *)
Lemma covers_within_memory (m : CHIP8) (inst R C : Z) :
  0 <= i m -> i m + draw_n inst <= MEMORY_SIZE ->
  covers m inst R C = covers_spec m inst R C.
Proof.
  intros Hi Hfit. unfold covers, covers_spec, sprite_bit, sprite_bit_spec.
  pose proof (draw_y_range m inst) as Hy.
  destruct (decide (0 <= R - draw_y m inst < draw_n inst)) as [Hr|Hr].
  - rewrite (Z.mod_small (i m + (R - draw_y m inst))) by (unfold MEMORY_SIZE in *; lia).
    f_equal. apply bool_decide_ext. lia.
  - rewrite !bool_decide_eq_false_2 by lia. done.
Qed.

(** C4, as the code has it.  [draw] XORs the sprite into the screen with
    its origin at (Vx mod 64, Vy mod 32): a cell changes exactly when it
    lies under a set bit of one of the rows [draw] gets to, and those are
    the rows that are among the [n] of the instruction, lie on the screen,
    and whose byte [I + row] lies below the end of memory; columns beyond
    the right edge are left out.  VF ends as 1 if one of the changed cells
    was lit and as 0 otherwise, whatever it was before.  Nothing else but
    the dirty flag changes.  When all [n] bytes lie within memory these are
    the cells the specification names. *)
Theorem draw_xor_clipped (m : CHIP8) (inst : Z) :
  wf m ->
  let m' := draw m inst in
  (forall R C, getpx (display m') R C = xorb (getpx (display m) R C) (covers m inst R C)) /\
  V m' 0xF = bool_to_Z (collides m inst) /\
  (collides m inst = true <->
     exists R C, covers m inst R C = true /\ getpx (display m) R C = true) /\
  (i m + draw_n inst <= MEMORY_SIZE ->
     forall R C, covers m inst R C = covers_spec m inst R C) /\
  screen_only m m'.
Proof.
  intros Hwf m'. destruct (wf_disp_ok m Hwf) as [Hd Hlen].
  destruct (draw_spec m inst Hd Hlen) as (Hpx & Hf & _ & Hs & _).
  split; [exact Hpx|]. split; [exact Hf|]. split; [apply collides_true|].
  split; [|exact Hs].
  intros Hfit R C. apply covers_within_memory; [|done].
  apply wf_iff in Hwf as []. lia.
Qed.

Lemma draw_xor_clipped_witness :
  wf vm_edge /\
  getpx (display (draw vm_edge inst_edge)) 0 7 = true /\
  getpx (display (draw vm_edge inst_edge)) 1 7 = false.
Proof.
  assert (wf vm_edge) as Hwf by (vm_compute; reflexivity).
  split; [exact Hwf|].
  destruct (draw_xor_clipped vm_edge inst_edge Hwf) as (Hpx & _).
  split; rewrite Hpx; vm_compute; reflexivity.
Defined.

(** C4, as the specification words it, fails where the sprite runs past
    the end of memory: with [I] = 4095 and two rows asked for, the second
    row, whose byte the specification takes from address 0, is not
    drawn. *)
Lemma draw_stops_at_memory_end :
  wf vm_edge /\
  getpx (display (draw vm_edge inst_edge)) 1 0 <>
    xorb (getpx (display vm_edge) 1 0) (covers_spec vm_edge inst_edge 1 0).
Proof.
  split; [vm_compute; reflexivity|]. vm_compute. discriminate.
Qed.

(** ** Drawing twice *)

(** [draw] lands on the same origin again when neither coordinate is taken
    from VF. *)
Lemma draw_same_origin (m : CHIP8) (inst : Z) :
  disp_ok (display m) -> length (v m) = 16%nat ->
  Z.shiftr (Z.land inst 0x0F00) 8 <> 0xF -> Z.shiftr (Z.land inst 0x00F0) 4 <> 0xF ->
  draw_x (draw m inst) inst = draw_x m inst /\ draw_y (draw m inst) inst = draw_y m inst.
Proof.
  intros Hd Hlen Hx Hy. destruct (draw_spec m inst Hd Hlen) as (_ & _ & _ & Hs & _).
  destruct Hs as (_ & _ & _ & _ & _ & _ & _ & _ & _ & _ & HV).
  unfold draw_x, draw_y. by rewrite !HV.
Qed.

(** C5.  Drawing the same sprite at the same origin twice in a row puts the
    screen back as it was; [draw] leaves memory and [I] alone, so the sprite
    is the same both times.  Each call sets VF from the screen that call
    found: the first from the screen before, the second from the screen the
    first left. *)
Theorem double_draw_restores (m : CHIP8) (inst : Z) :
  wf m ->
  let m1 := draw m inst in
  let m2 := draw m1 inst in
  draw_x m1 inst = draw_x m inst -> draw_y m1 inst = draw_y m inst ->
  display m2 = display m /\
  V m1 0xF = bool_to_Z (collides m inst) /\
  V m2 0xF = bool_to_Z (collides m1 inst) /\
  mem m1 = mem m /\ i m1 = i m.
Proof.
  intros Hwf m1 m2 Hx Hy. destruct (wf_disp_ok m Hwf) as [Hd Hlen].
  destruct (draw_spec m inst Hd Hlen) as (Hpx1 & Hf1 & Hd1 & Hs1 & _).
  fold m1 in Hpx1, Hf1, Hd1, Hs1.
  assert (mem m1 = mem m /\ i m1 = i m /\ length (v m1) = 16%nat) as (Em & Ei & Hlen1).
  { destruct Hs1 as (E1 & _ & _ & _ & E2 & _ & _ & _ & _ & E3 & _).
    rewrite E3. done. }
  destruct (draw_spec m1 inst Hd1 Hlen1) as (Hpx2 & Hf2 & Hd2 & _).
  fold m2 in Hpx2, Hf2, Hd2.
  split; [|done].
  apply disp_ext; [done|done|]. intros R C _ _.
  rewrite Hpx2, Hpx1.
  assert (covers m1 inst R C = covers m inst R C) as ->.
  { unfold covers, sprite_bit. by rewrite Hx, Hy, Em, Ei. }
  by destruct (getpx (display m) R C), (covers m inst R C).
Qed.

Lemma double_draw_restores_witness :
  wf vm_edge /\
  display (draw (draw vm_edge inst_edge) inst_edge) = display vm_edge /\
  V (draw vm_edge inst_edge) 0xF = 0 /\
  V (draw (draw vm_edge inst_edge) inst_edge) 0xF = 1.
Proof.
  assert (wf vm_edge) as Hwf by (vm_compute; reflexivity).
  split; [exact Hwf|].
  destruct (double_draw_restores vm_edge inst_edge Hwf) as (Hd & Hf1 & Hf2 & _);
    [vm_compute; reflexivity|vm_compute; reflexivity|].
  split; [exact Hd|]. split; [rewrite Hf1|rewrite Hf2]; vm_compute; reflexivity.
Defined.

(** ** Well-formedness is an invariant *)

Lemma for_u8_inv {S : Type} (P : S -> Prop) (fuel : nat) (cond : Z -> S -> bool)
    (body : Z -> S -> S) (k : Z) (s : S) :
  (forall k s, P s -> P (body k s)) -> P s -> P (for_u8 fuel cond body k s).
Proof.
  intros Hbody. revert k s. induction fuel as [|fuel IH]; intros k s Hs; simpl; [done|].
  destruct (cond k s); [|done]. apply IH, Hbody, Hs.
Qed.

Lemma Forall_aset {T : Type} (P : T -> Prop) (l : list T) (k : Z) (x : T) :
  Forall P l -> P x -> Forall P (aset l k x).
Proof.
  intros Hl Hx. unfold aset. destruct (0 <=? k); [|done]. by apply Forall_insert.
Qed.

Lemma disp_ok_putpx_any (d : list (list bool)) (row col : Z) (b : bool) :
  disp_ok d -> disp_ok (putpx row col b d).
Proof.
  intros Hd. destruct (decide (0 <= row < 32)) as [Hr|Hr]; [by apply disp_ok_putpx|].
  destruct Hd as [Hlen Hrows]. unfold putpx, aset at 1.
  destruct (Z.leb_spec 0 row); [|done].
  rewrite list_insert_ge by lia. done.
Qed.

Lemma wf_display_ok (d : list (list bool)) : wf_display d = true <-> disp_ok d.
Proof.
  unfold wf_display, disp_ok. rewrite andb_true_iff, Nat.eqb_eq.
  rewrite (forallb_Forall _ (fun r => length r = 64%nat)) by (intros; apply Nat.eqb_eq).
  done.
Qed.

Ltac wf_intro H := apply wf_iff in H; destruct H.
Ltac wf_split := apply wf_iff; constructor; cbn -[Z.of_nat u8 u16 aset].

Lemma wf_with_pc (x : Z) (m : CHIP8) : wf m -> wf (with_pc x m).
Proof. intros H. wf_intro H. wf_split; try done. apply u16_range. Qed.

Lemma wf_with_i (x : Z) (m : CHIP8) : wf m -> wf (with_i x m).
Proof. intros H. wf_intro H. wf_split; try done. apply u16_range. Qed.

Lemma wf_with_delay (x : Z) (m : CHIP8) : wf m -> wf (with_delay x m).
Proof. intros H. wf_intro H. wf_split; try done. apply u8_range. Qed.

Lemma wf_with_sound (x : Z) (m : CHIP8) : wf m -> wf (with_sound x m).
Proof. intros H. wf_intro H. wf_split; try done. apply u8_range. Qed.

Lemma wf_with_dirty (x : bool) (m : CHIP8) : wf m -> wf (with_dirty x m).
Proof. intros H. wf_intro H. wf_split; done. Qed.

Lemma wf_with_accessed (x : list Z) (m : CHIP8) : wf m -> wf (with_accessed x m).
Proof. intros H. wf_intro H. wf_split; done. Qed.

Lemma wf_with_display (d : list (list bool)) (m : CHIP8) :
  disp_ok d -> wf m -> wf (with_display d m).
Proof. intros [Hd1 Hd2] H. wf_intro H. wf_split; done. Qed.

Lemma wf_setV (x val : Z) (m : CHIP8) : wf m -> wf (setV x val m).
Proof.
  intros H. wf_intro H. wf_split; try done.
  - by rewrite length_aset.
  - apply Forall_aset; [done|apply u8_range].
Qed.

Lemma wf_mem_store (a val : Z) (m : CHIP8) : wf m -> wf (mem_store a val m).
Proof.
  intros H. wf_intro H. wf_split; try done.
  - by rewrite length_aset.
  - apply Forall_aset; [done|apply u8_range].
Qed.

Lemma wf_mem_load (a : Z) (m : CHIP8) : wf m -> wf (snd (mem_load m a)).
Proof. apply wf_with_accessed. Qed.

Lemma wf_cls (m : CHIP8) : wf m -> wf (cls m).
Proof.
  intros H. unfold cls. apply wf_with_dirty, wf_with_display; [|done].
  apply wf_display_ok. reflexivity.
Qed.

Lemma wf_setpixel (m : CHIP8) (row col : Z) : wf m -> wf (setpixel m row col).
Proof.
  intros H. destruct (wf_disp_ok m H) as [Hd _].
  unfold setpixel. apply wf_with_dirty.
  destruct (getpx (display m) row col).
  - apply wf_with_display; [|by apply wf_setV]. by apply disp_ok_putpx_any.
  - apply wf_with_display; [|done]. by apply disp_ok_putpx_any.
Qed.

Lemma wf_draw (m : CHIP8) (inst : Z) : wf m -> wf (draw m inst).
Proof.
  intros H. unfold draw. apply for_u8_inv; [|by apply wf_setV].
  intros row s Hs. unfold draw_row, mem_load. apply for_u8_inv; [|by apply wf_with_accessed].
  intros col s' Hs'. destruct (isbitset _ _); [by apply wf_setpixel|done].
Qed.

Lemma wf_bcd (m : CHIP8) (vx : Z) : wf m -> wf (bcd m vx).
Proof. intros H. unfold bcd. by do 3 apply wf_mem_store. Qed.

Lemma wf_regdmp (m : CHIP8) (vx : Z) : wf m -> wf (regdmp m vx).
Proof. intros H. unfold regdmp. apply for_u8_inv; [|done]. intros. by apply wf_mem_store. Qed.

Lemma wf_regld (m : CHIP8) (vx : Z) : wf m -> wf (regld m vx).
Proof.
  intros H. unfold regld. apply for_u8_inv; [|done]. intros k s Hs.
  unfold mem_load. by apply wf_setV, wf_with_accessed.
Qed.

Lemma wf_call (m m' : CHIP8) (addr : Z) : wf m -> call m addr = Ok m' -> wf m'.
Proof.
  intros H. unfold call, STACK_SIZE. destruct (Z.geb_spec (sp m) 5); [done|].
  intros [= <-]. apply wf_with_pc. wf_intro H. wf_split; try done.
  - by rewrite length_aset.
  - apply Forall_aset; [done|lia].
  - rewrite u16_small; lia.
Qed.

Lemma wf_rts (m m' : CHIP8) : wf m -> rts m = Ok m' -> wf m'.
Proof.
  intros H. unfold rts. destruct (Z.eqb_spec (sp m) 0); [done|].
  intros [= <-]. apply wf_with_pc. wf_intro H. wf_split; try done.
  rewrite u16_small; lia.
Qed.

Lemma wf_fetch (m : CHIP8) : wf m -> wf (snd (fetch m)).
Proof.
  intros H. unfold fetch, mem_load. cbn [snd].
  by apply wf_with_pc, wf_with_accessed, wf_with_pc, wf_with_accessed.
Qed.

Create HintDb wf_db.
#[local] Hint Resolve wf_with_pc wf_with_i wf_with_delay wf_with_sound wf_with_dirty
  wf_with_accessed wf_setV wf_mem_store wf_cls wf_draw wf_bcd wf_regdmp wf_regld
  wf_fetch : wf_db.

Ltac exec_cases :=
  unfold exec; cbv zeta;
  repeat match goal with
         | |- (if ?c then _ else _) = _ -> _ => destruct c
         end.

Lemma exec_wf (rnd pressed inst keyreg : Z) (m : CHIP8) (k' : Z) (m' : CHIP8) :
  wf m -> exec rnd pressed inst keyreg m = Ok (k', m') -> wf m'.
Proof.
  intros Hwf. exec_cases; try discriminate;
    try (intros [= <- <-]; auto 6 with wf_db; fail).
  - destruct (rts m) eqn:E; [|discriminate]. intros [= <- <-]. eauto using wf_rts.
  - destruct (call m _) eqn:E; [|discriminate]. intros [= <- <-]. eauto using wf_call.
Qed.

Lemma cycle_wf (rnd pressed keyreg : Z) (m : CHIP8) (k' : Z) (m' : CHIP8) :
  wf m -> cycle rnd pressed keyreg m = Ok (k', m') -> wf m'.
Proof.
  intros Hwf. unfold cycle. pose proof (wf_fetch m Hwf) as Hf.
  destruct (fetch m) as [inst m1]. by apply exec_wf.
Qed.

Lemma batch_wf (n : nat) (rnd : nat -> Z) (k : nat) (pressed keyreg : Z) (m : CHIP8)
    (k' : Z) (m' : CHIP8) :
  wf m -> batch n rnd k pressed keyreg m = Ok (k', m') -> wf m'.
Proof.
  revert k keyreg m. induction n as [|n IH]; intros k keyreg m Hwf; simpl.
  - by intros [= <- <-].
  - destruct (cycle _ _ _ _) as [[k1 m1]|] eqn:E; [|discriminate]. simpl.
    apply IH. by eapply cycle_wf.
Qed.

Lemma wf_poll (c : Z) (r : RUN) : wf (vm r) -> wf (vm (poll c r)).
Proof.
  intros H. unfold poll. destruct (_ && _); [|done]. cbn [vm]. auto with wf_db.
Qed.

Lemma wf_timers (m : CHIP8) : wf m -> wf (refreshscreen (timers m)).
Proof.
  intros H. unfold refreshscreen, timers.
  repeat match goal with |- context [if ?c then _ else _] => destruct c end;
    auto with wf_db.
Qed.

Lemma tick_wf (inp : INPUT) (r r' : RUN) :
  wf (vm r) -> tick inp r = Ok r' -> wf (vm r').
Proof.
  intros H. unfold tick. pose proof (wf_poll (getch inp) r H) as Hp.
  destruct (batch _ _ _ _ _ _) as [[k1 m1]|] eqn:E; [|discriminate].
  intros [= <-]. cbn [vm fst snd]. apply wf_timers. by eapply batch_wf.
Qed.

Lemma run_from_wf (inps : list INPUT) (r r' : RUN) :
  wf (vm r) -> run_from inps r = Ok r' -> wf (vm r').
Proof.
  revert r. induction inps as [|inp inps IH]; intros r H; simpl.
  - destruct (pressed r =? QUIT); by intros [= <-].
  - destruct (pressed r =? QUIT); [by intros [= <-]|].
    destruct (tick inp r) as [r1|] eqn:E; [|discriminate]. simpl.
    apply IH. by eapply tick_wf.
Qed.
Lemma u16_mod_memory (z : Z) : u16 z mod MEMORY_SIZE = z mod MEMORY_SIZE.
Proof.
  unfold u16, MEMORY_SIZE.
  rewrite (Z.mod_eq z 65536) by lia.
  replace (z - 65536 * (z / 65536)) with (z + (- 16 * (z / 65536)) * 4096) by lia.
  apply Z.mod_add. lia.
Qed.

Lemma fetch_accessed (m : CHIP8) :
  accessed (snd (fetch m)) =
    accessed m ++ [(pc m + 0) mod MEMORY_SIZE; (pc m + 1) mod MEMORY_SIZE].
Proof.
  unfold fetch, mem_load. cbn [snd accessed with_accessed with_pc pc].
  rewrite u16_mod_memory, Z.add_0_r, <- app_assoc. reflexivity.
Qed.

Lemma bcd_accessed (m : CHIP8) (vx : Z) :
  accessed (bcd m vx) =
    accessed m ++ [(i m + 0) mod MEMORY_SIZE; (i m + 1) mod MEMORY_SIZE;
                   (i m + 2) mod MEMORY_SIZE] /\
  i (bcd m vx) = i m /\ length (mem (bcd m vx)) = length (mem m).
Proof.
  unfold bcd, mem_store. cbn [accessed with_accessed with_mem i mem].
  rewrite <- !app_assoc, !length_aset. done.
Qed.

Section Transfer.
Variable vx : Z.
Hypothesis Hvx : vx < 255.

Lemma regdmp_loop (fuel : nat) : forall (k : Z) (m : CHIP8),
  0 <= k -> vx + 1 - k <= Z.of_nat fuel ->
  let m' := for_u8 fuel (fun k _ => k <=? vx)
              (fun k vm => mem_store ((i vm + k) mod MEMORY_SIZE) (V vm k) vm) k m in
  accessed m' = accessed m ++ map (fun j => (i m + j) mod MEMORY_SIZE) (seqZ k (vx + 1 - k)) /\
  i m' = i m /\ length (mem m') = length (mem m).
Proof.
  induction fuel as [|fuel IH]; intros k m Hk Hfuel m'; subst m'.
  - simpl. rewrite seqZ_nil by lia. by rewrite app_nil_r.
  - cbn [for_u8]. destruct (Z.leb_spec k vx).
    + rewrite (u8_small (k + 1)) by lia.
      set (m1 := mem_store ((i m + k) mod MEMORY_SIZE) (V m k) m).
      destruct (IH (k + 1) m1) as (Ha & Hi & Hl); [lia|lia|].
      rewrite Ha, Hi, Hl. subst m1. unfold mem_store.
      cbn [accessed with_accessed with_mem i mem].
      rewrite length_aset, <- app_assoc. split; [|done]. f_equal.
      rewrite (seqZ_cons k) by lia.
      replace (Z.succ k) with (k + 1) by lia.
      replace (Z.pred (vx + 1 - k)) with (vx + 1 - (k + 1)) by lia. done.
    + rewrite seqZ_nil by lia. by rewrite app_nil_r.
Qed.

Lemma regld_loop (fuel : nat) : forall (k : Z) (m : CHIP8),
  0 <= k -> vx + 1 - k <= Z.of_nat fuel ->
  let m' := for_u8 fuel (fun k _ => k <=? vx)
              (fun k vm =>
                 let '(b, vm) := mem_load vm ((i vm + k) mod MEMORY_SIZE) in
                 setV k b vm) k m in
  accessed m' = accessed m ++ map (fun j => (i m + j) mod MEMORY_SIZE) (seqZ k (vx + 1 - k)) /\
  i m' = i m /\ mem m' = mem m.
Proof.
  induction fuel as [|fuel IH]; intros k m Hk Hfuel m'; subst m'.
  - simpl. rewrite seqZ_nil by lia. by rewrite app_nil_r.
  - cbn [for_u8]. destruct (Z.leb_spec k vx).
    + rewrite (u8_small (k + 1)) by lia.
      set (m1 := let '(b, vm) := mem_load m ((i m + k) mod MEMORY_SIZE) in setV k b vm).
      destruct (IH (k + 1) m1) as (Ha & Hi & Hl); [lia|lia|].
      rewrite Ha, Hi, Hl. subst m1. unfold mem_load, setV.
      cbn [accessed with_accessed with_v i mem].
      rewrite <- app_assoc. split; [|done]. f_equal.
      rewrite (seqZ_cons k) by lia.
      replace (Z.succ k) with (k + 1) by lia.
      replace (Z.pred (vx + 1 - k)) with (vx + 1 - (k + 1)) by lia. done.
    + rewrite seqZ_nil by lia. by rewrite app_nil_r.
Qed.
End Transfer.

Lemma regdmp_accessed (m : CHIP8) (x : Z) :
  0 <= x < 16 ->
  accessed (regdmp m x) =
    accessed m ++ map (fun k => (i m + k) mod MEMORY_SIZE) (seqZ 0 (x + 1)) /\
  i (regdmp m x) = i m /\ length (mem (regdmp m x)) = length (mem m).
Proof.
  intros Hx. destruct (regdmp_loop x ltac:(lia) 17 0 m) as (Ha & Hi & Hl); [lia|lia|].
  rewrite Z.sub_0_r in Ha. done.
Qed.

Lemma regld_accessed (m : CHIP8) (x : Z) :
  0 <= x < 16 ->
  accessed (regld m x) =
    accessed m ++ map (fun k => (i m + k) mod MEMORY_SIZE) (seqZ 0 (x + 1)) /\
  i (regld m x) = i m /\ mem (regld m x) = mem m.
Proof.
  intros Hx. destruct (regld_loop x ltac:(lia) 17 0 m) as (Ha & Hi & Hl); [lia|lia|].
  rewrite Z.sub_0_r in Ha. done.
Qed.

Lemma in_bounds_mod (z : Z) : in_bounds (z mod MEMORY_SIZE).
Proof. apply Z.mod_pos_bound. unfold MEMORY_SIZE. lia. Qed.

Lemma Forall_in_bounds_map (base : Z) (l : list Z) :
  Forall in_bounds (map (fun k => (base + k) mod MEMORY_SIZE) l).
Proof. apply Forall_map, Forall_forall. intros. apply in_bounds_mod. Qed.

Lemma draw_accessed (m : CHIP8) (inst : Z) :
  disp_ok (display m) -> length (v m) = 16%nat -> 0 <= i m ->
  accessed (draw m inst) =
    accessed m ++ map (fun r => (i m + r) mod MEMORY_SIZE) (seqZ 0 (draw_rows m inst)).
Proof.
  intros Hd Hlen Hi. destruct (draw_spec m inst Hd Hlen) as (_ & _ & _ & _ & ->).
  f_equal. apply map_ext_in. intros r Hr.
  apply list_elem_of_In, elem_of_seqZ in Hr. unfold draw_rows in Hr.
  rewrite Z.mod_small; [done|]. unfold MEMORY_SIZE in *. lia.
Qed.

Lemma appends_refl (m m' : CHIP8) : accessed m' = accessed m -> appends_in_bounds m m'.
Proof. intros H. exists []. by rewrite app_nil_r. Qed.

Lemma appends_trans (m1 m2 m3 : CHIP8) :
  appends_in_bounds m1 m2 -> appends_in_bounds m2 m3 -> appends_in_bounds m1 m3.
Proof.
  intros (n1 & E1 & F1) (n2 & E2 & F2). exists (n1 ++ n2).
  rewrite E2, E1, app_assoc. split; [done|]. by apply Forall_app.
Qed.

Lemma exec_safe (rnd pressed inst keyreg : Z) (m : CHIP8) (k' : Z) (m' : CHIP8) :
  wf m -> exec rnd pressed inst keyreg m = Ok (k', m') -> appends_in_bounds m m'.
Proof.
  intros Hwf. destruct (wf_disp_ok m Hwf) as [Hd Hlen].
  pose proof (op_X_range inst) as HX.
  assert (0 <= i m) as Hi by (apply wf_iff in Hwf as []; lia).
  exec_cases; try discriminate;
    try (intros [= <- <-]; apply appends_refl; reflexivity).
  - destruct (rts m) eqn:E; [|discriminate]. intros [= <- <-].
    apply appends_refl. unfold rts in E. destruct (sp m =? 0); [done|].
    by injection E as <-.
  - destruct (call m _) eqn:E; [|discriminate]. intros [= <- <-].
    apply appends_refl. unfold call in E. destruct (sp m >=? STACK_SIZE); [done|].
    by injection E as <-.
  - intros [= <- <-]. eexists. split; [by apply draw_accessed|].
    apply Forall_in_bounds_map.
  - intros [= <- <-]. eexists. split; [apply bcd_accessed|].
    repeat constructor; apply in_bounds_mod.
  - intros [= <- <-]. eexists. split; [by apply regdmp_accessed|].
    apply Forall_in_bounds_map.
  - intros [= <- <-]. eexists. split; [by apply regld_accessed|].
    apply Forall_in_bounds_map.
Qed.

(** ** Every access of a run lies within memory *)

Lemma cycle_safe (rnd pressed keyreg : Z) (m : CHIP8) (k' : Z) (m' : CHIP8) :
  wf m -> cycle rnd pressed keyreg m = Ok (k', m') -> appends_in_bounds m m'.
Proof.
  intros Hwf. unfold cycle. pose proof (wf_fetch m Hwf) as Hf.
  pose proof (fetch_accessed m) as Ha.
  destruct (fetch m) as [inst m1]. cbn [snd] in *. intros He.
  apply (appends_trans m m1 m'); [|by eapply exec_safe].
  eexists. split; [exact Ha|]. repeat constructor; apply in_bounds_mod.
Qed.

Lemma batch_safe (n : nat) (rnd : nat -> Z) (k : nat) (pressed keyreg : Z) (m : CHIP8)
    (k' : Z) (m' : CHIP8) :
  wf m -> batch n rnd k pressed keyreg m = Ok (k', m') -> appends_in_bounds m m'.
Proof.
  revert k keyreg m. induction n as [|n IH]; intros k keyreg m Hwf; simpl.
  - intros [= <- <-]. by apply appends_refl.
  - destruct (cycle _ _ _ _) as [[k1 m1]|] eqn:E; [|discriminate]. simpl. intros Hb.
    apply (appends_trans m m1 m'); [by eapply cycle_safe|].
    eapply IH; [|exact Hb]. by eapply cycle_wf.
Qed.

Lemma tick_safe (inp : INPUT) (r r' : RUN) :
  wf (vm r) -> tick inp r = Ok r' -> appends_in_bounds (vm r) (vm r').
Proof.
  intros H. unfold tick. pose proof (wf_poll (getch inp) r H) as Hp.
  destruct (batch _ _ _ _ _ _) as [[k1 m1]|] eqn:E; [|discriminate].
  intros [= <-]. cbn [vm fst snd].
  apply (appends_trans _ (vm (poll (getch inp) r))).
  { apply appends_refl. unfold poll. by destruct (_ && _). }
  apply (appends_trans _ m1); [by eapply batch_safe|].
  apply appends_refl. unfold refreshscreen, timers.
  by repeat match goal with |- context [if ?c then _ else _] => destruct c end.
Qed.

Lemma run_from_safe (inps : list INPUT) (r r' : RUN) :
  wf (vm r) -> run_from inps r = Ok r' -> appends_in_bounds (vm r) (vm r').
Proof.
  revert r. induction inps as [|inp inps IH]; intros r H; simpl.
  - destruct (pressed r =? QUIT); intros [= <-]; by apply appends_refl.
  - destruct (pressed r =? QUIT); [intros [= <-]; by apply appends_refl|].
    destruct (tick inp r) as [r1|] eqn:E; [|discriminate]. simpl. intros Hr.
    apply (appends_trans _ (vm r1)); [by eapply tick_safe|].
    eapply IH; [|exact Hr]. by eapply tick_wf.
Qed.

(** ** Start-up yields a well-formed machine *)

Lemma memcpy_length (src buf : list Z) (addr : Z) :
  length (memcpy buf addr src) = length buf.
Proof.
  revert buf addr. induction src as [|b src IH]; intros buf addr; simpl; [done|].
  by rewrite IH, length_aset.
Qed.

Lemma memcpy_Forall (P : Z -> Prop) (src buf : list Z) (addr : Z) :
  Forall P src -> Forall P buf -> Forall P (memcpy buf addr src).
Proof.
  revert buf addr. induction src as [|b src IH]; intros buf addr Hs Hb; simpl; [done|].
  apply Forall_cons_iff in Hs as [Hb0 Hs]. apply IH; [done|]. by apply Forall_aset.
Qed.

Lemma Ok_inj {T : Type} (a b : T) : Ok a = Ok b -> a = b.
Proof. by intros [= ->]. Qed.

Lemma loadfonts_ok (buf : list Z) (addr : Z) (buf' : list Z) :
  loadfonts buf addr = Ok buf' -> buf' = memcpy buf addr font.
Proof.
  unfold loadfonts. destruct (_ >=? _); [discriminate|].
  intros H. symmetry. by apply Ok_inj.
Qed.

Lemma boot_wf (addr ipt : Z) (km : string) (rom : list Z) (m : CHIP8) :
  0 <= addr < MEMORY_SIZE -> Forall (fun b => 0 <= b < 256) rom ->
  boot addr ipt km rom = Ok m -> wf m.
Proof.
  intros Haddr Hrom. unfold boot.
  destruct (loadfonts _ _) as [buf|] eqn:E; [|discriminate].
  apply loadfonts_ok in E. cbn [obind]. intros H. apply Ok_inj in H. subst m.
  apply wf_iff.
  constructor; cbn [mem stack pc sp i delay sound v display].
  - unfold loadrom. subst buf. by rewrite !memcpy_length.
  - unfold loadrom. apply memcpy_Forall; [by apply Forall_take|].
    subst buf. apply memcpy_Forall.
    + apply (forallb_Forall in_u8 _ font in_u8_spec). reflexivity.
    + apply Forall_replicate. lia.
  - reflexivity.
  - apply Forall_replicate. lia.
  - unfold MEMORY_SIZE in Haddr. lia.
  - lia.
  - lia.
  - lia.
  - lia.
  - reflexivity.
  - apply Forall_replicate. lia.
  - reflexivity.
  - apply Forall_replicate. reflexivity.
Qed.

(** C8, as the code has it.  On a well-formed machine the indices used on
    [mem] are: by [fetch], [pc] and [pc + 1] modulo the memory size; by
    [bcd], [I], [I + 1] and [I + 2] modulo the memory size; by [regdmp]
    and [regld], [I + k] modulo the memory size for k from 0 to x; by
    [draw], [I + row] for the rows it gets to, which lie below the memory
    size and so equal their residue.  Whatever the inputs, a run that goes
    on from a well-formed machine keeps it well-formed, [mem] keeping its
    4096 bytes, and uses only indices from 0 to 4095.  The program counter
    itself advances by 2 per fetch modulo 2^16, the range of its type, not
    modulo the memory size. *)
Theorem memory_accesses_in_bounds (m : CHIP8) :
  wf m ->
  (accessed (snd (fetch m)) =
     accessed m ++ [(pc m + 0) mod MEMORY_SIZE; (pc m + 1) mod MEMORY_SIZE] /\
   pc (snd (fetch m)) = (pc m + 2) mod 65536) /\
  (forall vx,
     accessed (bcd m vx) =
       accessed m ++ [(i m + 0) mod MEMORY_SIZE; (i m + 1) mod MEMORY_SIZE;
                      (i m + 2) mod MEMORY_SIZE]) /\
  (forall x, 0 <= x < 16 ->
     accessed (regdmp m x) =
       accessed m ++ map (fun k => (i m + k) mod MEMORY_SIZE) (seqZ 0 (x + 1))) /\
  (forall x, 0 <= x < 16 ->
     accessed (regld m x) =
       accessed m ++ map (fun k => (i m + k) mod MEMORY_SIZE) (seqZ 0 (x + 1))) /\
  (forall inst,
     accessed (draw m inst) =
       accessed m ++ map (fun r => (i m + r) mod MEMORY_SIZE) (seqZ 0 (draw_rows m inst))) /\
  (forall inps k p r',
     run_from inps (mkRUN k p m) = Ok r' ->
     wf (vm r') /\ length (mem (vm r')) = Z.to_nat MEMORY_SIZE /\
     appends_in_bounds m (vm r')).
Proof.
  intros Hwf. destruct (wf_disp_ok m Hwf) as [Hd Hlen].
  assert (0 <= i m) as Hi by (apply wf_iff in Hwf as []; lia).
  split; [split; [apply fetch_accessed|apply fetch_pc]|].
  split; [intros vx; apply bcd_accessed|].
  split; [intros x Hx; by apply regdmp_accessed|].
  split; [intros x Hx; by apply regld_accessed|].
  split; [intros inst; by apply draw_accessed|].
  intros inps k p r' Hrun.
  assert (wf (vm r')) as Hwf' by (by eapply (run_from_wf inps (mkRUN k p m))).
  split; [exact Hwf'|]. split.
  - apply wf_iff in Hwf' as []. done.
  - by apply (run_from_safe inps (mkRUN k p m)).
Qed.

Lemma memory_accesses_in_bounds_witness :
  wf vm_top /\
  accessed (snd (fetch vm_top)) = [4094; 4095] /\
  accessed (regdmp vm_top 2) = [0; 1; 2].
Proof.
  assert (wf vm_top) as Hwf by (vm_compute; reflexivity).
  split; [exact Hwf|].
  destruct (memory_accesses_in_bounds vm_top Hwf) as ((Hf & _) & _ & Hd & _).
  split; [rewrite Hf; reflexivity|].
  rewrite Hd by lia. reflexivity.
Defined.

(** C8, as the specification words it, fails for the program counter: a
    fetch from 4094 leaves it at 4096, not at 0. *)
Lemma pc_wraps_at_65536_not_4096 :
  wf vm_top /\
  pc (snd (fetch vm_top)) = 4096 /\
  pc (snd (fetch vm_top)) <> (pc vm_top + 2) mod MEMORY_SIZE.
Proof.
  split; [vm_compute; reflexivity|]. split; [reflexivity|]. vm_compute. discriminate.
Qed.

(** A run of a machine as [main] boots it, from a load address within
    memory, is such a run: well-formed throughout, every index within
    [mem]. *)
Lemma booted_run_in_bounds (addr ipt : Z) (km : string) (rom : list Z)
    (inps : list INPUT) (m : CHIP8) (r : RUN) :
  0 <= addr < MEMORY_SIZE -> Forall (fun b => 0 <= b < 256) rom ->
  boot addr ipt km rom = Ok m -> run inps m = Ok r ->
  wf (vm r) /\ Forall in_bounds (accessed (vm r)).
Proof.
  intros Haddr Hrom Hboot Hrun. pose proof (boot_wf _ _ _ _ _ Haddr Hrom Hboot) as Hwf.
  unfold run in Hrun.
  split; [by apply (run_from_wf inps (mkRUN 17 NOKEY m) r Hwf)|].
  destruct (run_from_safe inps (mkRUN 17 NOKEY m) r Hwf Hrun) as (new & -> & Hnew).
  cbn [vm]. replace (accessed m) with (@nil Z); [done|].
  unfold boot in Hboot. destruct (loadfonts _ _); [|discriminate].
  cbn [obind] in Hboot. apply Ok_inj in Hboot. by subst m.
Qed.

(** * Further properties of the interpreter *)

(** ** The decoding macros *)

Lemma op_fields (inst : Z) :
  Op.A inst = (inst / 4096) mod 16 /\ Op.X inst = (inst / 256) mod 16 /\
  Op.Y inst = (inst / 16) mod 16 /\ Op.D inst = inst mod 16 /\
  Op.B inst = inst mod 256 /\ Op.LH inst = inst mod 256 /\ Op.VAL inst = inst mod 4096.
Proof.
  unfold Op.A, Op.X, Op.Y, Op.D, Op.B, Op.LH, Op.VAL.
  change 0x0F with (Z.ones 4). change 0x0FF with (Z.ones 8).
  change 0x0FFF with (Z.ones 12).
  rewrite !Z.land_ones, !Z.shiftr_div_pow2 by lia. done.
Qed.

(** X1.  The macros [A], [X], [Y], [D] take a 16-bit instruction word
    apart into its four nibbles, most significant first: a word put
    together from four nibbles decodes to them, [VAL] is the low twelve
    bits, [B] and [LH] the low byte, and every 16-bit word is the sum of
    its nibbles in their places. *)
Theorem decode_round_trip (a x y d : Z) :
  0 <= a < 16 -> 0 <= x < 16 -> 0 <= y < 16 -> 0 <= d < 16 ->
  let inst := a * 4096 + x * 256 + y * 16 + d in
  Op.A inst = a /\ Op.X inst = x /\ Op.Y inst = y /\ Op.D inst = d /\
  Op.VAL inst = x * 256 + y * 16 + d /\ Op.B inst = y * 16 + d /\
  Op.LH inst = y * 16 + d /\
  forall w, 0 <= w < 65536 ->
    w = Op.A w * 4096 + Op.X w * 256 + Op.Y w * 16 + Op.D w.
Proof.
  intros Ha Hx Hy Hd inst.
  destruct (op_fields inst) as (-> & -> & -> & -> & -> & -> & ->). subst inst.
  split_and!; try (Z.to_euclidean_division_equations; lia).
  intros w Hw. destruct (op_fields w) as (-> & -> & -> & -> & _).
  Z.to_euclidean_division_equations. lia.
Qed.

Lemma decode_round_trip_witness :
  Op.A 0x8014 = 8 /\ Op.X 0x8014 = 0 /\ Op.Y 0x8014 = 1 /\ Op.D 0x8014 = 4.
Proof.
  destruct (decode_round_trip 8 0 1 4) as (H1 & H2 & H3 & H4 & _); try lia.
  split; [exact H1|]. split; [exact H2|]. split; [exact H3|exact H4].
Defined.

(** ** Fetch *)

Lemma aget_range (l : list Z) (k lo hi : Z) :
  Forall (fun b => lo <= b < hi) l -> lo <= 0 < hi -> lo <= aget 0 l k < hi.
Proof.
  intros Hl H0. unfold aget. destruct (0 <=? k); [|done].
  destruct (l !! Z.to_nat k) as [b|] eqn:E; simpl; [|done].
  by apply (Forall_lookup_1 _ _ _ _ Hl E).
Qed.

Lemma V_range (m : CHIP8) (k : Z) : wf m -> 0 <= V m k < 256.
Proof.
  intros Hwf. apply wf_iff in Hwf as [_ _ _ _ _ _ _ _ _ _ Hv _ _].
  unfold V. apply aget_range; [done|lia].
Qed.

(** What [fetch] leaves alone: everything but [pc] and the access log. *)
Lemma fetch_keeps (m : CHIP8) :
  mem (snd (fetch m)) = mem m /\ stack (snd (fetch m)) = stack m /\
  sp (snd (fetch m)) = sp m /\ i (snd (fetch m)) = i m /\
  v (snd (fetch m)) = v m /\ display (snd (fetch m)) = display m /\
  dirty (snd (fetch m)) = dirty m /\ delay (snd (fetch m)) = delay m /\
  sound (snd (fetch m)) = sound m /\ keymap (snd (fetch m)) = keymap m /\
  inspertick (snd (fetch m)) = inspertick m.
Proof. by unfold fetch, mem_load. Qed.

(** X2.  [fetch] reads the instruction word big-endian, high byte at
    [pc] and low byte at [pc + 1], both addresses taken modulo the memory
    size; the word lies within 16 bits; [pc] has advanced by 2 modulo
    2^16 and nothing else of the machine has changed but the access
    log. *)
Theorem fetch_big_endian (m : CHIP8) :
  wf m ->
  fst (fetch m) =
    256 * aget 0 (mem m) (pc m mod MEMORY_SIZE) + aget 0 (mem m) ((pc m + 1) mod MEMORY_SIZE) /\
  0 <= fst (fetch m) < 65536 /\
  pc (snd (fetch m)) = (pc m + 2) mod 65536 /\
  same_program (with_pc (pc m + 2) m) (snd (fetch m)) /\
  delay (snd (fetch m)) = delay m /\ sound (snd (fetch m)) = sound m /\
  dirty (snd (fetch m)) = dirty m.
Proof.
  intros Hwf. apply wf_iff in Hwf as [Hml Hm Hsl Hs Hpc Hsp Hi Hd Hso Hvl Hv Hdl Hdr].
  pose proof (aget_range (mem m) (pc m mod MEMORY_SIZE) 0 256 Hm ltac:(lia)) as H1.
  pose proof (aget_range (mem m) ((pc m + 1) mod MEMORY_SIZE) 0 256 Hm ltac:(lia)) as H2.
  assert (fst (fetch m) =
    256 * aget 0 (mem m) (pc m mod MEMORY_SIZE) + aget 0 (mem m) ((pc m + 1) mod MEMORY_SIZE))
    as Hw.
  { unfold fetch, mem_load. cbn [fst snd mem pc with_pc with_accessed].
    rewrite u16_mod_memory, Z.shiftl_mul_pow2 by lia.
    rewrite u16_small; lia. }
  split; [exact Hw|]. split; [rewrite Hw; lia|].
  split; [apply fetch_pc|]. split; [|done].
  pose proof (fetch_pc m) as Hfp. unfold same_program.
  repeat split. rewrite Hfp. reflexivity.
Qed.

Lemma fetch_big_endian_witness : wf vm_skip /\ fst (fetch vm_skip) = 0x3000.
Proof.
  assert (wf vm_skip) as Hwf by (vm_compute; reflexivity).
  split; [exact Hwf|].
  destruct (fetch_big_endian vm_skip Hwf) as (H & _). rewrite H.
  vm_compute. reflexivity.
Defined.

(** ** The instruction set and the ways [exec] dies *)

Ltac exec_cases_eqn :=
  unfold exec; cbv zeta;
  repeat match goal with
         | |- (if ?c then _ else _) = _ -> _ => destruct c eqn:?
         end.

Ltac branch_facts :=
  repeat match goal with
         | H : (_ && _) = true |- _ => apply andb_true_iff in H as [? ?]
         | H : (_ =? _) = true |- _ => apply Z.eqb_eq in H
         end.

Ltac implemented_here :=
  unfold implemented;
  repeat match goal with
         | H : Op.A _ = _ |- _ => rewrite H; clear H
         | H : Op.B _ = _ |- _ => rewrite H; clear H
         | H : Op.D _ = _ |- _ => rewrite H; clear H
         | H : ?x = _ |- _ => is_var x; rewrite H; clear H
         end;
  vm_compute; reflexivity.

Lemma exec_implemented (rnd pressed inst keyreg : Z) (m : CHIP8)
    (o : outcome (Z * CHIP8)) :
  exec rnd pressed inst keyreg m = o ->
  (implemented inst = false /\ o = Die "invalid instruction") \/
  (implemented inst = true /\ o <> Die "invalid instruction").
Proof.
  pose proof (op_fields inst) as (HA & _ & _ & HD & _).
  assert (0 <= Op.A inst < 16) as HrA by (rewrite HA; apply Z.mod_pos_bound; lia).
  assert (0 <= Op.D inst < 16) as HrD by (rewrite HD; apply Z.mod_pos_bound; lia).
  clear HA HD.
  exec_cases_eqn; intros <-.
  all: try match goal with
           | |- _ \/ (_ /\ Die _ <> _) =>
               left; split; [|done];
               assert (Op.A inst = 0 \/ Op.A inst = 1 \/ Op.A inst = 2 \/ Op.A inst = 3 \/
                       Op.A inst = 4 \/ Op.A inst = 5 \/ Op.A inst = 6 \/ Op.A inst = 7 \/
                       Op.A inst = 8 \/ Op.A inst = 9 \/ Op.A inst = 10 \/ Op.A inst = 11 \/
                       Op.A inst = 12 \/ Op.A inst = 13 \/ Op.A inst = 14 \/ Op.A inst = 15)
                 as Hcases by lia;
               unfold implemented;
               repeat destruct Hcases as [E|Hcases]; try rename Hcases into E;
               rewrite E in *; cbn [Z.eqb Pos.eqb andb existsb] in *; try discriminate;
               repeat match goal with
                      | H : (_ =? _) = false |- _ => apply Z.eqb_neq in H
                      end;
               apply not_true_iff_false; intros Hg;
               rewrite ?orb_true_iff, ?Z.eqb_eq, ?Z.leb_le in Hg; lia
           end.
  all: right; branch_facts.
  all: try (split; [implemented_here|discriminate]).
  - split; [implemented_here|]. unfold rts. destruct (sp m =? 0); discriminate.
  - split; [implemented_here|]. unfold call. destruct (sp m >=? STACK_SIZE); discriminate.
Qed.

Lemma exec_die_cases (rnd pressed inst keyreg : Z) (m : CHIP8) (msg : string) :
  exec rnd pressed inst keyreg m = Die msg ->
  (msg = "stack underflow"%string /\ inst = 0x00EE /\ sp m = 0) \/
  (msg = "stack overflow"%string /\ Op.A inst = 2 /\ STACK_SIZE <= sp m) \/
  msg = "invalid instruction"%string.
Proof.
  exec_cases_eqn; try discriminate.
  - unfold rts. destruct (Z.eqb_spec (sp m) 0); [|discriminate].
    intros [= <-]. left. split; [done|]. split; [by apply Z.eqb_eq|done].
  - unfold call. destruct (Z.geb_spec (sp m) STACK_SIZE); [|discriminate].
    intros [= <-]. right. left. split; [done|]. split; [by apply Z.eqb_eq|lia].
  - intros [= <-]. right. by right.
Qed.

(** X3.  [exec] dies in three ways and no other: with "invalid
    instruction" exactly on the words that are not among the implemented
    bit patterns, with "stack underflow" exactly on [00EE] with an empty
    stack, with "stack overflow" exactly on [2nnn] with a full one.  On
    every other word and state it returns. *)
Theorem exec_dies_exactly (rnd pressed inst keyreg : Z) (m : CHIP8) :
  (exec rnd pressed inst keyreg m = Die "invalid instruction" <->
   implemented inst = false) /\
  (exec rnd pressed inst keyreg m = Die "stack underflow" <->
   inst = 0x00EE /\ sp m = 0) /\
  (exec rnd pressed inst keyreg m = Die "stack overflow" <->
   Op.A inst = 2 /\ STACK_SIZE <= sp m) /\
  (forall msg, exec rnd pressed inst keyreg m = Die msg ->
     msg = "invalid instruction"%string \/ msg = "stack underflow"%string \/
     msg = "stack overflow"%string) /\
  (implemented inst = true -> ~ (inst = 0x00EE /\ sp m = 0) ->
   ~ (Op.A inst = 2 /\ STACK_SIZE <= sp m) ->
   exists k' m', exec rnd pressed inst keyreg m = Ok (k', m')).
Proof.
  pose proof (exec_implemented rnd pressed inst keyreg m _ eq_refl) as Himp.
  pose proof (exec_die_cases rnd pressed inst keyreg m) as Hdie.
  split_and!.
  - split.
    + intros E. rewrite E in Himp. by destruct Himp as [[? _]|[_ ?]].
    + intros E. destruct Himp as [[_ ?]|[? _]]; [done|congruence].
  - split.
    + intros E. destruct (Hdie _ E) as [(_ & ? & ?)|[(? & _)|?]]; done.
    + intros [-> Hsp]. rewrite exec_rts. unfold rts. by rewrite Hsp.
  - split.
    + intros E. destruct (Hdie _ E) as [(? & _)|[(_ & ? & ?)|?]]; done.
    + intros [HA Hsp]. rewrite exec_call by done. unfold call.
      destruct (Z.geb_spec (sp m) STACK_SIZE); [done|lia].
  - intros msg E. destruct (Hdie _ E) as [(? & _)|[(? & _)|?]]; auto.
  - intros Hi Hu Ho. destruct (exec rnd pressed inst keyreg m) as [[k' m']|msg] eqn:E.
    + by exists k', m'.
    + exfalso. destruct (Hdie _ eq_refl) as [(_ & ? & ?)|[(_ & ? & ?)| ->]]; [tauto|tauto|].
      destruct Himp as [[? _]|[_ ?]]; congruence.
Qed.

(** ** What an instruction leaves alone *)

Section Keeps.
Context {T : Type} (f : CHIP8 -> T).

Lemma draw_keeps :
  (forall s x, f (with_display x s) = f s) -> (forall s x, f (with_dirty x s) = f s) ->
  (forall s x, f (with_v x s) = f s) -> (forall s x, f (with_accessed x s) = f s) ->
  forall m inst, f (draw m inst) = f m.
Proof.
  intros Hdisp Hdirty Hv Hacc m inst. unfold draw.
  apply (for_u8_inv (fun s => f s = f m)); [|unfold setV; by rewrite Hv].
  intros row s Hs. unfold draw_row, mem_load.
  apply (for_u8_inv (fun s' => f s' = f m)); [|by rewrite Hacc].
  intros col s' Hs'. destruct (isbitset _ _); [|done].
  unfold setpixel. rewrite Hdirty. destruct (getpx _ _ _); rewrite Hdisp; [|done].
  unfold setV. by rewrite Hv.
Qed.

Lemma regld_keeps :
  (forall s x, f (with_v x s) = f s) -> (forall s x, f (with_accessed x s) = f s) ->
  forall m vx, f (regld m vx) = f m.
Proof.
  intros Hv Hacc m vx. unfold regld.
  apply (for_u8_inv (fun s => f s = f m)); [|done].
  intros k s Hs. unfold mem_load, setV. by rewrite Hv, Hacc.
Qed.

Lemma mem_store_keeps :
  (forall s x, f (with_mem x s) = f s) -> (forall s x, f (with_accessed x s) = f s) ->
  forall a val m, f (mem_store a val m) = f m.
Proof. intros Hm Hacc a val m. unfold mem_store. by rewrite Hacc, Hm. Qed.

Lemma regdmp_keeps :
  (forall s x, f (with_mem x s) = f s) -> (forall s x, f (with_accessed x s) = f s) ->
  forall m vx, f (regdmp m vx) = f m.
Proof.
  intros Hm Hacc m vx. unfold regdmp.
  apply (for_u8_inv (fun s => f s = f m)); [|done].
  intros k s Hs. by rewrite mem_store_keeps.
Qed.

Lemma bcd_keeps :
  (forall s x, f (with_mem x s) = f s) -> (forall s x, f (with_accessed x s) = f s) ->
  forall m vx, f (bcd m vx) = f m.
Proof. intros Hm Hacc m vx. unfold bcd. by rewrite !mem_store_keeps. Qed.
End Keeps.

Lemma rts_keeps {T : Type} (f : CHIP8 -> T) (m m' : CHIP8) :
  (forall s x, f (with_pc x s) = f s) -> (forall s x, f (with_sp x s) = f s) ->
  rts m = Ok m' -> f m' = f m.
Proof.
  intros Hpc Hsp. unfold rts. destruct (sp m =? 0); [discriminate|].
  intros H. apply Ok_inj in H. subst m'. by rewrite Hpc, Hsp.
Qed.

Lemma call_keeps {T : Type} (f : CHIP8 -> T) (m m' : CHIP8) (addr : Z) :
  (forall s x, f (with_pc x s) = f s) -> (forall s x, f (with_sp x s) = f s) ->
  (forall s x, f (with_stack x s) = f s) ->
  call m addr = Ok m' -> f m' = f m.
Proof.
  intros Hpc Hsp Hst. unfold call. destruct (sp m >=? STACK_SIZE); [discriminate|].
  intros H. apply Ok_inj in H. subst m'. by rewrite Hpc, Hsp, Hst.
Qed.

Ltac not_writer Hw :=
  exfalso;
  unfold writes_mem, writes_i, writes_screen, writes_stack, writes_timers in Hw;
  repeat match goal with
         | H : Op.A _ = _ |- _ => rewrite H in Hw; clear H
         | H : Op.B _ = _ |- _ => rewrite H in Hw; clear H
         | H : Op.D _ = _ |- _ => rewrite H in Hw; clear H
         | H : ?x = _ |- _ => is_var x; rewrite H in Hw; clear H
         | H : (_ =? _) = false |- _ => rewrite H in Hw
         end;
  vm_compute in Hw; discriminate Hw.

Ltac keeps_tac :=
  first [ reflexivity
        | apply draw_keeps; intros; reflexivity
        | apply regld_keeps; intros; reflexivity
        | apply regdmp_keeps; intros; reflexivity
        | apply bcd_keeps; intros; reflexivity
        | eapply rts_keeps; [| |eassumption]; intros; reflexivity
        | eapply call_keeps; [| | |eassumption]; intros; reflexivity ].

Ltac frame_goal :=
  intros;
  first [ keeps_tac
        | match goal with
          | Hw : _ = false |- _ => not_writer Hw
          end ].

(** The frame of one instruction, field by field. *)
Lemma exec_frame (rnd pressed inst keyreg : Z) (m : CHIP8) (k' : Z) (m' : CHIP8) :
  exec rnd pressed inst keyreg m = Ok (k', m') ->
  (writes_mem inst = false -> mem m' = mem m) /\
  (writes_i inst = false -> i m' = i m) /\
  (writes_screen inst = false -> display m' = display m /\ dirty m' = dirty m) /\
  (writes_stack inst = false -> stack m' = stack m /\ sp m' = sp m) /\
  (writes_timers inst = false -> delay m' = delay m /\ sound m' = sound m) /\
  keymap m' = keymap m /\ inspertick m' = inspertick m.
Proof.
  exec_cases_eqn; try discriminate;
    try (intros [= <- <-]; branch_facts; repeat split; frame_goal).
  - destruct (rts m) as [m1|] eqn:E; cbn [obind]; [|discriminate]. intros [= <- <-].
    branch_facts. repeat split; frame_goal.
  - destruct (call m _) as [m1|] eqn:E; cbn [obind]; [|discriminate]. intros [= <- <-].
    branch_facts. repeat split; frame_goal.
Qed.

(** X4.  One fetch-execute cycle changes only what its instruction is
    there to change: memory is written by [Fx33] and [Fx55] alone, the
    index register by [Annn], [Fx1E] and [Fx29], the screen and the dirty
    flag by [00E0] and [Dxyn], the stack and its pointer by [00EE] and
    [2nnn], the timers by [Fx15] and [Fx18]; the keymap and the number of
    instructions per tick by none. *)
Theorem cycle_writes_only (rnd pressed keyreg : Z) (m : CHIP8) (k' : Z) (m' : CHIP8) :
  cycle rnd pressed keyreg m = Ok (k', m') ->
  let inst := fst (fetch m) in
  (writes_mem inst = false -> mem m' = mem m) /\
  (writes_i inst = false -> i m' = i m) /\
  (writes_screen inst = false -> display m' = display m /\ dirty m' = dirty m) /\
  (writes_stack inst = false -> stack m' = stack m /\ sp m' = sp m) /\
  (writes_timers inst = false -> delay m' = delay m /\ sound m' = sound m) /\
  keymap m' = keymap m /\ inspertick m' = inspertick m.
Proof.
  unfold cycle.
  pose proof (fetch_keeps m) as (Fm & Fst & Fsp & Fi & Fv & Fd & Fdi & Fde & Fso & Fk & Fn).
  destruct (fetch m) as [inst m1]. cbn [fst snd] in *. intros E.
  apply exec_frame in E as (Hm & Hi & Hs & Hst & Ht & Hk & Hn).
  split_and!.
  - intros H. rewrite (Hm H). exact Fm.
  - intros H. rewrite (Hi H). exact Fi.
  - intros H. destruct (Hs H) as [-> ->]. by split.
  - intros H. destruct (Hst H) as [-> ->]. by split.
  - intros H. destruct (Ht H) as [-> ->]. by split.
  - by rewrite Hk.
  - by rewrite Hn.
Qed.

Lemma cycle_writes_only_witness :
  exists m', cycle 0 NOKEY 17 vm_skip = Ok (17, m') /\
             mem m' = mem vm_skip /\ display m' = display vm_skip.
Proof.
  destruct (cycle 0 NOKEY 17 vm_skip) as [[k m']|msg] eqn:E;
    [|vm_compute in E; discriminate E].
  assert (k = 17) as -> by (vm_compute in E; congruence).
  exists m'. split; [reflexivity|].
  destruct (cycle_writes_only 0 NOKEY 17 vm_skip 17 m' E) as (Hm & _ & Hs & _).
  split; [apply Hm; reflexivity|]. apply Hs. reflexivity.
Defined.

(** ** Registers an instruction leaves alone *)

Lemma draw_V (m : CHIP8) (inst r : Z) : r <> 0xF -> V (draw m inst) r = V m r.
Proof.
  intros Hr. unfold draw.
  apply (for_u8_inv (fun s => V s r = V m r)); [|by apply V_setV_ne].
  intros row s Hs. unfold draw_row, mem_load.
  apply (for_u8_inv (fun s' => V s' r = V m r)); [|done].
  intros col s' Hs'. destruct (isbitset _ _); [|done].
  unfold setpixel. destruct (getpx _ _ _); [|done].
  change (V (with_dirty true (with_display ?d ?s0)) r) with (V s0 r).
  by rewrite V_setV_ne.
Qed.

Lemma regld_loop_above (vx r : Z) (fuel : nat) (k : Z) (m : CHIP8) :
  vx < r ->
  V (for_u8 fuel (fun k _ => k <=? vx)
       (fun k vm =>
          let '(b, vm) := mem_load vm ((i vm + k) mod MEMORY_SIZE) in
          setV k b vm) k m) r = V m r.
Proof.
  intros Hr. revert k m. induction fuel as [|fuel IH]; intros k m; cbn [for_u8]; [done|].
  destruct (Z.leb_spec k vx); [|done]. rewrite IH. unfold mem_load.
  change (V (setV k ?b (with_accessed ?a m)) r) with (V (setV k b m) r).
  apply V_setV_ne. lia.
Qed.

Lemma regld_V (m : CHIP8) (vx r : Z) : vx < r -> V (regld m vx) r = V m r.
Proof. intros Hr. unfold regld. exact (regld_loop_above vx r 17 0 m Hr). Qed.

Lemma writes_v_false (inst r : Z) :
  writes_v inst r = false ->
  (writes_vx inst = true -> r <> Op.X inst) /\
  (writes_vf inst = true -> r <> 0xF) /\
  (loads_v inst = true -> Op.X inst < r).
Proof.
  unfold writes_v. intros H.
  apply orb_false_iff in H as [H H3]. apply orb_false_iff in H as [H1 H2].
  split_and!; intros E; rewrite E in *.
  - rewrite andb_true_r in H1. by apply Z.eqb_neq in H1.
  - rewrite andb_true_r in H2. by apply Z.eqb_neq in H2.
  - cbn [andb] in H3. by apply Z.leb_gt in H3.
Qed.

Ltac is_writer H :=
  apply H; unfold writes_vx, writes_vf, loads_v;
  repeat match goal with
         | E : Op.A _ = _ |- _ => rewrite E; clear E
         | E : Op.B _ = _ |- _ => rewrite E; clear E
         | E : Op.D _ = _ |- _ => rewrite E; clear E
         end;
  vm_compute; reflexivity.

Ltac regs_goal HX HF HL :=
  first
    [ reflexivity
    | apply draw_V; is_writer HF
    | apply regld_V; is_writer HL
    | apply (bcd_keeps (fun s => V s _)); reflexivity
    | apply (regdmp_keeps (fun s => V s _)); reflexivity
    | rewrite !V_setV_ne; [reflexivity| |]; apply not_eq_sym;
      first [is_writer HX | is_writer HF]
    | rewrite V_setV_ne; [reflexivity|]; apply not_eq_sym;
      first [is_writer HX | is_writer HF] ].

(** X5.  An instruction writes no register but its own: Vx for [6xkk],
    [7xkk], [8xy_], [Cxkk] and [Fx07]; VF for [Dxyn], [8xy4], [8xy5],
    [8xy6], [8xyE] and [Fx1E]; V0 to Vx for [Fx65].  Every other register
    holds after the instruction what it held before; so the logical
    operations and [8xy7] leave VF alone. *)
Theorem exec_writes_registers_only (rnd pressed inst keyreg : Z) (m : CHIP8)
    (k' : Z) (m' : CHIP8) (r : Z) :
  exec rnd pressed inst keyreg m = Ok (k', m') ->
  writes_v inst r = false ->
  V m' r = V m r.
Proof.
  intros E Hw. apply writes_v_false in Hw as (HX & HF & HL). revert E.
  exec_cases_eqn; try discriminate;
    try (intros [= <- <-]; branch_facts; regs_goal HX HF HL).
  - destruct (rts m) as [m1|] eqn:E; cbn [obind]; [|discriminate]. intros [= <- <-].
    by apply (rts_keeps (fun s => V s r)) in E.
  - destruct (call m _) as [m1|] eqn:E; cbn [obind]; [|discriminate]. intros [= <- <-].
    by apply (call_keeps (fun s => V s r)) in E.
Qed.

Lemma exec_writes_registers_only_witness :
  exists m', exec 0 NOKEY 0x8107 17 vm_sknp = Ok (17, m') /\
             V m' 0 = 255 /\ V m' 0xF = 0.
Proof.
  destruct (exec 0 NOKEY 0x8107 17 vm_sknp) as [[k m']|msg] eqn:E;
    [|vm_compute in E; discriminate E].
  assert (k = 17) as -> by (vm_compute in E; congruence).
  exists m'. split; [reflexivity|].
  split; [apply (exec_writes_registers_only 0 NOKEY 0x8107 17 vm_sknp 17 m' 0 E)|
          apply (exec_writes_registers_only 0 NOKEY 0x8107 17 vm_sknp 17 m' 0xF E)];
    reflexivity.
Defined.

(** ** Random bytes and shifts *)

Lemma land_le_l (a b : Z) : 0 <= a -> 0 <= b -> Z.land a b <= a.
Proof.
  intros Ha Hb. rewrite <- (Z2N.id a), <- (Z2N.id b) by done.
  rewrite <- N2Z.inj_land. apply N2Z.inj_le, N.land_le_l.
Qed.

Lemma land_le_r (a b : Z) : 0 <= a -> 0 <= b -> Z.land a b <= b.
Proof. intros Ha Hb. rewrite Z.land_comm. by apply land_le_l. Qed.

Lemma exec_rnd (rnd pressed inst keyreg : Z) (m : CHIP8) :
  Op.A inst = 0xC ->
  exec rnd pressed inst keyreg m =
    Ok (keyreg, setV (Op.X inst) (Z.land (rnd mod 255) (Op.LH inst)) m).
Proof. intros HA. unfold exec. not_cls_rts inst HA. rewrite HA. reflexivity. Qed.

Lemma op_LH_range (inst : Z) : 0 <= Op.LH inst < 256.
Proof.
  unfold Op.LH. change 0x00FF with (Z.ones 8). rewrite Z.land_ones by lia.
  apply Z.mod_pos_bound. lia.
Qed.

(** X6.  [Cxkk] stores [(rand() % 255) & kk] in Vx: a byte that is at
    most 254 whatever [rand] returns, so never 0xFF, that has no bit
    outside the mask kk, and no other register changes. *)
Theorem random_byte_bounds (rnd pressed inst keyreg : Z) (m : CHIP8) :
  Op.A inst = 0xC -> length (v m) = 16%nat ->
  exists m',
    exec rnd pressed inst keyreg m = Ok (keyreg, m') /\
    V m' (Op.X inst) = Z.land (rnd mod 255) (Op.LH inst) /\
    0 <= V m' (Op.X inst) <= 254 /\
    V m' (Op.X inst) <= Op.LH inst /\
    Z.land (V m' (Op.X inst)) (Op.LH inst) = V m' (Op.X inst) /\
    (forall k, k <> Op.X inst -> V m' k = V m k).
Proof.
  intros HA Hlen. rewrite exec_rnd by done. eexists. split; [reflexivity|].
  pose proof (op_X_range inst) as HX. pose proof (op_LH_range inst) as HL.
  pose proof (Z.mod_pos_bound rnd 255 ltac:(lia)) as Hr.
  assert (0 <= Z.land (rnd mod 255) (Op.LH inst)) as H0 by (apply Z.land_nonneg; lia).
  pose proof (land_le_l (rnd mod 255) (Op.LH inst) ltac:(lia) ltac:(lia)) as H1.
  pose proof (land_le_r (rnd mod 255) (Op.LH inst) ltac:(lia) ltac:(lia)) as H2.
  rewrite V_setV_eq by lia. rewrite u8_small by lia.
  split; [done|]. split; [lia|]. split; [lia|]. split.
  - rewrite <- Z.land_assoc, Z.land_diag. done.
  - intros k Hk. by apply V_setV_ne.
Qed.

Lemma random_byte_bounds_witness :
  exists m', exec 300 NOKEY 0xC00F 17 vm_top = Ok (17, m') /\ V m' 0 = 13.
Proof.
  destruct (random_byte_bounds 300 NOKEY 0xC00F 17 vm_top) as (m' & E & HV & _);
    [reflexivity|reflexivity|].
  exists m'. split; [exact E|exact HV].
Defined.

Lemma isbitset0_table :
  forallb (fun b => Bool.eqb (isbitset 0 b) (128 <=? b)) (seqZ 0 256) = true.
Proof. vm_compute. reflexivity. Qed.

Lemma isbitset0_msb (b : Z) : 0 <= b < 256 -> isbitset 0 b = (128 <=? b).
Proof.
  intros Hb. pose proof isbitset0_table as H.
  rewrite forallb_forall in H. apply eqb_prop, H, list_elem_of_In, elem_of_seqZ. lia.
Qed.

Lemma exec_shr (rnd pressed inst keyreg : Z) (m : CHIP8) :
  Op.A inst = 8 -> Op.D inst = 6 ->
  exec rnd pressed inst keyreg m =
    Ok (keyreg,
        let m1 := setV 0xF (Z.land (V m (Op.X inst)) 1) m in
        setV (Op.X inst) (Z.shiftr (V m1 (Op.X inst)) 1) m1).
Proof.
  intros HA HD. unfold exec. not_cls_rts inst HA. rewrite HA, HD. reflexivity.
Qed.

Lemma exec_shl (rnd pressed inst keyreg : Z) (m : CHIP8) :
  Op.A inst = 8 -> Op.D inst = 0xE ->
  exec rnd pressed inst keyreg m =
    Ok (keyreg,
        let m1 := setV 0xF (bool_to_Z (isbitset 0 (V m (Op.X inst)))) m in
        setV (Op.X inst) (Z.shiftl (V m1 (Op.X inst)) 1) m1).
Proof.
  intros HA HD. unfold exec. not_cls_rts inst HA. rewrite HA, HD. reflexivity.
Qed.

(** X7.  The shifts move the bit they push out into VF before Vx is
    overwritten: after [8xy6] Vx is the old Vx halved and VF its lowest
    bit, after [8xyE] Vx is the old Vx doubled modulo 256 and VF its
    highest bit; in both the old value can be put together again from the
    new Vx and VF.  Vy takes no part, and no other register changes.  (x
    is not F here: with x = F the flag itself is shifted.) *)
Theorem shifts_lose_no_bit (rnd pressed inst keyreg : Z) (m : CHIP8) :
  wf m -> Op.A inst = 8 -> Op.X inst <> 0xF ->
  (Op.D inst = 6 ->
     exists m', exec rnd pressed inst keyreg m = Ok (keyreg, m') /\
       V m' 0xF = V m (Op.X inst) mod 2 /\ V m' (Op.X inst) = V m (Op.X inst) / 2 /\
       V m (Op.X inst) = 2 * V m' (Op.X inst) + V m' 0xF /\
       (forall k, k <> Op.X inst -> k <> 0xF -> V m' k = V m k)) /\
  (Op.D inst = 0xE ->
     exists m', exec rnd pressed inst keyreg m = Ok (keyreg, m') /\
       V m' 0xF = V m (Op.X inst) / 128 /\
       V m' (Op.X inst) = (2 * V m (Op.X inst)) mod 256 /\
       2 * V m (Op.X inst) = 256 * V m' 0xF + V m' (Op.X inst) /\
       (forall k, k <> Op.X inst -> k <> 0xF -> V m' k = V m k)).
Proof.
  intros Hwf HA HXF. pose proof (V_range m (Op.X inst) Hwf) as Hv.
  pose proof (op_X_range inst) as HX.
  assert (length (v m) = 16%nat) as Hlen by (by apply wf_disp_ok).
  split; intros HD.
  - rewrite exec_shr by done. eexists. split; [reflexivity|]. cbv zeta.
    rewrite (V_setV_ne _ (Op.X inst) 0xF) by done.
    rewrite V_setV_eq by (rewrite ?length_v_setV; lia).
    rewrite (V_setV_ne _ 0xF (Op.X inst)) by done.
    rewrite V_setV_eq by (rewrite ?length_v_setV; lia).
    assert (Z.land (V m (Op.X inst)) 1 = V m (Op.X inst) mod 2) as Hl
      by (change 1 with (Z.ones 1); by rewrite Z.land_ones by lia).
    rewrite !Hl, Z.shiftr_div_pow2 by lia. change (2 ^ 1) with 2.
    rewrite !u8_small by (Z.to_euclidean_division_equations; lia).
    split; [done|]. split; [done|].
    split; [Z.to_euclidean_division_equations; lia|].
    intros k Hk1 Hk2. by rewrite !V_setV_ne.
  - rewrite exec_shl by done. eexists. split; [reflexivity|]. cbv zeta.
    rewrite (V_setV_ne _ (Op.X inst) 0xF) by done.
    rewrite V_setV_eq by (rewrite ?length_v_setV; lia).
    rewrite (V_setV_ne _ 0xF (Op.X inst)) by done.
    rewrite V_setV_eq by (rewrite ?length_v_setV; lia).
    rewrite isbitset0_msb, Z.shiftl_mul_pow2 by lia. change (2 ^ 1) with 2.
    assert (u8 (bool_to_Z (128 <=? V m (Op.X inst))) = V m (Op.X inst) / 128) as ->.
    { destruct (Z.leb_spec 128 (V m (Op.X inst))); simpl;
        (rewrite u8_small by lia); Z.to_euclidean_division_equations; lia. }
    unfold u8. rewrite (Z.mul_comm _ 2).
    split; [done|]. split; [done|].
    split; [Z.to_euclidean_division_equations; lia|].
    intros k Hk1 Hk2. by rewrite !V_setV_ne.
Qed.

Lemma shifts_lose_no_bit_witness :
  wf vm_sknp /\
  exists m', exec 0 NOKEY 0x8006 17 vm_sknp = Ok (17, m') /\
             V m' 0xF = 1 /\ V m' 0 = 127.
Proof.
  assert (wf vm_sknp) as Hwf by (vm_compute; reflexivity).
  split; [exact Hwf|].
  destruct (shifts_lose_no_bit 0 NOKEY 0x8006 17 vm_sknp Hwf) as [H _];
    [reflexivity|vm_compute; discriminate|].
  destruct H as (m' & E & HF & HX & _); [reflexivity|].
  exists m'. split; [exact E|]. split; [exact HF|exact HX].
Defined.

(** ** Memory transfers: [Fx33], [Fx55], [Fx65] *)

Lemma mem_store_get (a val : Z) (m : CHIP8) (a' : Z) :
  aget 0 (mem (mem_store a val m)) a' =
    if bool_decide (a = a' /\ 0 <= a < Z.of_nat (length (mem m))) then u8 val
    else aget 0 (mem m) a'.
Proof. unfold mem_store. cbn [mem with_accessed with_mem]. apply aget_aset. Qed.

Lemma exec_bcd (rnd pressed inst keyreg : Z) (m : CHIP8) :
  Op.A inst = 0xF -> Op.B inst = 0x33 ->
  exec rnd pressed inst keyreg m = Ok (keyreg, bcd m (V m (Op.X inst))).
Proof. intros HA HB. unfold exec. not_cls_rts inst HA. rewrite HA, HB. reflexivity. Qed.

Lemma addr_distinct (b j k : Z) :
  0 <= j < 4096 -> 0 <= k < 4096 -> j <> k ->
  (b + j) mod MEMORY_SIZE <> (b + k) mod MEMORY_SIZE.
Proof.
  unfold MEMORY_SIZE. intros Hj Hk Hne E.
  Z.to_euclidean_division_equations. lia.
Qed.

Lemma bcd_table :
  forallb (fun vx =>
             let h := u8 (vx / 100) in
             let t := u8 (u8 (vx mod 100) / 10) in
             let o := u8 (u8 (u8 (vx mod 100) mod 10) / 1) in
             (100 * h + 10 * t + o =? vx) && (h <=? 2) && (t <=? 9) && (o <=? 9))
          (seqZ 0 256) = true.
Proof. vm_compute. reflexivity. Qed.

Lemma bcd_arith (vx : Z) :
  0 <= vx < 256 ->
  let h := u8 (vx / 100) in
  let t := u8 (u8 (vx mod 100) / 10) in
  let o := u8 (u8 (u8 (vx mod 100) mod 10) / 1) in
  100 * h + 10 * t + o = vx /\ 0 <= h <= 2 /\ 0 <= t <= 9 /\ 0 <= o <= 9.
Proof.
  intros Hvx h t o. pose proof bcd_table as H. rewrite forallb_forall in H.
  specialize (H vx). cbv zeta in H. fold h t o in H.
  rewrite !andb_true_iff, Z.eqb_eq, !Z.leb_le in H.
  pose proof (u8_range (vx / 100)) as R1.
  pose proof (u8_range (u8 (vx mod 100) / 10)) as R2.
  pose proof (u8_range (u8 (u8 (vx mod 100) mod 10) / 1)) as R3.
  destruct H as [[[E1 E2] E3] E4]; [apply list_elem_of_In, elem_of_seqZ; lia|].
  subst h t o. lia.
Qed.

(** X8.  [Fx33] stores the three decimal digits of Vx at [I], [I+1],
    [I+2] (addresses modulo the memory size), hundreds first: the bytes
    stored are digits, 100 times the first plus 10 times the second plus
    the third is Vx, and no other byte of memory, no register and not [I]
    changes. *)
Theorem bcd_digits (rnd pressed inst keyreg : Z) (m : CHIP8) :
  wf m -> Op.A inst = 0xF -> Op.B inst = 0x33 ->
  exists m',
    exec rnd pressed inst keyreg m = Ok (keyreg, m') /\
    let h := aget 0 (mem m') ((i m + 0) mod MEMORY_SIZE) in
    let t := aget 0 (mem m') ((i m + 1) mod MEMORY_SIZE) in
    let o := aget 0 (mem m') ((i m + 2) mod MEMORY_SIZE) in
    100 * h + 10 * t + o = V m (Op.X inst) /\
    0 <= h <= 2 /\ 0 <= t <= 9 /\ 0 <= o <= 9 /\
    (forall a, a <> (i m + 0) mod MEMORY_SIZE -> a <> (i m + 1) mod MEMORY_SIZE ->
               a <> (i m + 2) mod MEMORY_SIZE -> aget 0 (mem m') a = aget 0 (mem m) a) /\
    v m' = v m /\ i m' = i m.
Proof.
  intros Hwf HA HB. pose proof (V_range m (Op.X inst) Hwf) as Hv.
  apply wf_iff in Hwf as [Hml _ _ _ _ _ _ _ _ _ _ _ _].
  rewrite exec_bcd by done. eexists. split; [reflexivity|].
  set (vx := V m (Op.X inst)) in *. unfold bcd. cbv zeta.
  pose proof (in_bounds_mod (i m + 0)) as B0. pose proof (in_bounds_mod (i m + 1)) as B1.
  pose proof (in_bounds_mod (i m + 2)) as B2. unfold in_bounds in B0, B1, B2.
  pose proof (eq_refl : MEMORY_SIZE = 4096) as HM.
  pose proof (addr_distinct (i m) 0 1 ltac:(lia) ltac:(lia) ltac:(lia)) as N1.
  pose proof (addr_distinct (i m) 0 2 ltac:(lia) ltac:(lia) ltac:(lia)) as N2.
  pose proof (addr_distinct (i m) 1 2 ltac:(lia) ltac:(lia) ltac:(lia)) as N3.
  set (a0 := (i m + 0) mod MEMORY_SIZE) in *.
  set (a1 := (i m + 1) mod MEMORY_SIZE) in *.
  set (a2 := (i m + 2) mod MEMORY_SIZE) in *.
  rewrite !mem_store_get. unfold mem_store. cbn [mem with_accessed with_mem i v].
  assert (Z.of_nat (length (mem m)) = 4096) as HmlZ by (rewrite Hml; reflexivity).
  rewrite !length_aset, HmlZ.
  rewrite (bool_decide_eq_false_2 (a2 = a0 /\ _)) by (intros [? _]; congruence).
  rewrite (bool_decide_eq_false_2 (a1 = a0 /\ _)) by (intros [? _]; congruence).
  rewrite (bool_decide_eq_false_2 (a2 = a1 /\ _)) by (intros [? _]; congruence).
  rewrite !bool_decide_eq_true_2 by (split; [done|lia]).
  destruct (bcd_arith vx Hv) as (E & Rh & Rt & Ro).
  split; [exact E|]. split; [exact Rh|]. split; [exact Rt|]. split; [exact Ro|].
  split; [|done].
  intros a A0 A1 A2. rewrite !aget_aset. subst a0 a1 a2.
  rewrite !bool_decide_eq_false_2 by (intros [? _]; congruence). done.
Qed.

Lemma bcd_digits_witness :
  wf vm_sknp /\
  exists m', exec 0 NOKEY 0xF033 17 vm_sknp = Ok (17, m') /\
    100 * aget 0 (mem m') 0 + 10 * aget 0 (mem m') 1 + aget 0 (mem m') 2 = 255.
Proof.
  assert (wf vm_sknp) as Hwf by (vm_compute; reflexivity).
  split; [exact Hwf|].
  destruct (bcd_digits 0 NOKEY 0xF033 17 vm_sknp Hwf) as (m' & E & H & _);
    [reflexivity|reflexivity|].
  exists m'. split; [exact E|exact H].
Defined.

Section Transfers.
Variable vx : Z.
Hypothesis Hvx : 0 <= vx < 16.

Lemma regdmp_loop_mem (fuel : nat) : forall (k : Z) (m : CHIP8),
  0 <= k -> vx + 1 - k <= Z.of_nat fuel -> Z.of_nat (length (mem m)) = MEMORY_SIZE ->
  let m' := for_u8 fuel (fun k _ => k <=? vx)
              (fun k vm => mem_store ((i vm + k) mod MEMORY_SIZE) (V vm k) vm) k m in
  (forall j, k <= j <= vx -> aget 0 (mem m') ((i m + j) mod MEMORY_SIZE) = u8 (V m j)) /\
  (forall a, (forall j, k <= j <= vx -> a <> (i m + j) mod MEMORY_SIZE) ->
             aget 0 (mem m') a = aget 0 (mem m) a) /\
  v m' = v m /\ i m' = i m /\ length (mem m') = length (mem m).
Proof.
  induction fuel as [|fuel IH]; intros k m Hk Hfuel Hlen m'; subst m'.
  - simpl. split; [intros j Hj; lia|]. done.
  - cbn [for_u8]. destruct (Z.leb_spec k vx) as [Hle|Hgt].
    + rewrite (u8_small (k + 1)) by lia.
      set (m1 := mem_store ((i m + k) mod MEMORY_SIZE) (V m k) m).
      assert (length (mem m1) = length (mem m)) as Hl1
        by (subst m1; unfold mem_store; cbn [mem with_accessed with_mem]; apply length_aset).
      destruct (IH (k + 1) m1) as (Hin & Hout & Hv & Hi & Hl); [lia|lia|by rewrite Hl1|].
      change (i m1) with (i m) in *. change (v m1) with (v m) in *.
      assert (forall j, V m1 j = V m j) as HV by done.
      pose proof (in_bounds_mod (i m + k)) as Bk. unfold in_bounds in Bk.
      split; [|split; [|split; [done|split; [done|by rewrite Hl, Hl1]]]].
      * intros j Hj. destruct (decide (j = k)) as [->|Hne].
        -- rewrite Hout.
           ++ subst m1. rewrite mem_store_get. rewrite bool_decide_eq_true_2; [done|].
              split; [done|]. lia.
           ++ intros j' Hj'. apply addr_distinct; lia.
        -- rewrite Hin by lia. by rewrite HV.
      * intros a Ha. rewrite Hout by (intros j Hj; apply Ha; lia).
        subst m1. rewrite mem_store_get. rewrite bool_decide_eq_false_2; [done|].
        intros [E _]. apply (Ha k); [lia|done].
    + split; [intros j Hj; lia|]. done.
Qed.

Lemma regld_loop_regs (fuel : nat) : forall (k : Z) (m : CHIP8),
  0 <= k -> vx + 1 - k <= Z.of_nat fuel -> length (v m) = 16%nat ->
  let m' := for_u8 fuel (fun k _ => k <=? vx)
              (fun k vm =>
                 let '(b, vm) := mem_load vm ((i vm + k) mod MEMORY_SIZE) in
                 setV k b vm) k m in
  (forall j, k <= j <= vx -> V m' j = u8 (aget 0 (mem m) ((i m + j) mod MEMORY_SIZE))) /\
  (forall j, j < k \/ vx < j -> V m' j = V m j) /\
  mem m' = mem m /\ i m' = i m /\ length (v m') = 16%nat.
Proof.
  induction fuel as [|fuel IH]; intros k m Hk Hfuel Hlen m'; subst m'.
  - simpl. split; [intros j Hj; lia|]. done.
  - cbn [for_u8]. destruct (Z.leb_spec k vx) as [Hle|Hgt].
    + rewrite (u8_small (k + 1)) by lia.
      set (m1 := let '(b, vm) := mem_load m ((i m + k) mod MEMORY_SIZE) in setV k b vm).
      assert (length (v m1) = 16%nat) as Hl1
        by (subst m1; unfold mem_load; rewrite length_v_setV; done).
      destruct (IH (k + 1) m1) as (Hin & Hout & Hm & Hi & Hl); [lia|lia|done|].
      change (i m1) with (i m) in *. change (mem m1) with (mem m) in *.
      split; [|split; [|done]].
      * intros j Hj. destruct (decide (j = k)) as [->|Hne].
        -- rewrite Hout by lia. subst m1. unfold mem_load.
           change (V (setV k ?b (with_accessed ?a m)) k) with (V (setV k b m) k).
           rewrite V_setV_eq by lia. done.
        -- by rewrite Hin by lia.
      * intros j Hj. rewrite Hout by lia. subst m1. unfold mem_load.
        change (V (setV k ?b (with_accessed ?a m)) j) with (V (setV k b m) j).
        apply V_setV_ne. lia.
    + split; [intros j Hj; lia|]. done.
Qed.
End Transfers.

Lemma exec_regdmp (rnd pressed inst keyreg : Z) (m : CHIP8) :
  Op.A inst = 0xF -> Op.B inst = 0x55 ->
  exec rnd pressed inst keyreg m = Ok (keyreg, regdmp m (Op.X inst)).
Proof. intros HA HB. unfold exec. not_cls_rts inst HA. rewrite HA, HB. reflexivity. Qed.

Lemma exec_regld (rnd pressed inst keyreg : Z) (m : CHIP8) :
  Op.A inst = 0xF -> Op.B inst = 0x65 ->
  exec rnd pressed inst keyreg m = Ok (keyreg, regld m (Op.X inst)).
Proof. intros HA HB. unfold exec. not_cls_rts inst HA. rewrite HA, HB. reflexivity. Qed.

Lemma regdmp_mem (m : CHIP8) (x : Z) :
  0 <= x < 16 -> Z.of_nat (length (mem m)) = MEMORY_SIZE ->
  (forall j, 0 <= j <= x ->
     aget 0 (mem (regdmp m x)) ((i m + j) mod MEMORY_SIZE) = u8 (V m j)) /\
  (forall a, (forall j, 0 <= j <= x -> a <> (i m + j) mod MEMORY_SIZE) ->
             aget 0 (mem (regdmp m x)) a = aget 0 (mem m) a) /\
  v (regdmp m x) = v m /\ i (regdmp m x) = i m /\
  length (mem (regdmp m x)) = length (mem m).
Proof.
  intros Hx Hml. unfold regdmp.
  exact (regdmp_loop_mem x Hx 17 0 m ltac:(lia) ltac:(lia) Hml).
Qed.

Lemma regld_regs (m : CHIP8) (x : Z) :
  0 <= x < 16 -> length (v m) = 16%nat ->
  (forall j, 0 <= j <= x ->
     V (regld m x) j = u8 (aget 0 (mem m) ((i m + j) mod MEMORY_SIZE))) /\
  (forall j, j < 0 \/ x < j -> V (regld m x) j = V m j) /\
  mem (regld m x) = mem m /\ i (regld m x) = i m /\ length (v (regld m x)) = 16%nat.
Proof.
  intros Hx Hlen. unfold regld.
  exact (regld_loop_regs x Hx 17 0 m ltac:(lia) ltac:(lia) Hlen).
Qed.

(** X9.  [Fx55] copies V0..Vx to memory from [I] on and leaves the
    registers and [I] as they are ([I] is not advanced); [Fx65] with the
    same x, run later on any machine with that memory and that [I],
    brings back into V0..Vx the values they had at the dump and leaves the
    registers above x, memory and [I] alone. *)
Theorem dump_load_round_trip (rnd pressed keyreg dmp ld : Z) (m : CHIP8) :
  wf m ->
  Op.A dmp = 0xF -> Op.B dmp = 0x55 -> Op.A ld = 0xF -> Op.B ld = 0x65 ->
  Op.X ld = Op.X dmp ->
  exists m1,
    exec rnd pressed dmp keyreg m = Ok (keyreg, m1) /\
    v m1 = v m /\ i m1 = i m /\
    forall m2,
      mem m2 = mem m1 -> i m2 = i m1 -> length (v m2) = 16%nat ->
      exists m3,
        exec rnd pressed ld keyreg m2 = Ok (keyreg, m3) /\
        (forall k, 0 <= k <= Op.X dmp -> V m3 k = V m k) /\
        (forall k, Op.X dmp < k -> V m3 k = V m2 k) /\
        mem m3 = mem m2 /\ i m3 = i m2.
Proof.
  intros Hwf HAd HBd HAl HBl HX. pose proof (op_X_range dmp) as Hx.
  assert (Z.of_nat (length (mem m)) = MEMORY_SIZE) as Hml.
  { apply wf_iff in Hwf as [Hml _ _ _ _ _ _ _ _ _ _ _ _]. rewrite Hml. reflexivity. }
  rewrite (exec_regdmp _ _ _ _ _ HAd HBd). eexists. split; [reflexivity|].
  destruct (regdmp_mem m (Op.X dmp) Hx Hml) as (Hin & _ & Hv & Hi & _).
  split; [exact Hv|]. split; [exact Hi|]. intros m2 Em Ei Hlen.
  rewrite (exec_regld _ _ _ _ _ HAl HBl), HX. eexists. split; [reflexivity|].
  destruct (regld_regs m2 (Op.X dmp) Hx Hlen) as (Lin & Lout & Lm & Li & _).
  split; [|split; [|split; [exact Lm|exact Li]]].
  - intros k Hk. rewrite (Lin k Hk), Em, Ei, Hi, (Hin k Hk).
    pose proof (V_range m k Hwf) as Hr. rewrite !u8_small; [reflexivity|lia|].
    rewrite u8_small; lia.
  - intros k Hk. apply Lout. lia.
Qed.

Lemma dump_load_round_trip_witness :
  wf vm_sknp /\
  exists m1, exec 0 NOKEY 0xF155 17 vm_sknp = Ok (17, m1) /\
  exists m3, exec 0 NOKEY 0xF165 17 (setV 0 7 m1) = Ok (17, m3) /\ V m3 0 = 255.
Proof.
  assert (wf vm_sknp) as Hwf by (vm_compute; reflexivity).
  split; [exact Hwf|].
  destruct (dump_load_round_trip 0 NOKEY 17 0xF155 0xF165 vm_sknp Hwf)
    as (m1 & E1 & Hv & Hi & Hback); try reflexivity.
  exists m1. split; [exact E1|].
  destruct (Hback (setV 0 7 m1)) as (m3 & E3 & Hin & _).
  - reflexivity.
  - reflexivity.
  - rewrite length_v_setV, Hv. reflexivity.
  - exists m3. split; [exact E3|]. rewrite Hin by (vm_compute; split; discriminate).
    reflexivity.
Defined.

(** ** A call and its return *)

Lemma call_rts_exec (rnd pressed keyreg inst : Z) (m : CHIP8) :
  wf m -> Op.A inst = 2 -> sp m < STACK_SIZE ->
  exists m1,
    exec rnd pressed inst keyreg m = Ok (keyreg, m1) /\
    pc m1 = Op.VAL inst /\ sp m1 = sp m + 1 /\
    forall mb,
      stack mb = stack m1 -> sp mb = sp m1 ->
      exists m2,
        exec rnd pressed 0x00EE keyreg mb = Ok (keyreg, m2) /\
        pc m2 = pc m /\ sp m2 = sp m /\ frames m2 = frames m.
Proof.
  intros Hwf HA Hsp. apply wf_iff in Hwf as [_ _ Hsl _ Hpc Hsp0 _ _ _ _ _ _ _].
  unfold STACK_SIZE in Hsp. pose proof (op_VAL_range inst) as HV.
  rewrite exec_call by done. unfold call, STACK_SIZE.
  destruct (Z.geb_spec (sp m) 5); [lia|]. cbn [obind].
  eexists. split; [reflexivity|]. cbn [pc sp with_pc with_sp with_stack stack].
  rewrite (u16_small (Op.VAL inst)), (u16_small (sp m + 1)) by lia.
  split; [done|]. split; [done|]. intros mb Es Ep.
  rewrite exec_rts. unfold rts. rewrite Ep.
  destruct (Z.eqb_spec (sp m + 1) 0); [lia|]. cbn [obind].
  eexists. split; [reflexivity|]. unfold frames.
  cbn [pc sp with_pc with_sp stack]. rewrite Es.
  rewrite (u16_small (sp m + 1 - 1)) by lia.
  replace (sp m + 1 - 1) with (sp m) by lia.
  rewrite aget_aset_eq by lia. rewrite (u16_small (pc m)) by lia.
  split; [done|]. split; [done|].
  unfold aset. destruct (Z.leb_spec 0 (sp m)); [|lia]. by rewrite take_insert_ge.
Qed.

(** X10.  A return resumes after its call.  A cycle on [2nnn] with room
    on the stack continues at nnn; when later a cycle executes [00EE] on a
    machine whose stack and stack pointer are as the call left them,
    whatever else the subroutine has changed, [pc] is the address of the
    instruction that follows the call, and the stack pointer and the
    return addresses held are what they were before the call. *)
Theorem return_resumes_after_call (rnd pressed keyreg : Z) (m : CHIP8) :
  wf m -> Op.A (fst (fetch m)) = 2 -> sp m < STACK_SIZE ->
  exists m1,
    cycle rnd pressed keyreg m = Ok (keyreg, m1) /\
    pc m1 = Op.VAL (fst (fetch m)) /\ sp m1 = sp m + 1 /\
    forall mb,
      stack mb = stack m1 -> sp mb = sp m1 -> fst (fetch mb) = 0x00EE ->
      exists m2,
        cycle rnd pressed keyreg mb = Ok (keyreg, m2) /\
        pc m2 = (pc m + 2) mod 65536 /\ sp m2 = sp m /\ frames m2 = frames m.
Proof.
  intros Hwf HA Hsp. pose proof (wf_fetch m Hwf) as Hwf1.
  pose proof (fetch_pc m) as Hpc.
  pose proof (fetch_keeps m) as (_ & Hst & Hs & _).
  unfold cycle. destruct (fetch m) as [inst m0]. cbn [fst snd] in *.
  destruct (call_rts_exec rnd pressed keyreg inst m0 Hwf1 HA) as (m1 & E & Hp1 & Hs1 & Hret);
    [lia|].
  exists m1. split; [exact E|]. split; [exact Hp1|]. split; [lia|].
  intros mb Es Ep Hf. pose proof (fetch_keeps mb) as (_ & Hstb & Hsb & _).
  destruct (fetch mb) as [instb mb0]. cbn [fst snd] in *. subst instb.
  destruct (Hret mb0) as (m2 & E2 & Hp2 & Hs2 & Hf2); [congruence|congruence|].
  exists m2. split; [exact E2|]. split; [congruence|]. split; [congruence|].
  rewrite Hf2. unfold frames. by rewrite Hst, Hs.
Qed.

Lemma return_resumes_after_call_witness :
  wf vm_call /\
  exists m1, cycle 0 NOKEY 17 vm_call = Ok (17, m1) /\ pc m1 = 0x204 /\
  exists m2, cycle 0 NOKEY 17 m1 = Ok (17, m2) /\ pc m2 = 0x202 /\ sp m2 = 0.
Proof.
  assert (wf vm_call) as Hwf by (vm_compute; reflexivity).
  split; [exact Hwf|].
  destruct (return_resumes_after_call 0 NOKEY 17 vm_call Hwf)
    as (m1 & E1 & Hp1 & _ & Hret); [reflexivity|vm_compute; reflexivity|].
  exists m1. split; [exact E1|]. split; [exact Hp1|].
  destruct (Hret m1) as (m2 & E2 & Hp2 & Hs2 & _); [reflexivity|reflexivity| |].
  - vm_compute in E1. apply Ok_inj in E1. injection E1 as <-. vm_compute. reflexivity.
  - exists m2. split; [exact E2|]. split; [exact Hp2|exact Hs2].
Defined.

(** ** The keyboard *)

Lemma strchr_first (s : string) (b : Z) :
  0 <= b < 256 ->
  match strchr s b with
  | Some o =>
      0 <= o <= Z.of_nat (String.length s) /\
      (o < Z.of_nat (String.length s) -> first_at s b (Z.to_nat o)) /\
      (o = Z.of_nat (String.length s) -> b = 0 /\ absent s b)
  | None => b <> 0 /\ absent s b
  end.
Proof.
  intros Hb. induction s as [|a s IH]; cbn [strchr String.length].
  - rewrite Z.mod_small by done. destruct (Z.eqb_spec b 0) as [->|Hn].
    + split; [simpl; lia|]. split; [simpl; lia|]. intros _. split; [done|].
      intros j a0. by destruct j.
    + split; [done|]. intros j a0. by destruct j.
  - rewrite Z.mod_small by done.
    destruct (Z.eqb_spec (Z.of_nat (nat_of_ascii a)) b) as [E|Hn].
    + split; [lia|]. split; [|lia]. intros _. split.
      * exists a. by split.
      * intros j' a0 Hj. simpl in Hj. lia.
    + destruct (strchr s b) as [o|]; cbn [option_map].
      * destruct IH as (Ho & Hlt & Heq). split; [lia|]. split.
        -- intros Hlen. destruct Hlt as [(a1 & G & Ea) Hf]; [lia|].
           replace (Z.to_nat (Z.succ o)) with (S (Z.to_nat o)) by lia. split.
           ++ exists a1. by split.
           ++ intros [|j'] a0 Hj; cbn [String.get].
              ** by intros [= <-].
              ** apply Hf. lia.
        -- intros Hlen. destruct Heq as [E0 Ha]; [lia|]. split; [done|].
           intros [|j] a0; cbn [String.get]; [by intros [= <-]|apply Ha].
      * destruct IH as [H0 Ha]. split; [done|].
        intros [|j] a0; cbn [String.get]; [by intros [= <-]|apply Ha].
Qed.

Lemma first_at_unique (s : string) (b : Z) (j k : nat) :
  first_at s b j -> first_at s b k -> j = k.
Proof.
  intros [(a & G & E) Hf] [(a' & G' & E') Hf'].
  destruct (lt_eq_lt_dec j k) as [[Hlt|]|Hlt]; [|done|].
  - exfalso. by eapply Hf'.
  - exfalso. by eapply Hf.
Qed.

Lemma first_at_present (s : string) (b : Z) (j : nat) :
  first_at s b j -> absent s b -> False.
Proof. intros [(a & G & E) _] Ha. by eapply Ha. Qed.

Lemma get_length (s : string) (j : nat) (a : ascii) :
  String.get j s = Some a -> (j < String.length s)%nat.
Proof.
  revert j. induction s as [|a0 s IH]; intros [|j]; cbn [String.get String.length];
    try done; [lia|]. intros H. apply IH in H. lia.
Qed.

Lemma tolower_range (c : Z) : 0 <= c < 256 -> 0 <= tolower c < 256.
Proof. intros H. unfold tolower. destruct (_ && _) eqn:E; lia. Qed.

Lemma tolower_not_upper (c : Z) : ~ (65 <= tolower c <= 90).
Proof. unfold tolower. destruct (_ && _) eqn:E; lia. Qed.

Lemma tolower_zero (c : Z) : tolower c = 0 <-> c = 0.
Proof. unfold tolower. destruct (_ && _) eqn:E; lia. Qed.

(** X11.  For a character other than escape, [getkeyboard] answers the
    position at which the lower-cased character first occurs in the
    keymap; [NOKEY] exactly when the character is not NUL and occurs
    nowhere; 16, the position of the terminator, exactly when it is NUL.
    It never answers [QUIT] for such a character.  The key found is never
    an upper-case letter, so an upper-case letter in a keymap can never be
    pressed; and an upper-case character typed counts as its lower-case
    one. *)
Theorem getkeyboard_lookup (m : CHIP8) (c : Z) :
  String.length (keymap m) = 16%nat -> 0 <= c < 256 -> c <> 0x1b ->
  (forall j, (j < 16)%nat ->
     getkeyboard m c = Z.of_nat j <-> first_at (keymap m) (tolower c) j) /\
  (getkeyboard m c = 16 <-> c = 0 /\ absent (keymap m) 0) /\
  (getkeyboard m c = NOKEY <-> c <> 0 /\ absent (keymap m) (tolower c)) /\
  (0 <= getkeyboard m c <= 16 \/ getkeyboard m c = NOKEY) /\
  (forall j a, getkeyboard m c = Z.of_nat j ->
     String.get j (keymap m) = Some a ->
     ~ (65 <= Z.of_nat (nat_of_ascii a) <= 90)) /\
  (65 <= c <= 90 -> getkeyboard m (c + 32) = getkeyboard m c).
Proof.
  intros Hlen Hc Hesc.
  pose proof (tolower_range c Hc) as Hr.
  pose proof (tolower_not_upper c) as Hu.
  pose proof (tolower_zero c) as Hz.
  pose proof (strchr_first (keymap m) (tolower c) Hr) as Hs.
  assert (getkeyboard m c =
          match strchr (keymap m) (tolower c) with Some o => u8 o | None => NOKEY end)
    as Eg.
  { unfold getkeyboard, ERR. destruct (Z.eqb_spec c 27); [done|].
    destruct (Z.eqb_spec c (-1)); [lia|]. done. }
  rewrite Hlen in Hs. unfold NOKEY in *.
  assert (65 <= c <= 90 -> getkeyboard m (c + 32) = getkeyboard m c) as Hcase.
  { intros Hup. unfold getkeyboard, ERR.
    destruct (Z.eqb_spec (c + 32) 27); [lia|].
    destruct (Z.eqb_spec c 27); [lia|].
    destruct (Z.eqb_spec (c + 32) (-1)); [lia|].
    destruct (Z.eqb_spec c (-1)); [lia|]. cbn [negb].
    replace (tolower (c + 32)) with (tolower c); [done|].
    unfold tolower.
    destruct (Z.leb_spec 65 c), (Z.leb_spec c 90), (Z.leb_spec 65 (c+32)),
      (Z.leb_spec (c+32) 90); cbn [andb]; lia. }
  destruct (strchr (keymap m) (tolower c)) as [o|].
  - destruct Hs as (Ho & Hlt & Heq). rewrite u8_small in Eg by lia.
    rewrite Eg. split_and!; [| | |lia| |intros Hup; by rewrite (Hcase Hup)].
    + intros j Hj. split.
      * intros ->. rewrite <- (Nat2Z.id j). apply Hlt. lia.
      * intros Hf. destruct (Z.eq_dec o 16) as [E|N].
        -- exfalso. destruct (Heq E) as [_ Ha]. by eapply first_at_present.
        -- rewrite <- (Z2Nat.id o) by lia. f_equal.
           eapply first_at_unique; [apply Hlt; lia|done].
    + split.
      * intros E. destruct (Heq E) as [E0 Ha]. split; [by apply Hz|].
        by rewrite E0 in Ha.
      * intros [E0 Ha]. destruct (Z.eq_dec o 16) as [E|N]; [done|].
        exfalso. eapply first_at_present; [apply Hlt; lia|].
        apply Hz in E0. by rewrite E0.
    + split; [lia|]. intros [E0 Ha]. exfalso.
      destruct (Z.eq_dec o 16) as [E|N].
      * destruct (Heq E) as [E1 _]. by apply Hz in E1.
      * eapply first_at_present; [apply Hlt; lia|done].
    + intros j a Ej G. pose proof (get_length _ _ _ G) as Hj.
      destruct Hlt as [(a' & G' & E') _]; [lia|].
      replace (Z.to_nat o) with j in G' by lia.
      assert (a' = a) as -> by congruence. lia.
  - destruct Hs as [H0 Ha]. rewrite Eg. split_and!; [| | |lia| |intros Hup; by rewrite (Hcase Hup)].
    + intros j Hj. split; [lia|]. intros Hf. exfalso. by eapply first_at_present.
    + split; [lia|]. intros [E0 _]. by apply Hz in E0.
    + split; [|done]. intros _. split; [|done]. intros E0. by apply Hz in E0.
    + intros j a Ej G. apply get_length in G. rewrite Hlen in G. lia.
Qed.

Lemma getkeyboard_lookup_witness :
  getkeyboard vm_top 81 = 4 /\ getkeyboard vm_top (81 + 32) = getkeyboard vm_top 81.
Proof.
  destruct (getkeyboard_lookup vm_top 81) as (H & _ & _ & _ & _ & Hcase);
    [reflexivity|lia|lia|].
  split; [|apply Hcase; lia].
  apply (H 4%nat); [lia|]. split.
  - exists "q"%char. split; reflexivity.
  - intros j' a Hj. do 4 (destruct j' as [|j']; [intros [= <-]; vm_compute; discriminate|]).
    lia.
Defined.

(** ** The settings hold through a run, and escape ends it *)

Lemma cycle_config (rnd pressed keyreg : Z) (m : CHIP8) (k' : Z) (m' : CHIP8) :
  cycle rnd pressed keyreg m = Ok (k', m') ->
  keymap m' = keymap m /\ inspertick m' = inspertick m.
Proof.
  unfold cycle. pose proof (fetch_keeps m) as (_ & _ & _ & _ & _ & _ & _ & _ & _ & Hk & Hi).
  destruct (fetch m) as [inst m1]. cbn [snd] in *. intros E.
  apply exec_frame in E as (_ & _ & _ & _ & _ & Ek & Ei). split; congruence.
Qed.

Lemma batch_config (n : nat) (rnd : nat -> Z) (k : nat) (pressed keyreg : Z) (m : CHIP8)
    (k' : Z) (m' : CHIP8) :
  batch n rnd k pressed keyreg m = Ok (k', m') ->
  keymap m' = keymap m /\ inspertick m' = inspertick m.
Proof.
  revert k keyreg m. induction n as [|n IH]; intros k keyreg m; cbn [batch].
  - by intros [= <- <-].
  - destruct (cycle _ _ _ _) as [[k1 m1]|] eqn:E; cbn [obind fst snd]; [|discriminate].
    intros H. apply IH in H as [H1 H2]. apply cycle_config in E as [H3 H4].
    split; congruence.
Qed.

Lemma tick_config (inp : INPUT) (r r' : RUN) :
  tick inp r = Ok r' ->
  keymap (vm r') = keymap (vm r) /\ inspertick (vm r') = inspertick (vm r) /\
  pressed r' = getkeyboard (vm r) (getch inp).
Proof.
  unfold tick.
  assert (keymap (vm (poll (getch inp) r)) = keymap (vm r) /\
          inspertick (vm (poll (getch inp) r)) = inspertick (vm r) /\
          pressed (poll (getch inp) r) = getkeyboard (vm r) (getch inp)) as (Hk & Hi & Hp).
  { unfold poll. by destruct (_ && _). }
  destruct (batch _ _ _ _ _ _) as [[k1 m1]|] eqn:E; cbn [obind]; [|discriminate].
  intros [= <-]. cbn [vm pressed fst snd]. apply batch_config in E as [E1 E2].
  pose proof (same_program_timers m1) as (_ & _ & _ & _ & _ & _ & _ & Hi' & Hk').
  split; [congruence|]. split; [congruence|done].
Qed.

Lemma run_from_config (inps : list INPUT) (r r' : RUN) :
  run_from inps r = Ok r' ->
  keymap (vm r') = keymap (vm r) /\ inspertick (vm r') = inspertick (vm r).
Proof.
  revert r. induction inps as [|inp inps IH]; intros r; cbn [run_from];
    destruct (pressed r =? QUIT); try (intros H; apply Ok_inj in H; by subst).
  destruct (tick inp r) as [r1|] eqn:E; cbn [obind]; [|discriminate].
  intros H. apply IH in H as [H1 H2]. apply tick_config in E as (E1 & E2 & _).
  split; congruence.
Qed.

Lemma strchr_range (s : string) (c : Z) :
  match strchr s c with
  | Some o => 0 <= o <= Z.of_nat (String.length s)
  | None => True
  end.
Proof.
  induction s as [|a s IH]; cbn [strchr String.length].
  - destruct (_ =? _); [lia|done].
  - destruct (_ =? _); [lia|]. destruct (strchr s c); cbn [option_map]; [lia|done].
Qed.

Lemma getkeyboard_quit (m : CHIP8) (c : Z) :
  Z.of_nat (String.length (keymap m)) < QUIT ->
  getkeyboard m c = QUIT <-> c = 0x1b.
Proof.
  intros Hlen. unfold getkeyboard, QUIT, NOKEY in *.
  destruct (Z.eqb_spec c 27) as [->|Hn]; [done|].
  split; [|done]. destruct (negb (c =? ERR)); [|lia].
  pose proof (strchr_range (keymap m) (tolower c)) as Hr.
  destruct (strchr _ _) as [o|]; [|lia]. rewrite u8_small by lia. lia.
Qed.

(** X12.  [run] ends on the first escape and not before.  With a keymap
    shorter than 254 characters, as long as [getch] returns no escape the
    loop makes a full tick for each input; the tick that polls the escape
    is itself made in full, instructions and timers included, and leaves
    [pressed] at [QUIT]; whatever input follows is not looked at. *)
Theorem run_stops_at_first_escape (pre post : list INPUT) (q : INPUT) (r : RUN) :
  Z.of_nat (String.length (keymap (vm r))) < QUIT -> pressed r <> QUIT ->
  Forall (fun inp => getch inp <> 0x1b) pre -> getch q = 0x1b ->
  run_from pre r = ticks pre r /\
  run_from (pre ++ q :: post) r = ticks (pre ++ [q]) r /\
  (forall r', ticks (pre ++ [q]) r = Ok r' -> pressed r' = QUIT).
Proof.
  intros Hlen Hp Hpre Hq. revert r Hlen Hp.
  induction Hpre as [|inp pre Hinp Hpre IH]; intros r Hlen Hp;
    cbn [app run_from ticks]; destruct (Z.eqb_spec (pressed r) QUIT) as [|_]; try done.
  - destruct (tick q r) as [r1|] eqn:E; cbn [obind]; [|done].
    apply tick_config in E as (Ek & _ & Epr).
    assert (pressed r1 = QUIT) as Hq1.
    { rewrite Epr. apply getkeyboard_quit; done. }
    split; [done|]. split.
    + destruct post; cbn [run_from]; by rewrite Hq1.
    + by intros r' [= <-].
  - destruct (tick inp r) as [r1|] eqn:E; cbn [obind]; [|done].
    apply tick_config in E as (Ek & _ & Epr).
    apply IH.
    + by rewrite Ek.
    + rewrite Epr. intros Hx. apply getkeyboard_quit in Hx; done.
Qed.

Lemma run_stops_at_first_escape_witness :
  run_from ([no_key] ++ esc_key :: [key_1]) run_wait =
    ticks ([no_key] ++ [esc_key]) run_wait /\
  exists r', ticks ([no_key] ++ [esc_key]) run_wait = Ok r' /\ pressed r' = QUIT.
Proof.
  destruct (run_stops_at_first_escape [no_key] [key_1] esc_key run_wait)
    as (_ & H & Hq).
  - vm_compute. reflexivity.
  - vm_compute. discriminate.
  - repeat constructor. vm_compute. discriminate.
  - reflexivity.
  - split; [exact H|].
    destruct (ticks ([no_key] ++ [esc_key]) run_wait) as [r'|msg] eqn:E;
      [|vm_compute in E; discriminate E].
    exists r'. split; [reflexivity|]. by apply Hq.
Defined.

(** ** The timers while the program waits for a key *)

Lemma timers_step (m : CHIP8) :
  0 <= delay m < 256 -> 0 <= sound m < 256 ->
  delay (refreshscreen (timers m)) = Z.max 0 (delay m - 1) /\
  sound (refreshscreen (timers m)) = Z.max 0 (sound m - 1).
Proof.
  intros Hd Hs.
  assert (forall m', delay (refreshscreen m') = delay m' /\
                     sound (refreshscreen m') = sound m') as Hr.
  { intros m'. unfold refreshscreen. by destruct (dirty m'). }
  destruct (Hr (timers m)) as [-> ->]. unfold timers.
  destruct (Z.eqb_spec (delay m) 0) as [E0|N0]; cbn [negb].
  - destruct (Z.eqb_spec (sound m) 0) as [E1|N1]; cbn [negb].
    + lia.
    + cbn [delay sound with_sound]. rewrite u8_small by lia. lia.
  - cbn [sound with_delay].
    destruct (Z.eqb_spec (sound m) 0) as [E1|N1]; cbn [negb].
    + cbn [delay sound with_delay]. rewrite u8_small by lia. lia.
    + cbn [delay sound with_delay with_sound]. rewrite !u8_small by lia. lia.
Qed.

Lemma cycle_wait_timers (rnd pressed keyreg : Z) (m : CHIP8) (k' : Z) (m' : CHIP8) :
  at_wait m -> cycle rnd pressed keyreg m = Ok (k', m') ->
  delay m' = delay m /\ sound m' = sound m.
Proof.
  intros [HA HB]. unfold cycle. pose proof (fetch_keeps m) as (_ & _ & _ & _ & _ & _ & _ & Hd & Hs & _).
  destruct (fetch m) as [inst m1]. cbn [fst snd] in *.
  rewrite exec_wait by done. intros H. apply Ok_inj in H.
  injection H as _ <-. by cbn [delay sound with_pc].
Qed.

Lemma batch_wait_timers (n : nat) (rnd : nat -> Z) (k : nat) (pressed keyreg : Z)
    (m : CHIP8) (k' : Z) (m' : CHIP8) :
  at_wait m -> 0 <= pc m < 65536 ->
  batch n rnd k pressed keyreg m = Ok (k', m') ->
  delay m' = delay m /\ sound m' = sound m.
Proof.
  revert k keyreg m. induction n as [|n IH]; intros k keyreg m Hw Hpc; cbn [batch].
  - intros H. apply Ok_inj in H. by injection H as _ <-.
  - destruct (cycle_wait (rnd k) pressed keyreg m Hw Hpc) as (m1 & E & Hs1).
    rewrite E. cbn [obind fst snd].
    apply (cycle_wait_timers _ _ _ _ _ _ Hw) in E as [Ed Es].
    pose proof (same_program_fetch _ _ Hs1) as Hf.
    assert (pc m1 = pc m) as Hpc1 by (unfold same_program in Hs1; tauto).
    intros H. apply IH in H as [Hd' Hs'].
    + split; congruence.
    + unfold at_wait. by rewrite Hf.
    + lia.
Qed.

Lemma tick_wait_timers (inp : INPUT) (r r' : RUN) :
  pending r -> getkeyboard (vm r) (getch inp) = NOKEY ->
  0 <= delay (vm r) < 256 -> 0 <= sound (vm r) < 256 ->
  tick inp r = Ok r' ->
  delay (vm r') = Z.max 0 (delay (vm r) - 1) /\
  sound (vm r') = Z.max 0 (sound (vm r) - 1).
Proof.
  intros (Hpc & Hlen & Hw & Hk) Hkey Hd Hs. unfold tick, poll. rewrite Hkey.
  rewrite Z.eqb_refl, andb_false_r. cbn [vm pressed keyreg negb].
  destruct (batch _ _ _ _ _ _) as [[k1 m1]|] eqn:E; cbn [obind]; [|discriminate].
  intros H. apply Ok_inj in H. subst r'. cbn [vm fst snd].
  apply batch_wait_timers in E as [Ed Es]; [|done|done].
  rewrite <- Ed, <- Es. apply timers_step; lia.
Qed.

(** X13.  The timers run while the program waits for a key.  With the
    loop parked on [Fx0A], each tick that polls no key takes one off the
    delay timer and one off the sound timer until they are 0, where they
    stay: after n such ticks each timer is its old value less n, or 0. *)
Theorem timers_run_while_waiting (r : RUN) (inps : list INPUT) :
  pending r -> pressed r <> QUIT ->
  0 <= delay (vm r) < 256 -> 0 <= sound (vm r) < 256 ->
  Forall (fun inp => getkeyboard (vm r) (getch inp) = NOKEY) inps ->
  exists r',
    run_from inps r = Ok r' /\
    delay (vm r') = Z.max 0 (delay (vm r) - Z.of_nat (length inps)) /\
    sound (vm r') = Z.max 0 (sound (vm r) - Z.of_nat (length inps)).
Proof.
  revert r. induction inps as [|inp inps IH]; intros r Hp Hq Hd Hs Hall.
  - exists r. cbn [run_from length]. destruct (Z.eqb_spec (pressed r) QUIT); [done|].
    split; [done|]. lia.
  - apply Forall_cons_iff in Hall as [Hkey Hall]. cbn [run_from length].
    destruct (Z.eqb_spec (pressed r) QUIT) as [|_]; [done|].
    destruct (tick_wait inp r Hp Hkey) as (r1 & E & Hp1 & Hsp & Hpr).
    rewrite E. cbn [obind].
    apply (tick_wait_timers _ _ _ Hp Hkey Hd Hs) in E as [Ed Es].
    destruct (IH r1 Hp1) as (r2 & H2 & Hd2 & Hs2).
    + rewrite Hpr. discriminate.
    + lia.
    + lia.
    + eapply List.Forall_impl; [|exact Hall]. intros inp' H.
      by rewrite (same_program_getkeyboard _ _ _ Hsp).
    + exists r2. split; [exact H2|]. lia.
Qed.

Lemma timers_run_while_waiting_witness :
  pending run_wait_timed /\
  exists r', run_from [no_key; no_key] run_wait_timed = Ok r' /\
             delay (vm r') = 1 /\ sound (vm r') = 0.
Proof.
  assert (pending run_wait_timed) as Hp.
  { split; [simpl; lia|]. split; [reflexivity|]. split; [split|]; reflexivity. }
  split; [exact Hp|].
  destruct (timers_run_while_waiting run_wait_timed [no_key; no_key] Hp)
    as (r' & E & Hd & Hs).
  - vm_compute. discriminate.
  - vm_compute. split; [discriminate|reflexivity].
  - vm_compute. split; [discriminate|reflexivity].
  - repeat constructor.
  - exists r'. split; [exact E|]. split; [exact Hd|exact Hs].
Defined.

(** ** The dirty flag *)

Lemma repaint_due_trans (m1 m2 m3 : CHIP8) :
  repaint_due m1 m2 -> repaint_due m2 m3 -> repaint_due m1 m3.
Proof.
  unfold repaint_due. intros [[H1 H2]|H1] [[H3 H4]|H3]; try (by right).
  - left. split; congruence.
  - right. congruence.
Qed.

Lemma exec_draw (rnd pressed inst keyreg : Z) (m : CHIP8) :
  Op.A inst = 0xD -> exec rnd pressed inst keyreg m = Ok (keyreg, draw m inst).
Proof. intros HA. unfold exec. not_cls_rts inst HA. rewrite HA. reflexivity. Qed.

Lemma draw_repaint_due (m : CHIP8) (inst : Z) : repaint_due m (draw m inst).
Proof.
  unfold draw. apply for_u8_inv; [|by left].
  intros row s Hs. unfold draw_row, mem_load.
  apply for_u8_inv; [|destruct Hs as [[? ?]|?]; [by left|by right]].
  intros col s' Hs'. destruct (isbitset _ _); [|done]. by right.
Qed.

Lemma exec_repaint_due (rnd pressed inst keyreg : Z) (m : CHIP8) (k' : Z) (m' : CHIP8) :
  exec rnd pressed inst keyreg m = Ok (k', m') -> repaint_due m m'.
Proof.
  intros E. destruct (writes_screen inst) eqn:Hw.
  - unfold writes_screen in Hw. apply orb_true_iff in Hw as [Hw|Hw].
    + unfold exec in E. rewrite Hw in E. injection E as <- <-. by right.
    + apply Z.eqb_eq in Hw. rewrite exec_draw in E by done.
      injection E as <- <-. apply draw_repaint_due.
  - apply exec_frame in E as (_ & _ & H & _). left. by apply H.
Qed.

Lemma cycle_repaint_due (rnd pressed keyreg : Z) (m : CHIP8) (k' : Z) (m' : CHIP8) :
  cycle rnd pressed keyreg m = Ok (k', m') -> repaint_due m m'.
Proof.
  unfold cycle. pose proof (fetch_keeps m) as (_ & _ & _ & _ & _ & H1 & H2 & _).
  destruct (fetch m) as [inst m1]. cbn [snd] in *. intros E.
  apply exec_repaint_due in E. eapply repaint_due_trans; [|exact E]. by left.
Qed.

(** X14.  No change of the screen goes unflagged.  Over the instructions
    of a tick either the display buffer and the dirty flag end as they
    began, or the dirty flag is up: the instructions never lower the flag
    and never change a cell without raising it.  [refreshscreen] at the
    end of the tick then lowers the flag and leaves the buffer as it
    is. *)
Theorem display_change_sets_dirty (n : nat) (rnd : nat -> Z) (k : nat)
    (pressed keyreg : Z) (m : CHIP8) (k' : Z) (m' : CHIP8) :
  batch n rnd k pressed keyreg m = Ok (k', m') ->
  ((display m' = display m /\ dirty m' = dirty m) \/ dirty m' = true) /\
  dirty (refreshscreen (timers m')) = false /\
  display (refreshscreen (timers m')) = display m'.
Proof.
  intros E. split.
  - revert k keyreg m E. induction n as [|n IH]; intros k keyreg m; cbn [batch].
    + intros [= <- <-]. by left.
    + destruct (cycle _ _ _ _) as [[k1 m1]|] eqn:E; cbn [obind fst snd]; [|discriminate].
      intros H. apply IH in H. apply cycle_repaint_due in E.
      exact (repaint_due_trans _ _ _ E H).
  - unfold refreshscreen, timers.
    repeat match goal with |- context [if ?c then _ else _] => destruct c eqn:? end;
      cbn [dirty display with_dirty with_delay with_sound] in *; split; congruence.
Qed.

Lemma display_change_sets_dirty_witness :
  exists m', batch 2 (fun _ => 0) 0 NOKEY 17 vm_cls = Ok (17, m') /\
             dirty m' = true /\ dirty (refreshscreen (timers m')) = false.
Proof.
  destruct (batch 2 (fun _ => 0) 0 NOKEY 17 vm_cls) as [[k m']|msg] eqn:E;
    [|vm_compute in E; discriminate E].
  assert (k = 17) as -> by (vm_compute in E; congruence).
  exists m'. split; [reflexivity|].
  destruct (display_change_sets_dirty 2 (fun _ => 0) 0 NOKEY 17 vm_cls 17 m' E)
    as (_ & H & _).
  split; [|exact H]. vm_compute in E. apply Ok_inj in E. injection E as <-. reflexivity.
Defined.

(** ** Start-up: [main] before [run] *)

Lemma aget_nil_cons {T : Type} (d x : T) (l : list T) (k : Z) :
  0 < k -> aget d (x :: l) k = aget d l (k - 1).
Proof.
  intros Hk. unfold aget. destruct (Z.leb_spec 0 k); [|lia].
  destruct (Z.leb_spec 0 (k - 1)); [|lia].
  replace (Z.to_nat k) with (S (Z.to_nat (k - 1))) by lia. done.
Qed.

Lemma memcpy_lookup (src buf : list Z) (addr j : Z) :
  0 <= addr -> addr + Z.of_nat (length src) <= Z.of_nat (length buf) ->
  aget 0 (memcpy buf addr src) j =
    if (addr <=? j) && (j <? addr + Z.of_nat (length src)) then aget 0 src (j - addr)
    else aget 0 buf j.
Proof.
  revert buf addr. induction src as [|b src IH]; intros buf addr Ha Hl; cbn [memcpy length].
  - destruct (Z.leb_spec addr j), (Z.ltb_spec j (addr + Z.of_nat 0)); cbn [andb]; try done. lia.
  - cbn [length] in Hl. rewrite IH; [|lia|rewrite length_aset; lia].
    destruct (Z.leb_spec (addr + 1) j), (Z.ltb_spec j (addr + 1 + Z.of_nat (length src)));
      destruct (Z.leb_spec addr j), (Z.ltb_spec j (addr + Z.of_nat (S (length src))));
      cbn [andb]; try lia.
    all: first [ by rewrite aget_aset_ne by lia
               | rewrite aget_nil_cons by lia; f_equal; lia
               | assert (j = addr) as -> by lia; rewrite aget_aset_eq by lia;
                 by rewrite Z.sub_diag ].
Qed.

Lemma aget_take (l : list Z) (n : nat) (k : Z) :
  k < Z.of_nat n -> aget 0 (take n l) k = aget 0 l k.
Proof.
  intros Hk. unfold aget. destruct (Z.leb_spec 0 k); [|done].
  by rewrite lookup_take_lt by lia.
Qed.

Lemma aget_replicate (n : nat) (k : Z) : aget 0 (replicate n 0) k = 0.
Proof.
  unfold aget. destruct (0 <=? k); [|done].
  destruct (replicate n 0 !! Z.to_nat k) eqn:E; [|done].
  apply lookup_replicate in E as [-> _]. done.
Qed.

Lemma option_case_configured (o : OPT) (st st' : Z * CHIP8) :
  configured st -> option_case o st = Ok st' -> configured st'.
Proof.
  destruct st as [addr m]. intros (Ha & Hpc & Hi & Hk & Hu).
  cbn [fst snd] in *. destruct o as [n|optarg|n|n|]; cbn [option_case].
  - cbn [pc with_pc]. pose proof (u16_range n) as Hr.
    destruct (Z.ltb_spec (u16 n) 0); [lia|].
    destruct (Z.geb_spec (u16 n) MEMORY_SIZE); cbn [orb]; [discriminate|].
    intros Hok. apply Ok_inj in Hok. subst st'. unfold configured. cbn [fst snd pc with_pc inspertick keymap].
    split; [done|]. split; [lia|]. split; [done|]. split; [done|]. exact Hu.
  - destruct (Z.eqb_spec (Z.of_nat (String.length optarg)) 16) as [E|]; cbn [negb];
      [|discriminate].
    intros Hok. apply Ok_inj in Hok. subst st'. unfold configured. cbn [fst snd pc with_keymap inspertick keymap].
    split; [done|]. split; [done|]. split; [done|]. split; [lia|]. exact Hu.
  - intros Hok. apply Ok_inj in Hok. subst st'. unfold configured. by cbn [fst snd].
  - cbn [inspertick with_inspertick]. destruct (Z.leb_spec n 0); [discriminate|].
    intros Hok. apply Ok_inj in Hok. subst st'. unfold configured.
    cbn [fst snd pc with_inspertick inspertick keymap].
    split; [done|]. split; [done|]. split; [lia|]. split; [done|]. exact Hu.
  - discriminate.
Qed.

Lemma option_loop_configured (opts : list OPT) (st st' : Z * CHIP8) :
  configured st -> option_loop opts st = Ok st' -> configured st'.
Proof.
  revert st. induction opts as [|o opts IH]; intros st Hc; cbn [option_loop].
  - intros H. apply Ok_inj in H. by subst.
  - destruct (option_case o st) as [st1|] eqn:E; cbn [obind]; [|discriminate].
    apply IH. by eapply option_case_configured.
Qed.

Lemma configured_init : configured (pc vm_init, vm_init).
Proof.
  split; [done|]. split; [by cbn|]. split; [by cbn|]. split; [done|].
  by repeat split.
Qed.

(** What [setup] hands over is what [boot] builds. *)
Lemma setup_boot (opts : list OPT) (nargs : Z) (screen : bool) (f : ROMFILE) (m : CHIP8) :
  setup opts nargs screen f = Ok m ->
  nargs = 1 /\ screen = true /\
  0 <= pc m < MEMORY_SIZE /\ 0 < inspertick m /\ String.length (keymap m) = 16%nat /\
  exists rom buf,
    f = Bytes rom /\ buf = memcpy (replicate (Z.to_nat MEMORY_SIZE) 0) 0 font /\
    mem m = loadrom rom buf (pc m) /\
    boot (pc m) (inspertick m) (keymap m) rom = Ok m.
Proof.
  unfold setup.
  destruct (option_loop opts _) as [[addr vm0]|] eqn:E; cbn [obind]; [|discriminate].
  apply option_loop_configured in E; [|apply configured_init].
  destruct E as (Ha & Hpc & Hi & Hk & Hu). cbn [fst snd] in *.
  destruct (Z.eqb_spec nargs 1) as [->|]; cbn [negb]; [|discriminate].
  destruct screen; cbn [negb]; [|discriminate].
  destruct (loadfonts (mem vm0) 0) as [buf|] eqn:Ef; cbn [obind]; [|discriminate].
  destruct f as [| |rom]; cbn [loadrom_file obind]; try discriminate.
  intros H. apply Ok_inj in H. subst m addr. cbn [pc inspertick keymap mem with_mem].
  split; [done|]. split; [done|]. split; [done|]. split; [done|]. split; [done|].
  exists rom, buf. split; [done|].
  destruct Hu as (Hm & Hs & Hsp & Hi0 & Hd & Hso & Hv & Hdi & Hdp & Hac).
  rewrite Hm in Ef. cbn [mem vm_init] in Ef.
  split; [by apply loadfonts_ok in Ef|]. split; [done|].
  unfold boot. rewrite Ef. cbn [obind].
  f_equal. destruct vm0. cbn in Hm, Hs, Hsp, Hi0, Hd, Hso, Hv, Hdi, Hdp, Hac.
  subst. reflexivity.
Qed.

Lemma font_image (j : Z) :
  aget 0 (memcpy (replicate (Z.to_nat MEMORY_SIZE) 0) 0 font) j =
    if (0 <=? j) && (j <? 80) then aget 0 font j else 0.
Proof.
  rewrite memcpy_lookup.
  - rewrite aget_replicate. change (Z.of_nat (length font)) with 80.
    by rewrite Z.sub_0_r.
  - lia.
  - rewrite length_replicate. change (Z.of_nat (length font)) with 80.
    unfold MEMORY_SIZE. lia.
Qed.

(** X15.  When the start-up of [main] succeeds there was exactly one
    argument left, the screen opened and the ROM was read; the load
    address, which is also the initial [pc], lies within memory, the
    number of instructions per tick is positive and the keymap has 16
    characters.  Memory holds the ROM from the load address on, cut off at
    the end of memory; below and above it the 80 font bytes at 0 and zero
    elsewhere, so a ROM loaded below 80 overwrites the font.  Everything
    else is zero, and the machine is well-formed. *)
Theorem setup_ok (opts : list OPT) (nargs : Z) (screen : bool) (f : ROMFILE) (m : CHIP8) :
  setup opts nargs screen f = Ok m ->
  nargs = 1 /\ screen = true /\
  0 <= pc m < MEMORY_SIZE /\ 0 < inspertick m /\ String.length (keymap m) = 16%nat /\
  exists rom,
    f = Bytes rom /\
    boot (pc m) (inspertick m) (keymap m) rom = Ok m /\
    (forall j, 0 <= j < MEMORY_SIZE ->
       aget 0 (mem m) j =
         if (pc m <=? j) && (j <? pc m + Z.of_nat (length rom)) then aget 0 rom (j - pc m)
         else if j <? 80 then aget 0 font j
         else 0) /\
    (Forall (fun b => 0 <= b < 256) rom -> wf m).
Proof.
  intros E. apply setup_boot in E as (Hn & Hs & Hpc & Hi & Hk & rom & buf & Hf & Hb & Hm & Hboot).
  split; [done|]. split; [done|]. split; [done|]. split; [done|]. split; [done|].
  exists rom. split; [done|]. split; [done|]. split.
  - intros j Hj. rewrite Hm. unfold loadrom.
    assert (Z.of_nat (length buf) = MEMORY_SIZE) as Hlen.
    { subst buf. by rewrite memcpy_length, length_replicate. }
    rewrite memcpy_lookup; [|lia|rewrite length_take; lia].
    rewrite length_take.
    assert (aget 0 buf j = if j <? 80 then aget 0 font j else 0) as Hfont.
    { subst buf. rewrite font_image. destruct (Z.leb_spec 0 j); [done|lia]. }
    destruct (Z.leb_spec (pc m) j); cbn [andb]; [|done].
    destruct (Z.ltb_spec j (pc m + Z.of_nat (length rom))).
    + destruct (Z.ltb_spec j (pc m + Z.of_nat (Z.to_nat (MEMORY_SIZE - pc m)
                                                 `min` length rom))); [|lia].
      apply aget_take. lia.
    + destruct (Z.ltb_spec j (pc m + Z.of_nat (Z.to_nat (MEMORY_SIZE - pc m)
                                                 `min` length rom))); [lia|done].
  - intros Hrom. eapply boot_wf; [exact Hpc|exact Hrom|exact Hboot].
Qed.

Lemma setup_ok_witness :
  exists m, setup [OptS 20; OptA 0x300] 1 true (Bytes rom_wait) = Ok m /\
            wf m /\ aget 0 (mem m) 0x300 = 0xF0 /\ aget 0 (mem m) 5 = 0x20.
Proof.
  destruct (setup [OptS 20; OptA 0x300] 1 true (Bytes rom_wait)) as [m|msg] eqn:E;
    [|vm_compute in E; discriminate E].
  exists m. split; [reflexivity|].
  destruct (setup_ok _ _ _ _ _ E) as (_ & _ & _ & _ & _ & rom & Hf & _ & Himg & Hwf).
  injection Hf as <-.
  assert (pc m = 0x300) as Hpc.
  { vm_compute in E. apply Ok_inj in E. by subst m. }
  split; [apply Hwf; repeat constructor; lia|].
  split; rewrite Himg by (unfold MEMORY_SIZE; lia); rewrite Hpc; reflexivity.
Defined.

(** ** The whole program *)

Lemma cycle_die_cases (rnd pressed keyreg : Z) (m : CHIP8) (msg : string) :
  cycle rnd pressed keyreg m = Die msg ->
  msg = "stack underflow"%string \/ msg = "stack overflow"%string \/
  msg = "invalid instruction"%string.
Proof.
  unfold cycle. destruct (fetch m) as [inst m1]. intros E.
  apply exec_die_cases in E as [(? & _)|[(? & _)|?]]; auto.
Qed.

Lemma batch_die_cases (n : nat) (rnd : nat -> Z) (k : nat) (pressed keyreg : Z)
    (m : CHIP8) (msg : string) :
  batch n rnd k pressed keyreg m = Die msg ->
  msg = "stack underflow"%string \/ msg = "stack overflow"%string \/
  msg = "invalid instruction"%string.
Proof.
  revert k keyreg m. induction n as [|n IH]; intros k keyreg m; cbn [batch]; [discriminate|].
  destruct (cycle _ _ _ _) as [[k1 m1]|msg1] eqn:E; cbn [obind fst snd].
  - apply IH.
  - intros [= <-]. by eapply cycle_die_cases.
Qed.

Lemma run_from_die_cases (inps : list INPUT) (r : RUN) (msg : string) :
  run_from inps r = Die msg ->
  msg = "stack underflow"%string \/ msg = "stack overflow"%string \/
  msg = "invalid instruction"%string.
Proof.
  revert r. induction inps as [|inp inps IH]; intros r; cbn [run_from];
    destruct (pressed r =? QUIT); try discriminate.
  destruct (tick inp r) as [r1|msg1] eqn:E; cbn [obind]; [apply IH|].
  intros [= <-]. unfold tick in E.
  destruct (batch _ _ _ _ _ _) as [[k1 m1]|msg2] eqn:Eb; cbn [obind] in E; [discriminate|].
  injection E as <-. by eapply batch_die_cases.
Qed.

Lemma loadfonts_zero (buf : list Z) : loadfonts buf 0 = Ok (memcpy buf 0 font).
Proof. reflexivity. Qed.

Lemma option_loop_die_cases (opts : list OPT) (st : Z * CHIP8) (msg : string) :
  option_loop opts st = Die msg ->
  msg = USAGE \/ msg = "invalid load address"%string \/
  msg = "invalid keymap"%string \/ msg = "invalid instructions per tick"%string.
Proof.
  revert st. induction opts as [|o opts IH]; intros st; cbn [option_loop]; [discriminate|].
  destruct (option_case o st) as [st1|msg1] eqn:E; cbn [obind]; [apply IH|].
  intros [= <-]. destruct st as [addr vm0]. destruct o; cbn [option_case] in E.
  - destruct (_ || _); [|discriminate]. injection E as <-. auto.
  - destruct (negb _); [|discriminate]. injection E as <-. auto.
  - discriminate.
  - destruct (_ <=? _); [|discriminate]. injection E as <-. auto.
  - injection E as <-. auto.
Qed.

(** X16.  [main] ends in [die] with one of ten messages and no other.
    Before [run]: the usage line (an unknown option, or not exactly one
    argument left), "invalid load address", "invalid keymap", "invalid
    instructions per tick", "could not open screen", "could not open rom",
    "could not read rom".  During [run]: "stack underflow", "stack
    overflow", "invalid instruction".  The check in [loadfonts] never
    fires, fonts being loaded at 0. *)
Theorem main_fatal_errors (opts : list OPT) (nargs : Z) (screen : bool) (f : ROMFILE)
    (inps : list INPUT) (msg : string) :
  main opts nargs screen f inps = Die msg ->
  (setup opts nargs screen f = Die msg /\
   In msg [USAGE; "invalid load address"; "invalid keymap";
           "invalid instructions per tick"; "could not open screen";
           "could not open rom"; "could not read rom"]%string) \/
  (exists m, setup opts nargs screen f = Ok m /\ run inps m = Die msg /\
     In msg ["stack underflow"; "stack overflow"; "invalid instruction"]%string).
Proof.
  unfold main. destruct (setup opts nargs screen f) as [m|msg1] eqn:E; cbn [obind].
  - intros Hr. right. exists m. split; [done|]. split; [done|].
    unfold run in Hr. apply run_from_die_cases in Hr as [-> |[-> | ->]]; cbn; auto.
  - intros [= <-]. left. split; [done|]. unfold setup in E.
    destruct (option_loop opts _) as [[addr vm0]|msg2] eqn:Eo; cbn [obind] in E.
    + destruct (negb (nargs =? 1)); [injection E as <-; cbn; auto|].
      destruct (negb screen); [injection E as <-; cbn; auto 10|].
      rewrite loadfonts_zero in E. cbn [obind] in E.
      destruct f; cbn [loadrom_file obind] in E; [| |discriminate];
        injection E as <-; cbn; auto 10.
    + injection E as <-. apply option_loop_die_cases in Eo as [-> |[-> |[-> | ->]]];
        cbn; auto 10.
Qed.

Lemma main_fatal_errors_witness :
  exists m, setup [] 1 true (Bytes []) = Ok m /\
            run [no_key] m = Die "invalid instruction".
Proof.
  destruct (main_fatal_errors [] 1 true (Bytes []) [no_key] "invalid instruction")
    as [[E _]|(m & E1 & E2 & _)].
  - vm_compute. reflexivity.
  - vm_compute in E. discriminate E.
  - exists m. split; [exact E1|exact E2].
Defined.

(** X17.  Whatever the options, the ROM and the keys, a run that [main]
    starts and that comes to its end leaves a well-formed machine: the
    arrays have their lengths, every register, timer and memory byte is
    within 8 bits, the stack pointer is between 0 and [STACK_SIZE], so
    the return addresses held are at most five; the keymap still has 16
    characters and the number of instructions per tick is still positive;
    and every memory index used on the way lay within memory. *)
Theorem main_keeps_well_formed (opts : list OPT) (nargs : Z) (screen : bool)
    (rom : list Z) (inps : list INPUT) (r : RUN) :
  Forall (fun b => 0 <= b < 256) rom ->
  main opts nargs screen (Bytes rom) inps = Ok r ->
  wf_facts (vm r) /\ (length (frames (vm r)) <= 5)%nat /\
  0 < inspertick (vm r) /\ String.length (keymap (vm r)) = 16%nat /\
  Forall in_bounds (accessed (vm r)).
Proof.
  intros Hrom. unfold main.
  destruct (setup opts nargs screen (Bytes rom)) as [m|] eqn:E; cbn [obind]; [|discriminate].
  intros Hrun.
  apply setup_boot in E as (_ & _ & Hpc & Hi & Hk & rom' & _ & Hf & _ & _ & Hboot).
  injection Hf as <-.
  destruct (booted_run_in_bounds _ _ _ _ _ _ _ Hpc Hrom Hboot Hrun) as [Hwf Hacc].
  unfold run in Hrun. apply run_from_config in Hrun as [Ek Ei]. cbn [vm] in Ek, Ei.
  split; [by apply wf_iff|]. split; [|split; [lia|split; [congruence|done]]].
  pose proof (length_frames _ Hwf) as Hl. apply wf_iff in Hwf as []. lia.
Qed.

Lemma main_keeps_well_formed_witness :
  exists r, main [] 1 true (Bytes rom_wait) [no_key; key_1] = Ok r /\
            0 <= sp (vm r) <= 5 /\ Forall in_bounds (accessed (vm r)).
Proof.
  destruct (main [] 1 true (Bytes rom_wait) [no_key; key_1]) as [r|msg] eqn:E;
    [|vm_compute in E; discriminate E].
  exists r. split; [reflexivity|].
  destruct (main_keeps_well_formed [] 1 true rom_wait [no_key; key_1] r)
    as ([] & _ & _ & _ & Hacc).
  - repeat constructor; lia.
  - exact E.
  - split; [assumption|exact Hacc].
Defined.

(** ** Pacing *)

Lemma tsdiff_seconds (end_ start : timespec) :
  normalized start -> normalized end_ ->
  tsdiff end_ start = tv_sec end_ - tv_sec start.
Proof.
  intros [_ Hs] [_ He]. unfold tsdiff.
  assert (Z.quot (tv_nsec end_ - tv_nsec start) NANOS_PER_SECOND = 0) as ->; [|lia].
  apply Z.quot_small_iff; unfold NANOS_PER_SECOND in *; lia.
Qed.

(** X18.  On two readings of the clock, the later not before the
    earlier, [tsdiff] is the difference of their seconds fields alone:
    the nanoseconds never add up to a whole second, so their quotient is
    0.  [sleeptonexttick] therefore asks [nanosleep] for NANOS_PER_TICK
    nanoseconds less one for every second boundary crossed, whatever
    time the tick took within the second; it asks once if the sleep is
    not interrupted, and does not sleep at all when 16,666,666 or more
    seconds have passed. *)
Theorem sleep_ignores_nanoseconds (start end_ : timespec)
    (answers : list (option timespec)) :
  normalized start -> normalized end_ -> tv_sec start <= tv_sec end_ ->
  tsdiff end_ start = tv_sec end_ - tv_sec start /\
  (tv_sec end_ - tv_sec start < NANOS_PER_TICK ->
     sleeptonexttick start end_ answers =
       nanosleep_loop answers
         (mktimespec 0 (NANOS_PER_TICK - (tv_sec end_ - tv_sec start))) /\
     sleeptonexttick start end_ (None :: answers) =
       [mktimespec 0 (NANOS_PER_TICK - (tv_sec end_ - tv_sec start))]) /\
  (NANOS_PER_TICK <= tv_sec end_ - tv_sec start ->
     sleeptonexttick start end_ answers = []).
Proof.
  intros Hs He Hle. pose proof (tsdiff_seconds end_ start Hs He) as Hd.
  split; [exact Hd|]. unfold sleeptonexttick. rewrite Hd.
  assert (NANOS_PER_TICK = 16666666) as Ht by reflexivity.
  split.
  - intros Hlt.
    destruct (Z.gtb_spec (NANOS_PER_TICK - (tv_sec end_ - tv_sec start)) 0); [|lia].
    rewrite Z.quot_small, Z.rem_small by (unfold NANOS_PER_SECOND; lia). done.
  - intros Hge.
    destruct (Z.gtb_spec (NANOS_PER_TICK - (tv_sec end_ - tv_sec start)) 0); [lia|done].
Qed.

Lemma sleep_ignores_nanoseconds_witness :
  tsdiff ts_end ts_start = 1 /\
  sleeptonexttick ts_start ts_end [None] = [mktimespec 0 16666665].
Proof.
  destruct (sleep_ignores_nanoseconds ts_start ts_end []) as (Hd & H & _).
  - vm_compute. repeat split; discriminate.
  - vm_compute. repeat split; discriminate.
  - vm_compute. discriminate.
  - split; [exact Hd|]. apply H. reflexivity.
Defined.
